(** * dropbox-sharedlink-download: recursive listing and download of a shared link

    A shallow embedding of [dropbox_download.py] and the properties of its
    content hash, remote lister, download scheduler and [__main__] block.

    Library calls of the script ([hashlib], [os], [pathlib2], [json], the
    Dropbox SDK, [ThreadPoolExecutor]) are modelled next to the code that
    uses them; every such model says which call it stands for.

    What the model leaves out: [print] and the [tqdm] progress bars; file
    permissions and symbolic links (a file that exists can be read); the
    resolution of ['..'], which is kept as a name; a slash at the end of a
    path, which is dropped as [pathlib] drops it; limits on the length and
    the characters of a name.  A Python [str] is a [string], [bytes] are a
    [list byte], an [int] is a [Z].

    The script's loops are [Fixpoint]s.  The two [while] loops of the lister
    depend on what the server answers and take fuel; running out of it is
    [None], which is neither a returned value nor an exception.  The read
    loop of the content hash is given one round per byte and one more, which
    is shown to be enough. *)

From Stdlib Require Import NArith ZArith Lia List String Ascii.
From Stdlib.Strings Require Import Byte.
From stdpp Require Import gmap strings list.

Set Warnings "-register-all".

Local Open Scope N_scope.

(** ** [hashlib.sha256]: SHA-256 as in FIPS 180-4, on 32-bit words held in [N] *)

Module SHA256.

Definition w32 (x : N) : N := x mod 2 ^ 32.
Definition add32 (x y : N) : N := w32 (x + y).
Definition not32 (x : N) : N := N.lxor x 0xffffffff.
Definition rotr (n x : N) : N :=
  N.lor (N.shiftr x n) (w32 (N.shiftl x (32 - n))).
Definition shr (n x : N) : N := N.shiftr x n.

Definition Ch (x y z : N) : N := N.lxor (N.land x y) (N.land (not32 x) z).
Definition Maj (x y z : N) : N :=
  N.lxor (N.land x y) (N.lxor (N.land x z) (N.land y z)).
Definition Sigma0 (x : N) : N := N.lxor (rotr 2 x) (N.lxor (rotr 13 x) (rotr 22 x)).
Definition Sigma1 (x : N) : N := N.lxor (rotr 6 x) (N.lxor (rotr 11 x) (rotr 25 x)).
Definition sigma0 (x : N) : N := N.lxor (rotr 7 x) (N.lxor (rotr 18 x) (shr 3 x)).
Definition sigma1 (x : N) : N := N.lxor (rotr 17 x) (N.lxor (rotr 19 x) (shr 10 x)).

(** The round constants: the first 32 bits of the fractional parts of the
    cube roots of the first 64 primes, in decimal. *)
Definition K : list N :=
  [ 1116352408; 1899447441; 3049323471; 3921009573; 961987163;
    1508970993; 2453635748; 2870763221; 3624381080; 310598401;
    607225278; 1426881987; 1925078388; 2162078206; 2614888103;
    3248222580; 3835390401; 4022224774; 264347078; 604807628;
    770255983; 1249150122; 1555081692; 1996064986; 2554220882;
    2821834349; 2952996808; 3210313671; 3336571891; 3584528711;
    113926993; 338241895; 666307205; 773529912; 1294757372;
    1396182291; 1695183700; 1986661051; 2177026350; 2456956037;
    2730485921; 2820302411; 3259730800; 3345764771; 3516065817;
    3600352804; 4094571909; 275423344; 430227734; 506948616;
    659060556; 883997877; 958139571; 1322822218; 1537002063;
    1747873779; 1955562222; 2024104815; 2227730452; 2361852424;
    2428436474; 2756734187; 3204031479; 3329325298 ].

(** The initial hash value: the same of the square roots of the first 8 primes. *)
Definition H0 : list N :=
  [ 1779033703; 3144134277; 1013904242; 2773480762;
    1359893119; 2600822924; 528734635; 1541459225 ].

(** Big-endian encoding of [x] on [n] bytes, as numbers below 256. *)
Fixpoint be_bytes (n : nat) (x : N) : list N :=
  match n with
  | O => []
  | S n' => (N.shiftr x (8 * N.of_nat n')) mod 256 :: be_bytes n' x
  end.

Definition be_word (bs : list N) : N :=
  fold_left (fun acc b => acc * 256 + b) bs 0.

(** Padding: a [1] bit, zeros up to 56 modulo 64, the bit length on 8 bytes. *)
Definition pad (msg : list N) : list N :=
  let len := N.of_nat (length msg) in
  msg ++ [0x80] ++ repeat 0 (N.to_nat ((119 - len mod 64) mod 64))
      ++ be_bytes 8 (8 * len).

Fixpoint words (n : nat) (bs : list N) : list N :=
  match n with
  | O => []
  | S n' => be_word (firstn 4 bs) :: words n' (skipn 4 bs)
  end.

(** The message schedule, newest word first. *)
Fixpoint schedule (n : nat) (rw : list N) : list N :=
  match n with
  | O => rw
  | S n' =>
      let w := add32 (add32 (sigma1 (nth 1 rw 0)) (nth 6 rw 0))
                     (add32 (sigma0 (nth 14 rw 0)) (nth 15 rw 0)) in
      schedule n' (w :: rw)
  end.

Definition round (s : list N) (kw : N * N) : list N :=
  match s with
  | [a; b; c; d; e; f; g; h] =>
      let t1 := add32 (add32 (add32 h (Sigma1 e)) (add32 (Ch e f g) (fst kw))) (snd kw) in
      let t2 := add32 (Sigma0 a) (Maj a b c) in
      [add32 t1 t2; a; b; c; add32 d t1; e; f; g]
  | _ => s
  end.

Definition compress (h : list N) (block : list N) : list N :=
  let w := rev (schedule 48 (rev (words 16 block))) in
  let s := fold_left round (combine K w) h in
  map (fun p => add32 (fst p) (snd p)) (combine h s).

Fixpoint blocks (n : nat) (h : list N) (bs : list N) : list N :=
  match n with
  | O => h
  | S n' => blocks n' (compress h (firstn 64 bs)) (skipn 64 bs)
  end.

Definition byte_of_N (x : N) : byte :=
  match Byte.of_N x with Some b => b | None => x00 end.

Definition sha256 (msg : list byte) : list byte :=
  let p := pad (map Byte.to_N msg) in
  map byte_of_N (flat_map (be_bytes 4) (blocks (length p / 64) H0 p)).

Definition hex_digit (x : N) : ascii :=
  if x <? 10 then ascii_of_N (48 + x) else ascii_of_N (87 + x).

(** [.hexdigest()]: two lowercase hexadecimal digits per byte. *)
Fixpoint hex (bs : list byte) : string :=
  match bs with
  | [] => EmptyString
  | b :: bs' =>
      String (hex_digit (Byte.to_N b / 16))
        (String (hex_digit (Byte.to_N b mod 16)) (hex bs'))
  end.

Definition bytes_of_string (s : string) : list byte :=
  map byte_of_ascii (list_ascii_of_string s).

End SHA256.

Local Close Scope N_scope.

(** ** Python values the script handles *)

(** The exceptions the modelled calls raise. *)
Inductive exn :=
| TypeError
| ValueError
| KeyError
| FileNotFoundError
| FileExistsError
| IsADirectoryError
| NotADirectoryError
| JSONDecodeError
| SystemExit
| ApiError (msg : string).

(** The result of a call that returns a value or raises. *)
Inductive result (A : Type) :=
| Ok (a : A)
| Raise (e : exn).
Arguments Ok {A} a.
Arguments Raise {A} e.

(** One element of [all_files]: [(path, name, content_hash, size)]. *)
Definition entry : Type := string * string * string * Z.

(** ** [str] methods: [strip] and [join] *)

Fixpoint lstrip (c : ascii) (s : string) : string :=
  match s with
  | EmptyString => EmptyString
  | String a s' => if Ascii.eqb a c then lstrip c s' else s
  end.

Fixpoint rstrip (c : ascii) (s : string) : string :=
  match s with
  | EmptyString => EmptyString
  | String a s' =>
      match rstrip c s' with
      | EmptyString => if Ascii.eqb a c then EmptyString else String a EmptyString
      | r => String a r
      end
  end.

(** [s.strip('/')] *)
Definition strip_slash (s : string) : string := rstrip "/" (lstrip "/" s).

(** ['/'.join([a, b])] *)
Definition slash_join (a b : string) : string := a +:+ "/" +:+ b.

(** [s.split('/')], with [cur] the component read so far. *)
Fixpoint split_slash (s : string) (cur : string) : list string :=
  match s with
  | EmptyString => [cur]
  | String a s' =>
      if Ascii.eqb a "/" then cur :: split_slash s' EmptyString
      else split_slash s' (cur +:+ String a EmptyString)
  end.

(** ** [pathlib2]: pure POSIX paths *)

(** A path is its root flag and its components.  [Path(s)] drops empty and
    ['.'] components and keeps ['..'] as an ordinary component. *)
Record Path := { anchored : bool; parts : list string }.

Definition is_component (c : string) : bool :=
  negb (String.eqb c EmptyString) && negb (String.eqb c ".").

Definition mkPath (s : string) : Path :=
  {| anchored := match s with String "/" _ => true | _ => false end;
     parts := List.filter is_component (split_slash s EmptyString) |}.

(** [p / q]: an anchored right operand replaces the left one. *)
Definition joinpath (p q : Path) : Path :=
  if anchored q then q
  else {| anchored := anchored p; parts := parts p ++ parts q |}.

(** [p.parent]: the root and the empty relative path are their own parent. *)
Definition parent (p : Path) : Path :=
  {| anchored := anchored p; parts := removelast (parts p) |}.

(** ** [os]: a file system tree *)

Inductive node :=
| File (data : list byte)
| Dir (children : gmap string node).

Record filesystem := { cwd : list string; root : node }.

(** The argument of an [os] call: [None], a [str], or a [Path] object. *)
Inductive pathlike :=
| PNone
| PStr (s : string)
| PPath (p : Path).

(** The components of [q] from the root, for the working directory [cwd]. *)
Definition absolute (cwd : list string) (q : Path) : list string :=
  if anchored q then parts q else cwd ++ parts q.

(** The components from the root that the operating system resolves an
    argument to.  [None] is a [TypeError]; the empty string names nothing. *)
Definition locate (f : filesystem) (p : pathlike) : result (option (list string)) :=
  match p with
  | PNone => Raise TypeError
  | PStr EmptyString => Ok None
  | PStr s => Ok (Some (absolute (cwd f) (mkPath s)))
  | PPath q => Ok (Some (absolute (cwd f) q))
  end.

Fixpoint walk (n : node) (p : list string) : option node :=
  match p with
  | [] => Some n
  | c :: p' =>
      match n with
      | Dir m => match m !! c with Some n' => walk n' p' | None => None end
      | File _ => None
      end
  end.

(** [os.stat]: the node an argument names, if any. *)
Definition stat (f : filesystem) (p : pathlike) : result (option node) :=
  match locate f p with
  | Raise e => Raise e
  | Ok None => Ok None
  | Ok (Some q) => Ok (walk (root f) q)
  end.

(** [os.path.exists(p)]: true for files and directories alike; a [None]
    argument is a [TypeError], which [os.path.exists] does not catch. *)
Definition os_path_exists (f : filesystem) (p : pathlike) : result bool :=
  match stat f p with
  | Raise e => Raise e
  | Ok o => Ok (bool_decide (is_Some o))
  end.

(** A chain of fresh directories [c1/c2/...] ending in an empty one. *)
Fixpoint fresh_dirs (p : list string) : node :=
  match p with
  | [] => Dir ∅
  | c :: p' => Dir {[ c := fresh_dirs p' ]}
  end.

(** [os.makedirs] below node [n]: missing directories are created, a file on
    the way is an error, and so is a leaf that exists already.  A ['..'] is
    a name like any other here, as said at the top; the real call resolves
    it. *)
Fixpoint makedirs_at (n : node) (p : list string) : result node :=
  match p with
  | [] => Raise FileExistsError
  | c :: p' =>
      match n with
      | File _ => Raise NotADirectoryError
      | Dir m =>
          match m !! c with
          | None => Ok (Dir (<[c := fresh_dirs p']> m))
          | Some n' =>
              match makedirs_at n' p' with
              | Ok n'' => Ok (Dir (<[c := n'']> m))
              | Raise e => Raise e
              end
          end
      end
  end.

(** [open(p, 'w')] or [open(p, 'wb')] followed by writing [data]: the file is
    created or replaced; its directory has to exist. *)
Fixpoint write_at (n : node) (p : list string) (data : list byte) : result node :=
  match n, p with
  | _, [] => Raise IsADirectoryError
  | File _, _ => Raise NotADirectoryError
  | Dir m, [c] =>
      match m !! c with
      | Some (Dir _) => Raise IsADirectoryError
      | _ => Ok (Dir (<[c := File data]> m))
      end
  | Dir m, c :: p' =>
      match m !! c with
      | None => Raise FileNotFoundError
      | Some n' =>
          match write_at n' p' data with
          | Ok n'' => Ok (Dir (<[c := n'']> m))
          | Raise e => Raise e
          end
      end
  end.

Definition update_root (f : filesystem) (op : node -> list string -> result node)
    (p : pathlike) : result filesystem :=
  match locate f p with
  | Raise e => Raise e
  | Ok None => Raise FileNotFoundError
  | Ok (Some q) =>
      match op (root f) q with
      | Ok n => Ok {| cwd := cwd f; root := n |}
      | Raise e => Raise e
      end
  end.

Definition os_makedirs (f : filesystem) (p : pathlike) : result filesystem :=
  update_root f makedirs_at p.

Definition write_file (f : filesystem) (p : pathlike) (data : list byte)
  : result filesystem :=
  update_root f (fun n q => write_at n q data) p.

(** Why the components [p] below [n] name nothing: a name is missing
    ([ENOENT], [FileNotFoundError]), or a regular file is on the way
    ([ENOTDIR], [NotADirectoryError]). *)
Fixpoint walk_error (n : node) (p : list string) : exn :=
  match p with
  | [] => FileNotFoundError
  | c :: p' =>
      match n with
      | File _ => NotADirectoryError
      | Dir m =>
          match m !! c with
          | Some n' => walk_error n' p'
          | None => FileNotFoundError
          end
      end
  end.

(** [open(p)] or [open(p, 'rb')] followed by reading everything.  The empty
    string names nothing; a path that names nothing raises the error of
    [walk_error]; a directory cannot be read. *)
Definition read_file (f : filesystem) (p : pathlike) : result (list byte) :=
  match locate f p with
  | Raise e => Raise e
  | Ok None => Raise FileNotFoundError
  | Ok (Some q) =>
      match walk (root f) q with
      | None => Raise (walk_error (root f) q)
      | Some (Dir _) => Raise IsADirectoryError
      | Some (File data) => Ok data
      end
  end.

(** ** The state the script runs in *)

(** A submitted download: [sharing_get_shared_link_file_to_file(target, link, remote)]. *)
Record task := { t_target : Path; t_link : string; t_remote : string }.

(** A future of the pool: its task and, once the task has run, its result. *)
Abbreviation future := (task * option (result unit))%type.

(** What the main thread does, in order: the two listing requests with the
    error they raised, if any; [os.makedirs]; a call of [db_content_hash];
    [pool.submit]; [future.result()] on the [i]-th future. *)
Inductive event :=
| EvListFolder (path : string) (err : option exn)
| EvListContinue (err : option exn)
| EvMakedirs (p : Path)
| EvHash (p : Path)
| EvSubmit (t : task)
| EvResult (i : nat).

Record world := { fs : filesystem; log : list event; pool : list future }.

(** A computation changes the world and returns or raises; [None] is a loop
    that was given too little fuel. *)
Definition M (A : Type) : Type := world -> option (result A * world).

Definition ret {A} (a : A) : M A := fun w => Some (Ok a, w).
Definition raise {A} (e : exn) : M A := fun w => Some (Raise e, w).
Definition out_of_fuel {A} : M A := fun _ => None.

Definition bind {A B} (m : M A) (k : A -> M B) : M B :=
  fun w =>
    match m w with
    | None => None
    | Some (Raise e, w') => Some (Raise e, w')
    | Some (Ok a, w') => k a w'
    end.

Declare Scope py_scope.
Delimit Scope py_scope with py.
Notation "x <- m ;; k" := (bind m (fun x => k))
  (at level 100, m at next level, right associativity) : py_scope.
Notation "m ;;; k" := (bind m (fun _ => k))
  (at level 100, right associativity) : py_scope.
Open Scope py_scope.

(** A library call on the file system that does not change it. *)
Definition ask {A} (q : filesystem -> result A) : M A :=
  fun w => Some (q (fs w), w).

(** A library call that changes the file system, or raises and leaves it. *)
Definition change (op : filesystem -> result filesystem) : M unit :=
  fun w =>
    match op (fs w) with
    | Ok f => Some (Ok tt, {| fs := f; log := log w; pool := pool w |})
    | Raise e => Some (Raise e, w)
    end.

Definition emit (e : event) : M unit :=
  fun w => Some (Ok tt, {| fs := fs w; log := log w ++ [e]; pool := pool w |}).

Definition lift {A} (r : result A) : M A := fun w => Some (r, w).

(** ** [db_content_hash] *)

Definition CHUNK_SIZE : N := 4 * 1024 * 1024.

(** [fd.read(n)] on a file object whose unread bytes are [fd]: the bytes
    read and the bytes left. *)
Fixpoint fd_read (n : N) (fd : list byte) : list byte * list byte :=
  match fd with
  | [] => ([], [])
  | b :: fd' =>
      if (n =? 0)%N then ([], fd)
      else let '(chunk, rest) := fd_read (N.pred n) fd' in (b :: chunk, rest)
  end.

(** [while(chunk := fd.read(CHUNK_SIZE)): chunk_hashes += sha256(chunk).digest()] *)
Fixpoint hash_chunks (fuel : nat) (fd chunk_hashes : list byte) : option (list byte) :=
  match fuel with
  | O => None
  | S fuel' =>
      match fd_read CHUNK_SIZE fd with
      | ([], _) => Some chunk_hashes
      | (chunk, fd') => hash_chunks fuel' fd' (chunk_hashes ++ SHA256.sha256 chunk)
      end
  end.

(** The loop reads at least one byte per round, so one round per byte and
    the final empty read are fuel enough. *)
Definition content_hash (data : list byte) : option string :=
  match hash_chunks (S (length data)) data [] with
  | Some chunk_hashes => Some (SHA256.hex (SHA256.sha256 chunk_hashes))
  | None => None
  end.

Definition db_content_hash (file : pathlike) : M string :=
  data <- ask (fun f => read_file f file) ;;
  match content_hash data with
  | Some h => ret h
  | None => out_of_fuel
  end.

(** The content hash in the words of its description: the file cut into
    blocks of [n] bytes, the last one shorter when the size is no multiple of
    [n], and none at all for an empty file. *)
Definition fixed_chunks (n : nat) (data : list byte) : list (list byte) :=
  map (fun i => take n (drop (i * n) data)) (seq 0 ((length data + n - 1) / n)).

Definition chunked_sha256_hex (n : nat) (data : list byte) : string :=
  SHA256.hex (SHA256.sha256 (concat (map SHA256.sha256 (fixed_chunks n data)))).

(** ** [json]: documents and the library's two functions *)

Inductive json :=
| JNull
| JInt (z : Z)
| JStr (s : string)
| JArr (items : list json)
| JObj (members : list (string * json)).

(** [json.dump] and [json.load], as the text written and the document read. *)
Record json_codec := {
  json_dump : json -> list byte;
  json_load : list byte -> option json
}.

(** [doc[key]] on a loaded document: the last member of that name of an
    object, [KeyError] without one, [TypeError] on anything else. *)
Definition subscript (doc : json) (key : string) : result json :=
  match doc with
  | JObj members =>
      match List.find (fun kv => String.eqb (fst kv) key) (rev members) with
      | Some kv => Ok (snd kv)
      | None => Raise KeyError
      end
  | _ => Raise TypeError
  end.

(** The tuple [(path, name, content_hash, size)] as [json.dump] encodes it. *)
Definition entry_json (e : entry) : json :=
  let '(path, name, content_hash, size) := e in
  JArr [JStr path; JStr name; JStr content_hash; JInt size].

(** [{'shared_link': link_root, 'file_list': all_files}] *)
Definition filelist_json (link_root : string) (all_files : list entry) : json :=
  JObj [("shared_link", JStr link_root); ("file_list", JArr (map entry_json all_files))].

(** A loaded four-element list read back as [(path, name, content_hash, size)]. *)
Definition json_entry (j : json) : option entry :=
  match j with
  | JArr [JStr path; JStr name; JStr content_hash; JInt size] =>
      Some (path, name, content_hash, size)
  | _ => None
  end.

Fixpoint json_entries (items : list json) : option (list entry) :=
  match items with
  | [] => Some []
  | j :: items' =>
      match json_entry j, json_entries items' with
      | Some e, Some es => Some (e :: es)
      | _, _ => None
      end
  end.

(** The value of ['file_list'] as the rest of the script uses it.  The script
    unpacks the elements only later; the model reads file lists of the shape
    the script writes and raises [ValueError] on any other. *)
Definition loaded_file_list (j : json) : result (list entry) :=
  match j with
  | JArr items =>
      match json_entries items with
      | Some es => Ok es
      | None => Raise ValueError
      end
  | _ => Raise ValueError
  end.

(** ** The Dropbox SDK *)

Inductive metadata :=
| FileMetadata (name content_hash : string) (size : Z)
| FolderMetadata (name : string)
| DeletedMetadata (name : string).

Record ListFolderResult (C : Type) := {
  entries : list metadata;
  cursor : C;
  has_more : bool
}.
Arguments entries {C} _.
Arguments cursor {C} _.
Arguments has_more {C} _.

(** A connected client [dropbox.Dropbox(api_token)], with cursors of type [C]:
    [files_list_folder(path, shared_link)], [files_list_folder_continue(cursor)]
    and the request of [sharing_get_shared_link_file_to_file(_, url, path)],
    which yields the body that is then written to the download path. *)
Record Dropbox (C : Type) := {
  files_list_folder : string -> string -> result (ListFolderResult C);
  files_list_folder_continue : C -> result (ListFolderResult C);
  sharing_get_shared_link_file : string -> string -> result (list byte)
}.
Arguments files_list_folder {C} _ _ _.
Arguments files_list_folder_continue {C} _ _.
Arguments sharing_get_shared_link_file {C} _ _ _.

Definition error_of {A} (r : result A) : option exn :=
  match r with Ok _ => None | Raise e => Some e end.

(** A listing request: its result, logged with the error it raised. *)
Definition request {A} (ev : option exn -> event) (r : result A) : M A :=
  emit (ev (error_of r)) ;;; lift r.

(** ** [get_file_list_recursive] *)

(** [path_worklist.pop()]: the last element and the list without it. *)
Definition pop {A} (l : list A) : option (list A * A) :=
  match rev l with
  | [] => None
  | x :: r => Some (rev r, x)
  end.

(** [while res.has_more: res = ...continue(res.cursor); entries.extend(res.entries)] *)
Fixpoint list_more {C} (fuel : nat) (dbx : Dropbox C) (res : ListFolderResult C)
    (entries_ : list metadata) : M (list metadata) :=
  if has_more res then
    match fuel with
    | O => out_of_fuel
    | S fuel' =>
        res' <- request EvListContinue (files_list_folder_continue dbx (cursor res)) ;;
        list_more fuel' dbx res' (entries_ ++ entries res')
    end
  else ret entries_.

(** One round of [for entry in entries] on the worklist and the file list. *)
Definition classify (path : string) (st : list string * list entry) (e : metadata)
  : list string * list entry :=
  match e with
  | FolderMetadata name => (fst st ++ [slash_join path name], snd st)
  | FileMetadata name content_hash size =>
      (fst st, snd st ++ [(path, name, content_hash, size)])
  | DeletedMetadata _ => st
  end.

(** [while not len(path_worklist) < 1: ...]; returns the worklist and the
    file list the loop ends with. *)
Fixpoint traverse {C} (fuel : nat) (dbx : Dropbox C) (link : string)
    (path_worklist : list string) (all_files : list entry)
  : M (list string * list entry) :=
  match pop path_worklist with
  | None => ret (path_worklist, all_files)
  | Some (path_worklist', path) =>
      match fuel with
      | O => out_of_fuel
      | S fuel' =>
          res <- request (EvListFolder path) (files_list_folder dbx path link) ;;
          entries_ <- list_more fuel' dbx res (entries res) ;;
          let st := fold_left (classify path) entries_ (path_worklist', all_files) in
          traverse fuel' dbx link (fst st) (snd st)
      end
  end.

Definition location (file_list_location : option string) : pathlike :=
  match file_list_location with
  | None => PNone
  | Some s => PStr s
  end.

Definition get_file_list_recursive {C} (fuel : nat) (codec : json_codec)
    (dbx : Dropbox C) (link_root : string) (file_list_location : option string)
  : M (list entry) :=
  saved <- ask (fun f => os_path_exists f (location file_list_location)) ;;
  if saved : bool then
    text <- ask (fun f => read_file f (location file_list_location)) ;;
    match json_load codec text with
    | None => raise JSONDecodeError
    | Some doc =>
        file_list <- lift (subscript doc "file_list") ;;
        lift (loaded_file_list file_list)
    end
  else
    st <- traverse fuel dbx link_root [EmptyString] [] ;;
    let all_files := snd st in
    match file_list_location with
    | Some p =>
        change (fun f => write_file f (PStr p)
                           (json_dump codec (filelist_json link_root all_files))) ;;;
        ret all_files
    | None => ret all_files
    end.

(** ** [ThreadPoolExecutor]: the pool and its futures *)

(** The worker threads run while the main thread goes on.  A transfer is
    taken as one step; [sched k] lists the futures whose tasks finish just
    before step [k] of the main thread.  Every statement about the scheduler
    is for every such schedule. *)
Definition schedule := nat -> list nat.

(** What a worker does with a task: the request, then the body written to
    the download path.  A failed request leaves the file system alone. *)
Definition run_task {C} (dbx : Dropbox C) (t : task) (f : filesystem)
  : result unit * filesystem :=
  match sharing_get_shared_link_file dbx (t_link t) (t_remote t) with
  | Raise e => (Raise e, f)
  | Ok body =>
      match write_file f (PPath (t_target t)) body with
      | Ok f' => (Ok tt, f')
      | Raise e => (Raise e, f)
      end
  end.

(** The [i]-th future's task runs, unless it has run already. *)
Definition complete {C} (dbx : Dropbox C) (w : world) (i : nat) : world :=
  match pool w !! i with
  | Some (t, None) =>
      let '(r, f) := run_task dbx t (fs w) in
      {| fs := f; log := log w; pool := <[i := (t, Some r)]> (pool w) |}
  | _ => w
  end.

Definition workers {C} (dbx : Dropbox C) (finishing : list nat) : M unit :=
  fun w => Some (Ok tt, fold_left (complete dbx) finishing w).

(** [pool.submit(...)]: a new future at the end of the pool. *)
Definition submit (t : task) : M unit :=
  fun w => Some (Ok tt, {| fs := fs w; log := log w ++ [EvSubmit t];
                           pool := pool w ++ [(t, None)] |}).

(** [future.result()] waits for the task to have run, then returns its value
    or raises its exception.  The loop that calls it runs over the futures of
    the pool, so the last case is never reached. *)
Definition future_result {C} (dbx : Dropbox C) (i : nat) : M unit :=
  workers dbx [i] ;;;
  emit (EvResult i) ;;;
  fun w =>
    match pool w !! i with
    | Some (_, Some r) => Some (r, w)
    | _ => Some (Raise KeyError, w)
    end.

(** Leaving [with ThreadPoolExecutor(...) as pool] waits for every submitted
    task, also when an exception is on its way out. *)
Definition shutdown {C} (dbx : Dropbox C) (finishing : list nat) (w : world) : world :=
  fold_left (complete dbx) (finishing ++ seq 0 (length (pool w))) w.

(** ** [download_file_list] *)

(** [Path(target_dir) / Path(path.strip('/')) / Path(name)] *)
Definition target_path (target_dir path name : string) : Path :=
  joinpath (joinpath (mkPath target_dir) (mkPath (strip_slash path))) (mkPath name).

(** The call [pool.submit] makes for an entry:
    [sharing_get_shared_link_file_to_file(str(target_file), link_root, '/'.join([path, name]))] *)
Definition task_of (target_dir link_root : string) (e : entry) : task :=
  let '(path, name, _, _) := e in
  {| t_target := target_path target_dir path name; t_link := link_root;
     t_remote := slash_join path name |}.

(** The body of [for path, name, content_hash, _ in files_to_download]. *)
Definition plan_entry (target_dir link_root : string) (e : entry) : M unit :=
  let '(path, name, content_hash, _) := e in
  let target_file := target_path target_dir path name in
  there <- ask (fun f => os_path_exists f (PPath (parent target_file))) ;;
  (if there : bool then ret tt
   else emit (EvMakedirs (parent target_file)) ;;;
        change (fun f => os_makedirs f (PPath (parent target_file)))) ;;;
  present <- ask (fun f => os_path_exists f (PPath target_file)) ;;
  have <- (if present : bool
           then emit (EvHash target_file) ;;;
                h <- db_content_hash (PPath target_file) ;;
                ret (String.eqb h content_hash)
           else ret false) ;;
  if have : bool then ret tt
  else submit (task_of target_dir link_root e).

(** The first loop, from main-thread step [k] on. *)
Fixpoint plan_loop {C} (sched : schedule) (dbx : Dropbox C)
    (target_dir link_root : string) (k : nat) (files : list entry) : M unit :=
  match files with
  | [] => ret tt
  | e :: files' =>
      workers dbx (sched k) ;;;
      plan_entry target_dir link_root e ;;;
      plan_loop sched dbx target_dir link_root (S k) files'
  end.

(** [for future in futures: future.result()], on the futures numbered [futures]. *)
Fixpoint join_loop {C} (sched : schedule) (dbx : Dropbox C) (k : nat) (futures : list nat)
  : M unit :=
  match futures with
  | [] => ret tt
  | i :: futures' =>
      workers dbx (sched k) ;;;
      future_result dbx i ;;;
      join_loop sched dbx (S k) futures'
  end.

Definition download_file_list {C} (sched : schedule) (dbx : Dropbox C)
    (files_to_download : list entry) (target_dir link_root : string) (n_parallel : Z)
  : M unit :=
  fun w =>
    if (n_parallel <=? 0)%Z then Some (Raise ValueError, w)
    else
      let n := length files_to_download in
      let body :=
        plan_loop sched dbx target_dir link_root 0 files_to_download ;;;
        (fun w' => join_loop sched dbx n (seq 0 (length (pool w'))) w') in
      match body {| fs := fs w; log := log w; pool := [] |} with
      | None => None
      | Some (r, w') =>
          Some (r, shutdown dbx (sched (n + length (pool w'))) w')
      end.

(** ** [__main__] *)

Record arguments := {
  shared_link : string;
  target_dir : string;
  api_token_file : string;
  file_list_location : option string;
  n_parallel : Z;
  max_num_files : option Z
}.

(** [l[:n]]: a negative [n] counts from the end. *)
Definition slice_to {A} (n : Z) (l : list A) : list A :=
  if (0 <=? n)%Z then firstn (Z.to_nat n) l
  else firstn (length l - Z.to_nat (- n)) l.

(** [reduce(add, l)] without an initial value. *)
Definition reduce_add (l : list Z) : result Z :=
  match l with
  | [] => Raise TypeError
  | x :: l' => Ok (fold_left Z.add l' x)
  end.

Definition size_of (e : entry) : Z := snd e.

Definition main {C} (fuel : nat) (sched : schedule) (codec : json_codec)
    (connect : json -> Dropbox C) (args : arguments) : M unit :=
  found <- ask (fun f => os_path_exists f (PStr (api_token_file args))) ;;
  if negb found then raise SystemExit
  else
    text <- ask (fun f => read_file f (PStr (api_token_file args))) ;;
    match json_load codec text with
    | None => raise JSONDecodeError
    | Some doc =>
        api_token <- lift (subscript doc "api_token") ;;
        all_files <- get_file_list_recursive fuel codec (connect api_token)
                       (shared_link args) (file_list_location args) ;;
        let files_to_download :=
          match max_num_files args with
          | Some n => slice_to n all_files
          | None => all_files
          end in
        _ <- lift (reduce_add (map size_of files_to_download)) ;;
        download_file_list sched (connect api_token) files_to_download
          (target_dir args) (shared_link args) (n_parallel args)
    end.

(** ** A remote tree behind the listing requests *)

Inductive rnode :=
| RFile (name content_hash : string) (size : Z)
| RFolder (name : string) (children : list rnode)
| RDeleted (name : string).

Definition metadata_of (n : rnode) : metadata :=
  match n with
  | RFile name content_hash size => FileMetadata name content_hash size
  | RFolder name _ => FolderMetadata name
  | RDeleted name => DeletedMetadata name
  end.

(** The folders at and below [n], a child of the folder [path], each with
    its full path and its children. *)
Fixpoint folders (path : string) (n : rnode) : list (string * list rnode) :=
  match n with
  | RFolder name children =>
      (slash_join path name, children)
        :: flat_map (folders (slash_join path name)) children
  | _ => []
  end.

(** Every folder of the shared link whose root has the children [top]. *)
Definition folder_table (top : list rnode) : list (string * list rnode) :=
  (EmptyString, top) :: flat_map (folders EmptyString) top.

(** The files at and below [n], a child of the folder [path], each as the
    entry [(parent path, name, content hash, size)]. *)
Fixpoint files_under (path : string) (n : rnode) : list entry :=
  match n with
  | RFile name content_hash size => [(path, name, content_hash, size)]
  | RFolder name children => flat_map (files_under (slash_join path name)) children
  | RDeleted _ => []
  end.

Definition remote_files (top : list rnode) : list entry :=
  flat_map (files_under EmptyString) top.

Fixpoint assoc {A} (k : string) (l : list (string * A)) : option A :=
  match l with
  | [] => None
  | (k', v) :: l' => if String.eqb k k' then Some v else assoc k l'
  end.

(** A page of a listing; the cursor is the pages still to come. *)
Definition page (pages : list (list metadata)) : ListFolderResult (list (list metadata)) :=
  match pages with
  | [] => {| entries := []; cursor := []; has_more := false |}
  | pg :: rest =>
      {| entries := pg; cursor := rest;
         has_more := match rest with [] => false | _ => true end |}
  end.

(** A server for the tree [top].  [paginate path l] cuts the listing [l] of
    folder [path] into pages; [body] answers the download requests. *)
Definition tree_server (paginate : string -> list metadata -> list (list metadata))
    (body : string -> string -> result (list byte)) (top : list rnode)
  : Dropbox (list (list metadata)) :=
  {| files_list_folder path _ :=
       match assoc path (folder_table top) with
       | Some children => Ok (page (paginate path (map metadata_of children)))
       | None => Raise (ApiError "path/not_found")
       end;
     files_list_folder_continue c :=
       match c with
       | [] => Raise (ApiError "reset")
       | _ => Ok (page c)
       end;
     sharing_get_shared_link_file := body |}.

(** ** A JSON text codec, to run the script on concrete inputs *)

Module JsonText.

Definition dquote : ascii := ascii_of_N 34.

Fixpoint print_chars (s : string) : string :=
  match s with
  | EmptyString => EmptyString
  | String c s' =>
      if Ascii.eqb c dquote || Ascii.eqb c "\" then String "\" (String c (print_chars s'))
      else String c (print_chars s')
  end.

Definition digit (n : N) : ascii := ascii_of_N (48 + n).

Fixpoint print_digits (fuel : nat) (n : N) (acc : string) : string :=
  match fuel with
  | O => acc
  | S fuel' =>
      let acc' := String (digit (n mod 10)) acc in
      if (n <? 10)%N then acc' else print_digits fuel' (n / 10) acc'
  end.

Definition print_int (z : Z) : string :=
  let n := Z.to_N (Z.abs z) in
  let d := print_digits (S (N.to_nat (N.log2 n))) n EmptyString in
  if (z <? 0)%Z then String "-" d else d.

Definition print_str (s : string) : string :=
  String dquote (print_chars s +:+ String dquote EmptyString).

Fixpoint print (j : json) : string :=
  match j with
  | JNull => "null"
  | JInt z => print_int z
  | JStr s => print_str s
  | JArr items =>
      "[" +:+
      (fix go (l : list json) : string :=
         match l with
         | [] => EmptyString
         | [x] => print x
         | x :: l' => print x +:+ "," +:+ go l'
         end) items +:+ "]"
  | JObj members =>
      "{" +:+
      (fix go (l : list (string * json)) : string :=
         match l with
         | [] => EmptyString
         | [(k, x)] => print_str k +:+ ":" +:+ print x
         | (k, x) :: l' => print_str k +:+ ":" +:+ print x +:+ "," +:+ go l'
         end) members +:+ "}"
  end.

Fixpoint parse_chars (s : string) (acc : string) : option (string * string) :=
  match s with
  | EmptyString => None
  | String c s' =>
      if Ascii.eqb c dquote then Some (acc, s')
      else if Ascii.eqb c "\" then
        match s' with
        | String c' s'' => parse_chars s'' (acc +:+ String c' EmptyString)
        | EmptyString => None
        end
      else parse_chars s' (acc +:+ String c EmptyString)
  end.

Definition is_digit (c : ascii) : bool :=
  let n := N_of_ascii c in (48 <=? n)%N && (n <=? 57)%N.

Fixpoint parse_digits (s : string) (acc : N) : N * string :=
  match s with
  | String c s' =>
      if is_digit c then parse_digits s' (10 * acc + (N_of_ascii c - 48))%N
      else (acc, s)
  | EmptyString => (acc, s)
  end.

Fixpoint parse (fuel : nat) (s : string) : option (json * string) :=
  match fuel with
  | O => None
  | S n =>
      match s with
      | String "n" (String "u" (String "l" (String "l" r))) => Some (JNull, r)
      | String "-" r =>
          let '(m, r') := parse_digits r 0%N in Some (JInt (- Z.of_N m), r')
      | String "[" (String "]" r) => Some (JArr [], r)
      | String "[" r =>
          match
            (fix go (k : nat) (r : string) : option (list json * string) :=
               match k with
               | O => None
               | S k' =>
                   match parse n r with
                   | Some (v, String "," r') =>
                       match go k' r' with
                       | Some (vs, r'') => Some (v :: vs, r'')
                       | None => None
                       end
                   | Some (v, String "]" r') => Some ([v], r')
                   | _ => None
                   end
               end) n r
          with
          | Some (vs, r') => Some (JArr vs, r')
          | None => None
          end
      | String "{" (String "}" r) => Some (JObj [], r)
      | String "{" r =>
          match
            (fix go (k : nat) (r : string) : option (list (string * json) * string) :=
               match k with
               | O => None
               | S k' =>
                   match parse n r with
                   | Some (JStr key, String ":" r') =>
                       match parse n r' with
                       | Some (v, String "," r'') =>
                           match go k' r'' with
                           | Some (kvs, r3) => Some ((key, v) :: kvs, r3)
                           | None => None
                           end
                       | Some (v, String "}" r'') => Some ([(key, v)], r'')
                       | _ => None
                       end
                   | _ => None
                   end
               end) n r
          with
          | Some (kvs, r') => Some (JObj kvs, r')
          | None => None
          end
      | String c r =>
          if Ascii.eqb c dquote then
            match parse_chars r EmptyString with
            | Some (str, r') => Some (JStr str, r')
            | None => None
            end
          else if is_digit c then
            let '(m, r') := parse_digits s 0%N in Some (JInt (Z.of_N m), r')
          else None
      | EmptyString => None
      end
  end.

Definition string_of_bytes (bs : list byte) : string :=
  string_of_list_ascii (map ascii_of_byte bs).

Definition codec : json_codec :=
  {| json_dump j := SHA256.bytes_of_string (print j);
     json_load bs :=
       let s := string_of_bytes bs in
       match parse (S (String.length s)) s with
       | Some (j, EmptyString) => Some j
       | _ => None
       end |}.

End JsonText.

(** ** Notions the statements use *)

(** The error a listing request raised, on the events that are listing requests. *)
Definition failed (ev : event) : option exn :=
  match ev with
  | EvListFolder _ err => err
  | EvListContinue err => err
  | _ => None
  end.

(** The events [new] of a computation with result [r]: a listing request that
    failed is the last event, and its error is what the computation raises. *)
Definition aborts_on_failure {A} (r : result A) (new : list event) : Prop :=
  forall ev e, In ev new -> failed ev = Some e ->
    r = Raise e /\ exists pre, new = pre ++ [ev].

(** A computation that only lists: it leaves the file system and the pool
    alone, and it aborts on the first failed request. *)
Definition only_lists {A} (m : M A) : Prop :=
  forall w r w', m w = Some (r, w') ->
    fs w' = fs w /\ pool w' = pool w /\
    exists new, log w' = log w ++ new /\ aborts_on_failure r new.

(** A client whose first page of the root announces more and whose
    continuation request fails. *)
Definition broken_continuation : Dropbox unit :=
  {| files_list_folder _ _ :=
       Ok {| entries := [FileMetadata "a.txt" "h" 10]; cursor := tt; has_more := true |};
     files_list_folder_continue _ := Raise (ApiError "too_many_requests");
     sharing_get_shared_link_file _ _ := Raise (ApiError "not_found") |}.

(** The bytes of the file at [p], when [p] names a file. *)
Definition file_at (f : filesystem) (p : Path) : option (list byte) :=
  match walk (root f) (absolute (cwd f) p) with
  | Some (File data) => Some data
  | _ => None
  end.

(** The entry's target is a file whose content hash is the entry's hash. *)
Definition up_to_date (f : filesystem) (target_dir : string) (e : entry) : bool :=
  let '(path, name, content_hash_, _) := e in
  match file_at f (target_path target_dir path name) with
  | Some data =>
      match content_hash data with
      | Some h => String.eqb h content_hash_
      | None => false
      end
  | None => false
  end.

(** The first exception among the results of the futures, in submission order. *)
Fixpoint first_error (futures : list future) : result unit :=
  match futures with
  | [] => Ok tt
  | (_, Some (Raise e)) :: _ => Raise e
  | _ :: futures' => first_error futures'
  end.

(** The futures joined before the first failure, that one included. *)
Fixpoint joined (futures : list future) : nat :=
  match futures with
  | [] => 0
  | (_, Some (Raise e)) :: _ => 1
  | _ :: futures' => S (joined futures')
  end.

Definition is_planning (ev : event) : bool :=
  match ev with
  | EvMakedirs _ | EvHash _ => true
  | _ => false
  end.

Definition is_submit (ev : event) : bool :=
  match ev with
  | EvSubmit _ => true
  | _ => false
  end.

Definition is_result (ev : event) : bool :=
  match ev with
  | EvResult _ => true
  | _ => false
  end.

(** No directory is made and no hash is compared after a task was submitted. *)
Fixpoint planning_before_dispatch (evs : list event) : bool :=
  match evs with
  | [] => true
  | ev :: evs' =>
      (if is_submit ev then forallb (fun ev' => negb (is_planning ev')) evs' else true)
      && planning_before_dispatch evs'
  end.

(** The events of the planning of one entry: at most one [os.makedirs], then
    at most one hash comparison, then at most one [pool.submit]. *)
Definition entry_block (target_dir link_root : string) (e : entry) (blk : list event) : Prop :=
  let t := t_target (task_of target_dir link_root e) in
  exists mk hs sb,
    blk = mk ++ hs ++ sb
    /\ (mk = [] \/ mk = [EvMakedirs (parent t)])
    /\ (hs = [] \/ hs = [EvHash t])
    /\ (sb = [] \/ sb = [EvSubmit (task_of target_dir link_root e)]).

(** From [w] to [w'] the pool has the same tasks, and a task that had run
    keeps its result. *)
Definition pool_extends (w w' : world) : Prop :=
  fst <$> pool w' = fst <$> pool w
  /\ forall j t r, pool w !! j = Some (t, Some r) -> pool w' !! j = Some (t, Some r).

Definition done (fu : future) : Prop := is_Some (snd fu).

(** The planning of an entry as one might expect it: it returns, with no
    task enqueued for an entry that is up to date and one task otherwise. *)
Definition enqueues_unless_up_to_date (target_dir link_root : string) (e : entry)
    (w : world) : Prop :=
  exists w',
    plan_entry target_dir link_root e w = Some (Ok tt, w')
    /\ pool w' = pool w ++ (if up_to_date (fs w) target_dir e then []
                            else [(task_of target_dir link_root e, None)]).

(** The two phases as one might expect them: in the events of a run, all
    directory making and hash comparing comes before the first submit. *)
Definition plans_before_any_dispatch {C} (sched : schedule) (dbx : Dropbox C)
    (files : list entry) (target_dir link_root : string) (n_parallel : Z) (w : world)
  : Prop :=
  forall r w',
    download_file_list sched dbx files target_dir link_root n_parallel w = Some (r, w') ->
    planning_before_dispatch (drop (length (log w)) (log w')) = true.

(** From [w] to [w']: every entry of [files] that was up to date still is. *)
Definition stays_up_to_date (target_dir : string) (files : list entry) (w w' : world)
  : Prop :=
  forall e, In e files -> up_to_date (fs w) target_dir e = true ->
            up_to_date (fs w') target_dir e = true.

(** The pool of [w] holds the tasks of the entries [enq], in order, and the
    target of a task that ran without error is up to date. *)
Definition pool_tracks (target_dir link_root : string) (files : list entry)
    (here : list string) (w : world) (enq : list entry) : Prop :=
  cwd (fs w) = here
  /\ fst <$> pool w = task_of target_dir link_root <$> enq
  /\ (forall e, In e enq -> In e files)
  /\ forall i e t, enq !! i = Some e -> pool w !! i = Some (t, Some (Ok tt)) ->
                   up_to_date (fs w) target_dir e = true.

(** The world [w] after the main thread has done [evs] and nothing else. *)
Definition logged (w : world) (evs : list event) : world :=
  {| fs := fs w; log := log w ++ evs; pool := pool w |}.

(** The folder paths that were listed, in the order of the requests. *)
Definition listed (evs : list event) : list string :=
  flat_map (fun ev => match ev with EvListFolder p _ => [p] | _ => [] end) evs.

(** The child folders of the folder [path], each with its full path. *)
Definition subfolders (path : string) (children : list rnode) : list (string * list rnode) :=
  flat_map (fun n => match n with
                     | RFolder name cs => [(slash_join path name, cs)]
                     | _ => []
                     end) children.

(** The files directly in the folder [path]. *)
Definition files_here (path : string) (children : list rnode) : list entry :=
  flat_map (fun n => match n with
                     | RFile name h size => [(path, name, h, size)]
                     | _ => []
                     end) children.

(** A folder still to list, as its path and children: the folders at and
    below it, and the files below it. *)
Definition item_folders (it : string * list rnode) : list (string * list rnode) :=
  it :: flat_map (folders (fst it)) (snd it).

Definition item_files (it : string * list rnode) : list entry :=
  flat_map (files_under (fst it)) (snd it).

(** The largest number of pages a folder of the tree is listed in. *)
Definition most_pages (paginate : string -> list metadata -> list (list metadata))
    (top : list rnode) : nat :=
  foldr Nat.max 0
    (map (fun it => length (paginate (fst it) (map metadata_of (snd it))))
         (folder_table top)).

(** A sample: a remote tree, a server that lists it one entry on the first
    page and the rest on the second, and a home directory with credentials. *)
Module Sample.

Definition top : list rnode :=
  [ RFile "a.txt" "H1" 10;
    RFolder "sub" [RFile "b.txt" "H2" 20; RFolder "deep" [RFile "c" "H3" 1];
                   RFolder "empty" []];
    RDeleted "gone";
    RFile "z" "H4" 0 ].

Definition two_pages (path : string) (l : list metadata) : list (list metadata) :=
  [take 1 l; drop 1 l].

Definition body (link path : string) : result (list byte) :=
  if String.eqb path "/sub/b.txt" then Raise (ApiError "not_found")
  else Ok (SHA256.bytes_of_string path).

Definition server : Dropbox (list (list metadata)) := tree_server two_pages body top.

Definition home : filesystem :=
  {| cwd := ["home"; "u"];
     root := Dir {[ "home" := Dir {[ "u" := Dir {[ "secrets.json" :=
               File (json_dump JsonText.codec (JObj [("api_token", JStr "token")])) ]} ]} ]} |}.

Definition w0 : world := {| fs := home; log := []; pool := [] |}.

Definition manifest : list entry :=
  [ (EmptyString, "a.txt", "H1", 10%Z); (EmptyString, "z", "H4", 0%Z);
    ("/sub", "b.txt", "H2", 20%Z); ("/sub/deep", "c", "H3", 1%Z) ].

(** The world after the lister has run once on [w0] with a cache path. *)
Definition world_after {A} (run : option (result A * world)) : world :=
  match run with
  | Some (_, w) => w
  | None => w0
  end.

Definition w_listed : world :=
  world_after (get_file_list_recursive 10 JsonText.codec server "LINK"
                 (Some "list.json") w0).

(** A shared link with nothing in it. *)
Definition empty_server : Dropbox (list (list metadata)) := tree_server two_pages body [].

Definition args : arguments :=
  {| shared_link := "LINK"; target_dir := "out"; api_token_file := "secrets.json";
     file_list_location := Some "list.json"; n_parallel := 1; max_num_files := None |}.

(** The manifest of the scenarios: [a.txt] at the top, [b.txt] in [sub].
    [H1] and [H2] are the content hashes of the bytes [payload] delivers. *)
Definition a_bytes : list byte := SHA256.bytes_of_string "hello".

Definition H1 : string :=
  match content_hash a_bytes with
  | Some h => h
  | None => EmptyString
  end.

Definition H2 : string :=
  match content_hash (SHA256.bytes_of_string "/sub/b.txt") with
  | Some h => h
  | None => EmptyString
  end.

Definition two_files : list entry :=
  [ (EmptyString, "a.txt", H1, 10%Z); ("/sub", "b.txt", H2, 20%Z) ].

Definition payload (link path : string) : result (list byte) :=
  if String.eqb path "/a.txt" then Ok a_bytes
  else Ok (SHA256.bytes_of_string path).

(** A server that delivers every file. *)
Definition good_server : Dropbox (list (list metadata)) := tree_server two_pages payload top.

(** A home directory in which [out/a.txt] is there already, with the bytes of [a.txt]. *)
Definition w_have : world :=
  {| fs := {| cwd := ["home"; "u"];
              root := Dir {[ "home" := Dir {[ "u" := Dir {[ "out" :=
                        Dir {[ "a.txt" := File a_bytes ]} ]} ]} ]} |};
     log := []; pool := [] |}.

(** A home directory in which [out/a.txt] is a directory. *)
Definition w_dir : world :=
  {| fs := {| cwd := ["home"; "u"];
              root := Dir {[ "home" := Dir {[ "u" := Dir {[ "out" :=
                        Dir {[ "a.txt" := Dir ∅ ]} ]} ]} ]} |};
     log := []; pool := [] |}.

(** A client whose every request fails. *)
Definition broken_transfers : Dropbox unit :=
  {| files_list_folder _ _ := Raise (ApiError "offline");
     files_list_folder_continue _ := Raise (ApiError "offline");
     sharing_get_shared_link_file _ _ := Raise (ApiError "offline") |}.

(** Two schedules: the workers run a task only when the main thread waits
    for it, or as soon as it is submitted. *)
Definition lazy : schedule := fun _ => [].
Definition eager : schedule := fun k => seq 0 k.

Definition w_listed_empty : world :=
  world_after (get_file_list_recursive 10 JsonText.codec empty_server "LINK"
                 (Some "list.json") w0).

End Sample.

(** ** Notions of the further properties *)

(** A character of a lowercase hexadecimal digest: [0-9a-f]. *)
Definition is_lower_hex (c : ascii) : bool :=
  let n := N_of_ascii c in
  ((48 <=? n)%N && (n <=? 57)%N) || ((97 <=? n)%N && (n <=? 102)%N).

(** A name of one component: no slash in it, not empty and not ['.']. *)
Definition plain_name (name : string) : bool :=
  forallb (fun c => negb (Ascii.eqb c "/")) (list_ascii_of_string name)
  && is_component name.

(** The place from the root that the task of an entry writes to. *)
Definition target_of (here : list string) (target_dir : string) (e : entry) : list string :=
  absolute here (target_path target_dir (fst (fst (fst e))) (snd (fst (fst e)))).

(** The entries of [files] that are not up to date in [f], in order. *)
Definition stale (f : filesystem) (target_dir : string) (files : list entry) : list entry :=
  List.filter (fun e => negb (up_to_date f target_dir e)) files.

(** The node at [q] is the same file, or no file, before and after. *)
Definition same_file_at (f f' : filesystem) (q : list string) : Prop :=
  forall d, walk (root f) q = Some (File d) <-> walk (root f') q = Some (File d).

(** A task that leaves the place [q] alone: it writes somewhere else, or
    its request fails. *)
Definition quiet_at {C} (dbx : Dropbox C) (here q : list string) (t : task) : Prop :=
  absolute here (t_target t) <> q
  \/ error_of (sharing_get_shared_link_file dbx (t_link t) (t_remote t)) <> None.

(** In the working directory [here], every task of the pool of [w] leaves
    the place [q] alone. *)
Definition pool_avoids {C} (dbx : Dropbox C) (here q : list string) (w : world) : Prop :=
  cwd (fs w) = here /\ Forall (quiet_at dbx here q) (fst <$> pool w).

(** Every file and folder name of the tree is a plain name. *)
Fixpoint plain_tree (n : rnode) : bool :=
  match n with
  | RFile name _ _ => plain_name name
  | RFolder name children => plain_name name && forallb plain_tree children
  | RDeleted _ => true
  end.

(** The files at and below [n], a child of the folder with the names
    [above], each as its names from the top of the shared link. *)
Fixpoint paths_under (above : list string) (n : rnode) : list (list string) :=
  match n with
  | RFile name _ _ => [above ++ [name]]
  | RFolder name children => flat_map (paths_under (above ++ [name])) children
  | RDeleted _ => []
  end.

(** The download of the remote file with the names [names] from the top:
    requested as [/n1/.../nk], written to [target_dir/n1/.../nk]. *)
Definition mirrored_task (target_dir link_root : string) (names : list string) : task :=
  {| t_target := {| anchored := anchored (mkPath target_dir);
                    parts := parts (mkPath target_dir) ++ names |};
     t_link := link_root;
     t_remote := fold_left slash_join names EmptyString |}.



(** * Properties *)

(** ** The content hash *)

(** The SHA-256 model on the test vectors of FIPS 180-4. *)
Example sha256_abc :
  SHA256.hex (SHA256.sha256 (SHA256.bytes_of_string "abc"))
  = "ba7816bf8f01cfea414140de5dae2223b00361a396177a9cb410ff61f20015ad"%string.
Proof. vm_compute. reflexivity. Qed.

Example sha256_two_blocks :
  SHA256.hex (SHA256.sha256 (SHA256.bytes_of_string
    "abcdbcdecdefdefgefghfghighijhijkijkljklmklmnlmnomnopnopq"))
  = "248d6a61d20638b8e5c026930c3e6039a33ce45964ff2167f6ecedd419db06c1"%string.
Proof. vm_compute. reflexivity. Qed.

Lemma fd_read_take_drop (n : N) (fd : list byte) :
  fd_read n fd = (take (N.to_nat n) fd, drop (N.to_nat n) fd).
Proof.
  revert n. induction fd as [|b fd IH]; intros n; simpl.
  - by rewrite take_nil, drop_nil.
  - destruct (N.eqb_spec n 0) as [->|Hn]; [done|].
    rewrite IH. replace (N.to_nat n) with (S (N.to_nat (N.pred n))) by lia.
    done.
Qed.

Lemma chunk_size_pos : 0 < N.to_nat CHUNK_SIZE.
Proof. unfold CHUNK_SIZE. lia. Qed.

Lemma fixed_chunks_nil (n : nat) : 0 < n -> fixed_chunks n [] = [].
Proof.
  intros Hn. unfold fixed_chunks.
  rewrite Nat.div_small by (simpl; lia). done.
Qed.

Lemma fixed_chunks_cons (n : nat) (data : list byte) :
  0 < n -> data <> [] ->
  fixed_chunks n data = take n data :: fixed_chunks n (drop n data).
Proof.
  intros Hn Hd. unfold fixed_chunks.
  assert (0 < length data) as Hlen by (destruct data; simpl; [done|lia]).
  assert ((length data + n - 1) / n = S ((length (drop n data) + n - 1) / n)) as ->.
  { rewrite length_drop.
    destruct (decide (length data <= n)) as [Hle|Hgt].
    - replace (length data - n + n - 1) with (n - 1) by lia.
      rewrite (Nat.div_small (n - 1) n) by lia.
      replace (length data + n - 1) with (1 * n + (length data - 1)) by lia.
      rewrite Nat.div_add_l by lia. rewrite Nat.div_small by lia. lia.
    - replace (length data + n - 1) with (1 * n + (length data - n + n - 1)) by lia.
      rewrite Nat.div_add_l by lia; lia. }
  simpl. f_equal.
  rewrite <- seq_shift, map_map. apply map_ext. intros i.
  rewrite drop_drop. repeat f_equal; lia.
Qed.

Lemma hash_chunks_spec (fuel : nat) (fd acc : list byte) :
  length fd < fuel ->
  hash_chunks fuel fd acc
  = Some (acc ++ concat (map SHA256.sha256 (fixed_chunks (N.to_nat CHUNK_SIZE) fd))).
Proof.
  pose proof chunk_size_pos as Hpos.
  revert fd acc. induction fuel as [|fuel IH]; intros fd acc Hlt; [lia|].
  cbn [hash_chunks]. rewrite fd_read_take_drop.
  remember (N.to_nat CHUNK_SIZE) as n eqn:Hn.
  destruct fd as [|b fd].
  - rewrite take_nil, fixed_chunks_nil by done.
    cbn [map concat]. by rewrite app_nil_r.
  - rewrite (fixed_chunks_cons _ (b :: fd)) by done.
    destruct n as [|n]; [lia|]. rewrite Hn.
    rewrite IH.
    + rewrite <- Hn. cbn [take map concat]. by rewrite <- app_assoc.
    + rewrite length_drop. cbn [length] in *. lia.
Qed.

(** C1: for a readable file holding [data], [db_content_hash] returns the
    lowercase hexadecimal SHA-256 digest of the concatenated SHA-256 digests
    of the 4 MiB blocks of [data], in order; an empty file has no block and
    its hash is the SHA-256 of the empty byte string, the constant below. *)
Theorem db_content_hash_chunks (w : world) (file : pathlike) (data : list byte) :
  read_file (fs w) file = Ok data ->
  db_content_hash file w
  = Some (Ok (chunked_sha256_hex (N.to_nat CHUNK_SIZE) data), w)
  /\ CHUNK_SIZE = (4 * 1024 * 1024)%N
  /\ (data = [] ->
      fixed_chunks (N.to_nat CHUNK_SIZE) data = []
      /\ db_content_hash file w
         = Some (Ok "e3b0c44298fc1c149afbf4c8996fb92427ae41e4649b934ca495991b7852b855"%string, w)).
Proof.
  intros Hread.
  assert (db_content_hash file w
          = Some (Ok (chunked_sha256_hex (N.to_nat CHUNK_SIZE) data), w)) as E.
  { unfold db_content_hash, bind, ask. rewrite Hread.
    unfold content_hash, chunked_sha256_hex, ret.
    rewrite hash_chunks_spec by lia. cbn [app]. reflexivity. }
  split; [exact E|]. split; [reflexivity|].
  intros ->. rewrite E, fixed_chunks_nil by apply chunk_size_pos.
  split; [reflexivity|]. unfold chunked_sha256_hex.
  rewrite fixed_chunks_nil by apply chunk_size_pos. vm_compute. reflexivity.
Qed.

(** ** The monad *)

Lemma bind_ok {A B} (m : M A) (k : A -> M B) (w w1 : world) (a : A) :
  m w = Some (Ok a, w1) -> bind m k w = k a w1.
Proof. intros E. unfold bind. by rewrite E. Qed.

Lemma bind_raise {A B} (m : M A) (k : A -> M B) (w w1 : world) (e : exn) :
  m w = Some (Raise e, w1) -> bind m k w = Some (Raise e, w1).
Proof. intros E. unfold bind. by rewrite E. Qed.

Lemma bind_inv {A B} (m : M A) (k : A -> M B) (w w2 : world) (r : result B) :
  bind m k w = Some (r, w2) ->
  (exists e, m w = Some (Raise e, w2) /\ r = Raise e)
  \/ (exists a w1, m w = Some (Ok a, w1) /\ k a w1 = Some (r, w2)).
Proof.
  unfold bind. destruct (m w) as [[[a|e] w1]|] eqn:E; intros H.
  - right. by exists a, w1.
  - left. exists e. by inversion H.
  - done.
Qed.

(** ** The file system *)

Lemma write_at_dir (m : gmap string node) (c : string) (p : list string) (data : list byte) :
  write_at (Dir m) (c :: p) data =
  match p with
  | [] =>
      match m !! c with
      | Some (Dir _) => Raise IsADirectoryError
      | _ => Ok (Dir (<[c := File data]> m))
      end
  | _ :: _ =>
      match m !! c with
      | None => Raise FileNotFoundError
      | Some n' =>
          match write_at n' p data with
          | Ok n'' => Ok (Dir (<[c := n'']> m))
          | Raise e => Raise e
          end
      end
  end.
Proof. destruct p; reflexivity. Qed.

Lemma write_at_file_nonempty (d : list byte) (c : string) (p : list string) (data : list byte) :
  write_at (File d) (c :: p) data = Raise NotADirectoryError.
Proof. reflexivity. Qed.

(** After a write the path names a file with the written bytes. *)
Lemma walk_write_at (p : list string) (n n' : node) (data : list byte) :
  write_at n p data = Ok n' -> walk n' p = Some (File data).
Proof.
  revert n n'. induction p as [|c p IH]; intros n n' H.
  - destruct n; discriminate.
  - destruct n as [d|m]; [discriminate|].
    rewrite write_at_dir in H. destruct p as [|c' p].
    + destruct (m !! c) as [[?|?]|]; inversion H; subst; simpl;
        by rewrite lookup_insert_eq.
    + destruct (m !! c) as [n1|] eqn:E; [|discriminate].
      destruct (write_at n1 (c' :: p) data) as [n2|] eqn:E2; [|discriminate].
      inversion H; subst. cbn [walk]. rewrite lookup_insert_eq. by eapply IH.
Qed.

(** A write changes nothing at the files elsewhere. *)
Lemma walk_write_at_other (p q : list string) (n n' : node) (data d : list byte) :
  write_at n p data = Ok n' -> p <> q ->
  walk n q = Some (File d) -> walk n' q = Some (File d).
Proof.
  revert q n n'. induction p as [|c p IH]; intros q n n' H Hne Hq.
  - destruct n; discriminate.
  - destruct n as [d0|m]; [discriminate|].
    rewrite write_at_dir in H.
    destruct q as [|c2 q]; [discriminate|]. cbn [walk] in Hq |- *.
    destruct p as [|c' p].
    + destruct (decide (c = c2)) as [->|Hc].
      * destruct (m !! c2) as [[?|?]|] eqn:E; try discriminate.
        destruct q; [congruence|]. discriminate.
      * assert (n' = Dir (<[c := File data]> m)) as ->
          by (destruct (m !! c) as [[?|?]|]; congruence).
        by rewrite lookup_insert_ne.
    + destruct (m !! c) as [n1|] eqn:E; [|discriminate].
      destruct (write_at n1 (c' :: p) data) as [n2|] eqn:E2; [|discriminate].
      inversion H; subst.
      destruct (decide (c = c2)) as [->|Hc].
      * rewrite lookup_insert_eq. rewrite E in Hq.
        eapply IH; [exact E2| |exact Hq]. congruence.
      * by rewrite lookup_insert_ne.
Qed.

Lemma locate_same_cwd (f f' : filesystem) (p : pathlike) :
  cwd f' = cwd f -> locate f' p = locate f p.
Proof. intros E. unfold locate. rewrite E. reflexivity. Qed.

Lemma write_file_cwd (f f' : filesystem) (p : pathlike) (data : list byte) :
  write_file f p data = Ok f' -> cwd f' = cwd f.
Proof.
  unfold write_file, update_root.
  destruct (locate f p) as [[q|]|]; try discriminate.
  destruct (write_at (root f) q data); [|discriminate].
  by inversion 1.
Qed.

Lemma read_after_write (f f' : filesystem) (p : pathlike) (data : list byte) :
  write_file f p data = Ok f' ->
  os_path_exists f' p = Ok true /\ read_file f' p = Ok data.
Proof.
  intros H. pose proof (write_file_cwd _ _ _ _ H) as Hcwd.
  unfold write_file, update_root in H.
  unfold os_path_exists, read_file, stat. rewrite (locate_same_cwd f f') by done.
  destruct (locate f p) as [[q|]|]; try discriminate.
  destruct (write_at (root f) q data) as [n|] eqn:E; [|discriminate].
  inversion H; subst. cbn [root].
  rewrite (walk_write_at _ _ _ _ E). by split.
Qed.

(** ** The lister: what a listing does to the world *)

Lemma aborts_raise {A B} (e : exn) (new : list event) :
  aborts_on_failure (@Raise A e) new -> aborts_on_failure (@Raise B e) new.
Proof.
  intros H ev e0 Hin Hf. destruct (H ev e0 Hin Hf) as [Hr Hpre].
  split; [congruence|done].
Qed.

Lemma aborts_ok_quiet {A} (a : A) (new : list event) :
  aborts_on_failure (Ok a) new -> forall ev, In ev new -> failed ev = None.
Proof.
  intros H ev Hin. destruct (failed ev) as [e|] eqn:Hf; [|done].
  by destruct (H ev e Hin Hf) as [? _].
Qed.

Lemma aborts_app {A B} (a : A) (r : result B) (n1 n2 : list event) :
  aborts_on_failure (Ok a) n1 -> aborts_on_failure r n2 ->
  aborts_on_failure r (n1 ++ n2).
Proof.
  intros H1 H2 ev e Hin Hf. apply in_app_or in Hin as [Hin|Hin].
  - rewrite (aborts_ok_quiet _ _ H1 ev Hin) in Hf. discriminate.
  - destruct (H2 ev e Hin Hf) as [Hr [pre Hpre]]. split; [done|].
    exists (n1 ++ pre). by rewrite Hpre, app_assoc.
Qed.

Lemma only_lists_ret {A} (a : A) : only_lists (ret a).
Proof.
  intros w r w' H. inversion H; subst. repeat split.
  exists []. split; [by rewrite app_nil_r|]. by intros ev e [].
Qed.

Lemma only_lists_bind {A B} (m : M A) (k : A -> M B) :
  only_lists m -> (forall a, only_lists (k a)) -> only_lists (bind m k).
Proof.
  intros Hm Hk w r w2 H. apply bind_inv in H as [(e & H & ->)|(a & w1 & H & H2)].
  - destruct (Hm _ _ _ H) as (Hfs & Hpool & new & Hlog & Hab).
    repeat split; [done..|]. exists new. split; [done|]. by eapply aborts_raise.
  - destruct (Hm _ _ _ H) as (Hfs & Hpool & n1 & Hlog & Hab).
    destruct (Hk a _ _ _ H2) as (Hfs2 & Hpool2 & n2 & Hlog2 & Hab2).
    repeat split; [congruence..|]. exists (n1 ++ n2).
    split; [by rewrite Hlog2, Hlog, app_assoc|]. by eapply aborts_app.
Qed.

Lemma request_run {A} (ev : option exn -> event) (r : result A) (w : world) :
  request ev r w
  = Some (r, {| fs := fs w; log := log w ++ [ev (error_of r)]; pool := pool w |}).
Proof. reflexivity. Qed.

Lemma only_lists_request {A} (ev : option exn -> event) (r : result A) :
  (forall err, failed (ev err) = err) -> only_lists (request ev r).
Proof.
  intros Hev w r' w' H. rewrite request_run in H. inversion H; subst; cbn.
  repeat split. exists [ev (error_of r')]. split; [done|].
  intros ev0 e [<-|[]] Hf. rewrite Hev in Hf.
  split; [by destruct r'; inversion Hf|]. by exists [].
Qed.

Lemma only_lists_list_more {C} (fuel : nat) (dbx : Dropbox C)
    (res : ListFolderResult C) (acc : list metadata) :
  only_lists (list_more fuel dbx res acc).
Proof.
  revert res acc. induction fuel as [|fuel IH]; intros res acc; cbn [list_more];
    destruct (has_more res); try apply only_lists_ret.
  - by intros w r w' H.
  - apply only_lists_bind; [by apply only_lists_request|]. intros res'. apply IH.
Qed.

Lemma only_lists_traverse {C} (fuel : nat) (dbx : Dropbox C) (link : string)
    (wl : list string) (acc : list entry) :
  only_lists (traverse fuel dbx link wl acc).
Proof.
  revert wl acc. induction fuel as [|fuel IH]; intros wl acc; cbn [traverse];
    destruct (pop wl) as [[wl' path]|]; try apply only_lists_ret.
  - by intros w r w' H.
  - apply only_lists_bind; [by apply only_lists_request|]. intros res.
    apply only_lists_bind; [apply only_lists_list_more|]. intros es. apply IH.
Qed.

Lemma ask_run {A} (q : filesystem -> result A) (w : world) :
  ask q w = Some (q (fs w), w).
Proof. reflexivity. Qed.

(** C6: called without a cache path ([file_list_location] is [None]),
    [get_file_list_recursive] raises [TypeError] at its first statement,
    [os.path.exists(None)]: no listing request is made and no file list is
    returned, whatever the remote side holds. *)
Theorem lister_without_cache_path_raises {C} (fuel : nat) (codec : json_codec)
    (dbx : Dropbox C) (link_root : string) (w : world) :
  get_file_list_recursive fuel codec dbx link_root None w = Some (Raise TypeError, w).
Proof. reflexivity. Qed.



(** ** The cache file *)

Lemma subscript_file_list (link_root : string) (all_files : list entry) :
  subscript (filelist_json link_root all_files) "file_list"
  = Ok (JArr (map entry_json all_files)).
Proof. reflexivity. Qed.

Lemma json_entries_encoded (all_files : list entry) :
  json_entries (map entry_json all_files) = Some all_files.
Proof.
  induction all_files as [|[[[path name] h] size] l IH]; [done|].
  cbn [map json_entries]. rewrite IH. reflexivity.
Qed.

Lemma loaded_file_list_encoded (all_files : list entry) :
  loaded_file_list (JArr (map entry_json all_files)) = Ok all_files.
Proof. unfold loaded_file_list. by rewrite json_entries_encoded. Qed.

(** With a saved list in place the lister does not look at its other arguments. *)
Lemma lister_loads {C} (fuel : nat) (codec : json_codec) (dbx : Dropbox C)
    (link_root p : string) (w : world) (text : list byte) :
  os_path_exists (fs w) (PStr p) = Ok true ->
  read_file (fs w) (PStr p) = Ok text ->
  get_file_list_recursive fuel codec dbx link_root (Some p) w
  = match json_load codec text with
    | None => Some (Raise JSONDecodeError, w)
    | Some doc =>
        match subscript doc "file_list" with
        | Raise e => Some (Raise e, w)
        | Ok file_list => Some (loaded_file_list file_list, w)
        end
    end.
Proof.
  intros Hex Hrd. unfold get_file_list_recursive.
  rewrite (bind_ok _ _ w w true) by (rewrite ask_run; cbn [location]; by rewrite Hex).
  rewrite (bind_ok _ _ w w text) by (rewrite ask_run; cbn [location]; by rewrite Hrd).
  destruct (json_load codec text) as [doc|]; [|done].
  unfold bind, lift. by destruct (subscript doc "file_list").
Qed.

(** C9: when a call of [get_file_list_recursive] with cache path [p] has
    returned the file list [m] (after it wrote [m] to [p], or after it read
    [m] from [p]), and [json.load] reads back the document [json.dump] wrote,
    then a further call with the same cache path returns the same entries
    [m], whatever client, link and fuel it is given; the world is unchanged
    by it, so its log has no listing request. *)
Theorem cache_round_trip {C C'} (fuel fuel' : nat) (codec : json_codec)
    (dbx : Dropbox C) (dbx' : Dropbox C') (link_root link_root' p : string)
    (w w1 : world) (m : list entry) :
  get_file_list_recursive fuel codec dbx link_root (Some p) w = Some (Ok m, w1) ->
  json_load codec (json_dump codec (filelist_json link_root m))
  = Some (filelist_json link_root m) ->
  get_file_list_recursive fuel' codec dbx' link_root' (Some p) w1 = Some (Ok m, w1).
Proof.
  intros H Hcodec. pose proof H as H0. unfold get_file_list_recursive in H.
  apply bind_inv in H as [(e & H & ?)|(saved & w2 & H & H2)]; [done|].
  rewrite ask_run in H. cbn [location] in H.
  destruct (os_path_exists (fs w) (PStr p)) as [b|] eqn:Hex; inversion H; subst; clear H.
  destruct saved.
  - (* the first call loaded the list *)
    apply bind_inv in H2 as [(e & H & ?)|(text & w3 & H & H2)]; [done|].
    rewrite ask_run in H. cbn [location] in H.
    destruct (read_file (fs w2) (PStr p)) as [t|] eqn:Hrd; inversion H; subst; clear H.
    rewrite (lister_loads _ _ _ _ _ _ _ Hex Hrd) in H0.
    assert (w1 = w3) as ->.
    { destruct (json_load codec text); [|by inversion H0].
      destruct (subscript j "file_list"); by inversion H0. }
    by rewrite (lister_loads _ _ _ _ _ _ _ Hex Hrd).
  - (* the first call listed the remote side and wrote the list *)
    apply bind_inv in H2 as [(e & H & ?)|(st & w3 & H & H2)]; [done|].
    apply bind_inv in H2 as [(e & H3 & ?)|([] & w4 & H3 & H4)]; [done|].
    inversion H4; subst; clear H4. unfold change in H3.
    destruct (write_file (fs w3) (PStr p) _) as [f'|] eqn:Hw; inversion H3; subst; clear H3.
    destruct (read_after_write _ _ _ _ Hw) as [Hex' Hrd'].
    rewrite (lister_loads fuel' codec dbx' link_root' p
               {| fs := f'; log := log w3; pool := pool w3 |} _ Hex' Hrd'), Hcodec.
    by rewrite subscript_file_list, loaded_file_list_encoded.
Qed.

(** ** The main block *)

(** C10: when the credentials have been read and the lister has returned a
    file list that is empty after the optional [max_num_files] cut,
    [__main__] raises [TypeError] at [reduce(add, [...])], which has no initial
    value; the world it ends in is the one the lister left, so
    [download_file_list] was not called: no directory was made, no task was
    submitted. *)
Theorem empty_file_list_raises {C} (fuel : nat) (sched : schedule) (codec : json_codec)
    (connect : json -> Dropbox C) (args : arguments) (w w1 : world)
    (text : list byte) (doc api_token : json) (all_files : list entry) :
  os_path_exists (fs w) (PStr (api_token_file args)) = Ok true ->
  read_file (fs w) (PStr (api_token_file args)) = Ok text ->
  json_load codec text = Some doc ->
  subscript doc "api_token" = Ok api_token ->
  get_file_list_recursive fuel codec (connect api_token) (shared_link args)
    (file_list_location args) w = Some (Ok all_files, w1) ->
  match max_num_files args with
  | Some n => slice_to n all_files
  | None => all_files
  end = [] ->
  main fuel sched codec connect args w = Some (Raise TypeError, w1).
Proof.
  intros Hex Hrd Hload Htok Hlist Hempty. unfold main.
  rewrite (bind_ok _ _ w w true) by (rewrite ask_run; by rewrite Hex).
  cbn [negb].
  rewrite (bind_ok _ _ w w text) by (rewrite ask_run; by rewrite Hrd).
  rewrite Hload.
  rewrite (bind_ok _ _ w w api_token) by (unfold lift; by rewrite Htok).
  rewrite (bind_ok _ _ w w1 all_files) by exact Hlist.
  rewrite Hempty. reflexivity.
Qed.

(** ** The traversal of a remote tree *)

Lemma pop_snoc {A} (l : list A) (x : A) : pop (l ++ [x]) = Some (l, x).
Proof. unfold pop. rewrite rev_unit. by rewrite rev_involutive. Qed.

Lemma pop_nil {A} : pop (@nil A) = None.
Proof. reflexivity. Qed.

Lemma exists_last_or_nil {A} (l : list A) :
  l = [] \/ exists l' x, l = l' ++ [x].
Proof. induction l as [|x l' _] using rev_ind; [by left|right; by exists l', x]. Qed.

Lemma logged_nil (w : world) : logged w [] = w.
Proof. destruct w. unfold logged. cbn. by rewrite app_nil_r. Qed.

Lemma logged_app (w : world) (e1 e2 : list event) :
  logged (logged w e1) e2 = logged w (e1 ++ e2).
Proof. unfold logged. cbn. by rewrite app_assoc. Qed.

Lemma assoc_NoDup {A} (l : list (string * A)) (k : string) (v : A) :
  NoDup (map fst l) -> In (k, v) l -> assoc k l = Some v.
Proof.
  induction l as [|[k' v'] l IH]; intros Hnd Hin; [done|].
  cbn [map fst] in Hnd. apply NoDup_cons in Hnd as [Hnotin Hnd].
  cbn [assoc]. destruct Hin as [Heq|Hin].
  - inversion Heq; subst. by rewrite String.eqb_refl.
  - destruct (String.eqb_spec k k') as [->|_]; [|by apply IH].
    exfalso. apply Hnotin. apply list_elem_of_In.
    change k' with (fst (k', v)). by apply in_map.
Qed.

Section Tree.
Variable paginate : string -> list metadata -> list (list metadata).
Variable body : string -> string -> result (list byte).
Variable top : list rnode.
Hypothesis paginate_concat : forall p l, concat (paginate p l) = l.
Hypothesis distinct_paths : NoDup (map fst (folder_table top)).

Local Abbreviation srv := (tree_server paginate body top).

Lemma folders_subfolders (p : string) (cs : list rnode) :
  flat_map (folders p) cs = flat_map item_folders (subfolders p cs).
Proof.
  unfold subfolders. induction cs as [|[name h size|name cs'|name] cs IH]; cbn; try done.
  by rewrite IH.
Qed.

Lemma files_subfolders (p : string) (cs : list rnode) :
  flat_map (files_under p) cs
  ≡ₚ files_here p cs ++ flat_map item_files (subfolders p cs).
Proof.
  unfold subfolders, files_here.
  induction cs as [|[name h size|name cs'|name] cs IH]; cbn; try done.
  - by rewrite IH.
  - rewrite IH. unfold item_files at 2. cbn [fst snd].
    by rewrite Permutation_app_swap_app.
Qed.

Lemma classify_children (p : string) (cs : list rnode) (wl : list string)
    (acc : list entry) :
  fold_left (classify p) (map metadata_of cs) (wl, acc)
  = (wl ++ map fst (subfolders p cs), acc ++ files_here p cs).
Proof.
  revert wl acc. unfold subfolders, files_here.
  induction cs as [|[name h size|name cs'|name] cs IH]; intros wl acc; cbn.
  - by rewrite !app_nil_r.
  - rewrite IH. cbn. by rewrite <- app_assoc.
  - rewrite IH. cbn. by rewrite <- app_assoc.
  - by rewrite IH.
Qed.

(** The continuation requests of one folder. *)
Lemma list_more_pages (pages : list (list metadata)) (fuel : nat)
    (acc : list metadata) (w : world) :
  length pages <= S fuel ->
  list_more fuel srv (page pages) acc w
  = Some (Ok (acc ++ concat (tail pages)),
          logged w (repeat (EvListContinue None) (length (tail pages)))).
Proof.
  revert fuel acc w. induction pages as [|pg pages IH]; intros fuel acc w Hlen.
  - destruct fuel; cbn; by rewrite app_nil_r, logged_nil.
  - destruct pages as [|pg2 pages].
    + destruct fuel; cbn; by rewrite app_nil_r, logged_nil.
    + destruct fuel as [|fuel]; [cbn in Hlen; lia|].
      cbn [list_more page has_more cursor].
      erewrite bind_ok; [|by rewrite request_run].
      cbn [files_list_folder_continue srv tree_server].
      rewrite IH by (cbn in *; lia).
      cbn [page entries tail concat length repeat].
      rewrite <- app_assoc. f_equal. f_equal.
      unfold logged. cbn. by rewrite <- app_assoc.
Qed.

Lemma most_pages_bound (it : string * list rnode) :
  In it (folder_table top) ->
  length (paginate (fst it) (map metadata_of (snd it))) <= most_pages paginate top.
Proof.
  clear distinct_paths.
  unfold most_pages. induction (folder_table top) as [|x l IH]; [done|].
  intros [->|Hin]; cbn; [lia|]. specialize (IH Hin). lia.
Qed.

(** One round of the loop, on the folder [p] with children [cs]. *)
Lemma traverse_round (fuel : nat) (link : string) (wl : list string) (p : string)
    (cs : list rnode) (acc : list entry) (w : world) :
  In (p, cs) (folder_table top) ->
  length (paginate p (map metadata_of cs)) <= S fuel ->
  traverse (S fuel) srv link (wl ++ [p]) acc w
  = traverse fuel srv link (wl ++ map fst (subfolders p cs)) (acc ++ files_here p cs)
      (logged w (EvListFolder p None
                   :: repeat (EvListContinue None)
                        (length (tail (paginate p (map metadata_of cs)))))).
Proof.
  intros Hin Hpages. cbn [traverse]. rewrite pop_snoc.
  set (pages := paginate p (map metadata_of cs)) in *.
  assert (files_list_folder srv p link = Ok (page pages)) as ->.
  { cbn [files_list_folder srv tree_server].
    by rewrite (assoc_NoDup _ _ _ distinct_paths Hin). }
  erewrite bind_ok; [|by rewrite request_run].
  erewrite bind_ok; [|by apply list_more_pages].
  assert (entries (page pages) ++ concat (tail pages) = map metadata_of cs) as ->.
  { rewrite <- (paginate_concat p (map metadata_of cs)). fold pages.
    by destruct pages. }
  rewrite classify_children. cbn [fst snd error_of]. f_equal.
  unfold logged. cbn. by rewrite <- app_assoc.
Qed.

Lemma listed_continue (k : nat) (evs : list event) :
  listed (repeat (EvListContinue None) k ++ evs) = listed evs.
Proof. induction k as [|k IH]; [done|]. exact IH. Qed.

(** The state of the loop: the folders still to list, each with all that
    lies below it known to the server. *)
Lemma traverse_pending (n : nat) :
  forall (pending : list (string * list rnode)) (fuel : nat) (link : string)
         (acc : list entry) (w : world),
    length (flat_map item_folders pending) = n ->
    (forall it, In it pending -> incl (item_folders it) (folder_table top)) ->
    n + most_pages paginate top <= fuel ->
    exists files evs,
      traverse fuel srv link (map fst pending) acc w
      = Some (Ok ([], acc ++ files), logged w evs)
      /\ files ≡ₚ flat_map item_files pending
      /\ listed evs ≡ₚ map fst (flat_map item_folders pending)
      /\ Forall (fun ev => failed ev = None) evs.
Proof.
  induction n as [n IH] using lt_wf_ind.
  intros pending fuel link acc w Hn Hknown Hfuel.
  destruct (exists_last_or_nil pending) as [->|(rest & [p cs] & ->)].
  - exists [], []. destruct fuel; cbn; rewrite app_nil_r, logged_nil; done.
  - rewrite flat_map_app, length_app in Hn. cbn in Hn. rewrite app_nil_r in Hn.
    destruct fuel as [|fuel]; [lia|].
    assert (In (p, cs) (folder_table top)) as Hin.
    { apply (Hknown (p, cs)); [apply in_or_app; right; by left|by left]. }
    pose proof (most_pages_bound (p, cs) Hin) as Hpages. cbn [fst snd] in Hpages.
    rewrite map_app. cbn [map fst].
    rewrite (traverse_round fuel link (map fst rest) p cs acc w Hin) by lia.
    rewrite <- map_app.
    set (w1 := logged w _).
    destruct (IH (length (flat_map item_folders (rest ++ subfolders p cs))))
      with (pending := rest ++ subfolders p cs) (fuel := fuel) (link := link)
           (acc := acc ++ files_here p cs) (w := w1)
      as (files & evs & Hrun & Hfiles & Hlisted & Hquiet).
    + rewrite flat_map_app, length_app, <- folders_subfolders. lia.
    + reflexivity.
    + intros it [Hit|Hit]%in_app_or.
      * apply Hknown. apply in_or_app. by left.
      * intros x Hx. apply (Hknown (p, cs)); [apply in_or_app; right; by left|].
        right. cbn [fst snd]. rewrite folders_subfolders.
        apply in_flat_map. by exists it.
    + rewrite flat_map_app, length_app, <- folders_subfolders. lia.
    + rewrite Hrun.
      exists (files_here p cs ++ files),
        ((EvListFolder p None
            :: repeat (EvListContinue None)
                 (length (tail (paginate p (map metadata_of cs))))) ++ evs).
      split; [|split; [|split]].
      * subst w1. by rewrite <- app_assoc, logged_app.
      * rewrite Hfiles, !flat_map_app. cbn [flat_map]. rewrite app_nil_r.
        change (item_files (p, cs)) with (flat_map (files_under p) cs).
        rewrite files_subfolders.
        by rewrite Permutation_app_swap_app.
      * change (listed ((EvListFolder p None :: ?a) ++ ?b))
          with (p :: listed (a ++ b)).
        rewrite listed_continue, Hlisted, !flat_map_app, !map_app. cbn [flat_map].
        rewrite app_nil_r.
        change (item_folders (p, cs)) with ((p, cs) :: flat_map (folders p) cs).
        cbn [fst snd map].
        rewrite folders_subfolders. by rewrite Permutation_middle.
      * apply Forall_app. split; [|done]. constructor; [done|].
        apply Forall_forall. intros ev Hev%list_elem_of_In%repeat_spec. by subst.
Qed.

(** C3: on a remote tree whose folders have distinct full paths, listed in
    pages that together hold each folder's listing, the loop started on the
    worklist [['']] ends, given fuel for one round per folder and for the
    pages of a folder, with an empty worklist; the file list then holds the
    entries of the files of the tree, each once and with its parent path,
    and nothing else, and the paths listed are the folders of the tree,
    each once; no request failed. *)
Theorem traverse_lists_every_file (fuel : nat) (link : string) (w : world) :
  length (folder_table top) + most_pages paginate top <= fuel ->
  exists files evs,
    traverse fuel srv link [EmptyString] [] w = Some (Ok ([], files), logged w evs)
    /\ files ≡ₚ remote_files top
    /\ listed evs ≡ₚ map fst (folder_table top)
    /\ NoDup (listed evs)
    /\ Forall (fun ev => failed ev = None) evs.
Proof.
  intros Hfuel.
  destruct (traverse_pending (length (folder_table top)) [(EmptyString, top)]
              fuel link [] w) as (files & evs & Hrun & Hfiles & Hlisted & Hquiet).
  - cbn. by rewrite app_nil_r.
  - intros it [<-|[]]. intros x Hx. exact Hx.
  - done.
  - exists files, evs. cbn [flat_map] in Hfiles, Hlisted.
    rewrite app_nil_r in Hfiles, Hlisted.
    split; [exact Hrun|]. split; [exact Hfiles|]. split; [exact Hlisted|].
    split; [|exact Hquiet]. rewrite Hlisted. exact distinct_paths.
Qed.
End Tree.

(** ** The lister on the sample tree *)

Lemma two_pages_concat (p : string) (l : list metadata) :
  concat (Sample.two_pages p l) = l.
Proof. unfold Sample.two_pages. cbn. rewrite app_nil_r. apply take_drop. Qed.

Lemma traverse_lists_every_file_witness :
  exists files evs,
    traverse 10 (tree_server Sample.two_pages Sample.body Sample.top) "LINK"
      [EmptyString] [] Sample.w0
    = Some (Ok ([], files), logged Sample.w0 evs)
    /\ files ≡ₚ remote_files Sample.top
    /\ listed evs ≡ₚ map fst (folder_table Sample.top)
    /\ NoDup (listed evs)
    /\ Forall (fun ev => failed ev = None) evs.
Proof.
  apply (traverse_lists_every_file Sample.two_pages Sample.body Sample.top).
  - exact two_pages_concat.
  - apply (bool_decide_unpack _). vm_compute. exact I.
  - vm_compute. lia.
Defined.

Lemma cache_round_trip_witness :
  get_file_list_recursive 0 JsonText.codec broken_continuation "other link"
    (Some "list.json") Sample.w_listed
  = Some (Ok Sample.manifest, Sample.w_listed).
Proof.
  apply (cache_round_trip 10 0 JsonText.codec Sample.server broken_continuation
           "LINK" "other link" "list.json" Sample.w0).
  - vm_compute. reflexivity.
  - vm_compute. reflexivity.
Defined.

Lemma empty_file_list_raises_witness :
  main 10 (fun _ => []) JsonText.codec (fun _ => Sample.empty_server) Sample.args Sample.w0
  = Some (Raise TypeError, Sample.w_listed_empty).
Proof.
  apply (empty_file_list_raises 10 (fun _ => []) JsonText.codec
           (fun _ => Sample.empty_server) Sample.args Sample.w0 Sample.w_listed_empty
           (json_dump JsonText.codec (JObj [("api_token", JStr "token")]))
           (JObj [("api_token", JStr "token")]) (JStr "token") []).
  - vm_compute. reflexivity.
  - vm_compute. reflexivity.
  - vm_compute. reflexivity.
  - vm_compute. reflexivity.
  - vm_compute. reflexivity.
  - reflexivity.
Defined.

(** ** Directories and files *)

Lemma walk_app (p q : list string) (n : node) :
  walk n (p ++ q) = match walk n p with Some n' => walk n' q | None => None end.
Proof.
  revert n. induction p as [|c p IH]; intros n; [done|].
  cbn [app walk]. destruct n as [d|m]; [done|]. destruct (m !! c); [apply IH|done].
Qed.



(** [os.makedirs] leaves every file where it is. *)
Lemma makedirs_at_keeps_files (q p : list string) (n n' : node) (d : list byte) :
  makedirs_at n q = Ok n' -> walk n p = Some (File d) -> walk n' p = Some (File d).
Proof.
  revert n n' p. induction q as [|c q IH]; intros n n' p H Hp; [done|].
  destruct n as [d0|m]; [done|]. cbn [makedirs_at] in H.
  destruct p as [|c2 p]; [done|]. cbn [walk] in Hp.
  destruct (m !! c) as [n1|] eqn:E.
  - destruct (makedirs_at n1 q) as [n2|] eqn:E2; [|done]. inversion H; subst.
    cbn [walk]. destruct (decide (c = c2)) as [->|Hne].
    + rewrite lookup_insert_eq. rewrite E in Hp. by eapply IH.
    + by rewrite lookup_insert_ne.
  - inversion H; subst. cbn [walk]. destruct (decide (c = c2)) as [->|Hne].
    + by rewrite E in Hp.
    + by rewrite lookup_insert_ne.
Qed.

(** It makes no file either. *)
Lemma makedirs_at_makes_no_file (q p : list string) (n n' : node) (d : list byte) :
  makedirs_at n q = Ok n' -> walk n' p = Some (File d) -> walk n p = Some (File d).
Proof.
  revert n n' p. induction q as [|c q IH]; intros n n' p H Hp; [done|].
  destruct n as [d0|m]; [done|]. cbn [makedirs_at] in H.
  assert (forall r x, walk (fresh_dirs r) x <> Some (File d)) as Hfresh.
  { induction r as [|a r IHr]; intros [|b x]; cbn [fresh_dirs walk]; try done.
    destruct (decide (a = b)) as [->|Hne].
    - rewrite lookup_singleton_eq. apply IHr.
    - by rewrite lookup_singleton_ne. }
  destruct (m !! c) as [n1|] eqn:E.
  - destruct (makedirs_at n1 q) as [n2|] eqn:E2; [|done]. inversion H; subst.
    destruct p as [|c2 p]; [done|]. cbn [walk] in Hp |- *.
    destruct (decide (c = c2)) as [->|Hne].
    + rewrite lookup_insert_eq in Hp. rewrite E. by eapply IH.
    + by rewrite lookup_insert_ne in Hp.
  - inversion H; subst. destruct p as [|c2 p]; [done|]. cbn [walk] in Hp |- *.
    destruct (decide (c = c2)) as [->|Hne].
    + rewrite lookup_insert_eq in Hp. by apply Hfresh in Hp.
    + by rewrite lookup_insert_ne in Hp.
Qed.

Lemma os_path_exists_path (f : filesystem) (p : Path) :
  os_path_exists f (PPath p)
  = Ok (bool_decide (is_Some (walk (root f) (absolute (cwd f) p)))).
Proof. reflexivity. Qed.

Lemma absolute_parent (cwd_ : list string) (p : Path) :
  parts p <> [] ->
  exists x, absolute cwd_ p = absolute cwd_ (parent p) ++ [x].
Proof.
  intros Hne. destruct (exists_last_or_nil (parts p)) as [?|(l & x & Hl)]; [done|].
  exists x. unfold absolute, parent. cbn. rewrite Hl, removelast_last.
  destruct (anchored p); [done|]. by rewrite app_assoc.
Qed.

Lemma parent_of_root (p : Path) : parts p = [] -> parent p = p.
Proof. destruct p as [a ps]. cbn. by intros ->. Qed.

(** A file lies in an existing directory. *)
Lemma file_at_parent_exists (f : filesystem) (p : Path) (d : list byte) :
  file_at f p = Some d -> os_path_exists f (PPath (parent p)) = Ok true.
Proof.
  unfold file_at. rewrite os_path_exists_path. intros H. f_equal.
  apply bool_decide_eq_true.
  destruct (decide (parts p = [])) as [Hnil|Hne].
  - rewrite (parent_of_root _ Hnil). destruct (walk _ _); [by eexists|done].
  - destruct (absolute_parent (cwd f) p Hne) as [x Hx]. rewrite Hx, walk_app in H.
    destruct (walk (root f) (absolute (cwd f) (parent p))); [by eexists|done].
Qed.

Lemma content_hash_total (data : list byte) :
  content_hash data = Some (chunked_sha256_hex (N.to_nat CHUNK_SIZE) data).
Proof.
  unfold content_hash, chunked_sha256_hex.
  rewrite hash_chunks_spec by lia. cbn [app]. reflexivity.
Qed.

(** ** The planning of one entry *)

Lemma read_file_path (f : filesystem) (p : Path) :
  read_file f (PPath p)
  = match walk (root f) (absolute (cwd f) p) with
    | None => Raise (walk_error (root f) (absolute (cwd f) p))
    | Some (Dir _) => Raise IsADirectoryError
    | Some (File data) => Ok data
    end.
Proof. reflexivity. Qed.

Lemma os_makedirs_path (f : filesystem) (p : Path) :
  os_makedirs f (PPath p)
  = match makedirs_at (root f) (absolute (cwd f) p) with
    | Ok n => Ok {| cwd := cwd f; root := n |}
    | Raise e => Raise e
    end.
Proof. reflexivity. Qed.

(** The second half of the loop body, from [if os.path.exists(target_file)] on. *)
Lemma plan_entry_check (target_dir link_root : string) (e : entry) (w : world) :
  let t := t_target (task_of target_dir link_root e) in
  exists r w' hs sb,
    (present <- ask (fun f => os_path_exists f (PPath t)) ;;
     have <- (if present : bool
              then emit (EvHash t) ;;;
                   h <- db_content_hash (PPath t) ;;
                   ret (String.eqb h (snd (fst e)))
              else ret false) ;;
     if have : bool then ret tt else submit (task_of target_dir link_root e)) w
    = Some (r, w')
    /\ fs w' = fs w
    /\ log w' = log w ++ hs ++ sb
    /\ (hs = [] \/ hs = [EvHash t])
    /\ match r with
       | Ok _ =>
           if up_to_date (fs w) target_dir e
           then sb = [] /\ pool w' = pool w
           else sb = [EvSubmit (task_of target_dir link_root e)]
                /\ pool w' = pool w ++ [(task_of target_dir link_root e, None)]
       | Raise err =>
           sb = [] /\ pool w' = pool w /\ up_to_date (fs w) target_dir e = false
           /\ err = IsADirectoryError
           /\ exists m, walk (root (fs w)) (absolute (cwd (fs w)) t) = Some (Dir m)
       end.
Proof.
  destruct e as [[[path name] h] size]. cbv zeta. cbn [task_of t_target fst snd].
  set (t := target_path target_dir path name).
  set (tk := {| t_target := t; t_link := link_root; t_remote := slash_join path name |}).
  unfold up_to_date, file_at. fold t.
  unfold bind at 1. rewrite ask_run, os_path_exists_path.
  destruct (walk (root (fs w)) (absolute (cwd (fs w)) t)) as [[data|m]|] eqn:Hwalk.
  - (* a file: its hash is compared *)
    rewrite bool_decide_eq_true_2 by by eexists.
    unfold bind, emit, db_content_hash, ask, bind. cbn [fs].
    rewrite read_file_path, Hwalk, content_hash_total. cbn [ret].
    destruct (String.eqb _ h) eqn:Heq.
    + eexists (Ok tt), _, [EvHash t], []. cbn.
      split; [reflexivity|]. cbn. repeat split; eauto.
    + eexists (Ok tt), _, [EvHash t], [EvSubmit _]. cbn.
      split; [reflexivity|]. cbn. rewrite <- ?app_assoc. repeat split; eauto.
  - (* a directory: hashing raises *)
    rewrite bool_decide_eq_true_2 by by eexists.
    unfold bind, emit, db_content_hash, ask, bind. cbn [fs].
    rewrite read_file_path, Hwalk.
    eexists (Raise IsADirectoryError), _, [EvHash t], []. cbn.
    split; [reflexivity|]. cbn. repeat split; eauto.
  - (* nothing there: the download is submitted *)
    rewrite bool_decide_eq_false_2 by (intros [? ?]; done).
    eexists (Ok tt), _, [], [EvSubmit _]. cbn.
    split; [reflexivity|]. cbn. repeat split; eauto.
Qed.

Lemma not_up_to_date_without_parent (f : filesystem) (target_dir : string) (e : entry) :
  os_path_exists f (PPath (parent (t_target (task_of target_dir EmptyString e)))) = Ok false ->
  file_at f (t_target (task_of target_dir EmptyString e)) = None
  /\ up_to_date f target_dir e = false.
Proof.
  destruct e as [[[path name] h] size]. cbn [task_of t_target]. intros Hno.
  assert (file_at f (target_path target_dir path name) = None) as Hnone.
  { destruct (file_at f (target_path target_dir path name)) as [d|] eqn:E; [|done].
    apply file_at_parent_exists in E. congruence. }
  split; [done|]. unfold up_to_date. by rewrite Hnone.
Qed.

Lemma task_target (target_dir link_root : string) (e : entry) :
  t_target (task_of target_dir link_root e) = t_target (task_of target_dir EmptyString e).
Proof. by destruct e as [[[path name] h] size]. Qed.

(** The whole loop body. *)
Lemma plan_entry_spec (target_dir link_root : string) (e : entry) (w : world) :
  let t := t_target (task_of target_dir link_root e) in
  exists r w' blk,
    plan_entry target_dir link_root e w = Some (r, w')
    /\ log w' = log w ++ blk
    /\ entry_block target_dir link_root e blk
    /\ (fs w' = fs w
        \/ os_path_exists (fs w) (PPath (parent t)) = Ok false
           /\ os_makedirs (fs w) (PPath (parent t)) = Ok (fs w'))
    /\ match r with
       | Ok _ =>
           if up_to_date (fs w) target_dir e
           then filter is_submit blk = [] /\ pool w' = pool w
           else filter is_submit blk = [EvSubmit (task_of target_dir link_root e)]
                /\ pool w' = pool w ++ [(task_of target_dir link_root e, None)]
       | Raise _ =>
           filter is_submit blk = [] /\ pool w' = pool w
           /\ up_to_date (fs w) target_dir e = false
       end.
Proof.
  intros t. pose proof (task_target target_dir link_root e) as Ht. fold t in Ht.
  assert (forall w0,
    plan_entry target_dir link_root e w0
    = (there <- ask (fun f => os_path_exists f (PPath (parent t))) ;;
       (if there : bool then ret tt
        else emit (EvMakedirs (parent t)) ;;;
             change (fun f => os_makedirs f (PPath (parent t)))) ;;;
       present <- ask (fun f => os_path_exists f (PPath t)) ;;
       have <- (if present : bool
                then emit (EvHash t) ;;;
                     h <- db_content_hash (PPath t) ;;
                     ret (String.eqb h (snd (fst e)))
                else ret false) ;;
       if have : bool then ret tt else submit (task_of target_dir link_root e)) w0)
    as Hbody by (intros w0; subst t; by destruct e as [[[path name] h] size]).
  rewrite Hbody. clear Hbody.
  unfold bind at 1. rewrite ask_run, os_path_exists_path.
  destruct (bool_decide _) eqn:Hthere.
  - (* the directory is there *)
    unfold bind at 1. cbn [ret].
    destruct (plan_entry_check target_dir link_root e w)
      as (r & w' & hs & sb & Hrun & Hfs & Hlog & Hhs & Hr).
    fold t in Hrun, Hhs. rewrite Hrun.
    exists r, w', (hs ++ sb). split; [done|]. split; [done|].
    split; [by exists [], hs, sb; repeat split; auto;
              destruct r as [[]|]; [destruct (up_to_date _ _ _)|];
              intuition auto|].
    split; [by left|].
    destruct Hhs as [->| ->]; destruct r as [[]|err];
      [destruct (up_to_date _ _ _)| |destruct (up_to_date _ _ _)|];
      cbn; intuition (subst; auto).
  - (* the directory is made first *)
    assert (os_path_exists (fs w) (PPath (parent t)) = Ok false) as Hno
      by (by rewrite os_path_exists_path, Hthere).
    rewrite Ht in Hno.
    destruct (not_up_to_date_without_parent _ _ _ Hno) as [Hnone Hfalse].
    rewrite <- Ht in Hno, Hnone.
    unfold bind at 1. unfold bind at 1. cbn [emit]. unfold change. cbn [fs log pool].
    destruct (os_makedirs (fs w) (PPath (parent t))) as [f'|err] eqn:Hmk.
    + set (w1 := {| fs := f'; log := log w ++ [EvMakedirs (parent t)]; pool := pool w |}).
      destruct (plan_entry_check target_dir link_root e w1)
        as (r & w' & hs & sb & Hrun & Hfs & Hlog & Hhs & Hr).
      fold t in Hrun, Hhs. rewrite Hrun.
      assert (up_to_date (fs w1) target_dir e = false) as Hfalse1.
      { destruct e as [[[path name] h] size]. unfold up_to_date.
        destruct (file_at (fs w1) _) as [d|] eqn:E; [|done]. exfalso.
        unfold file_at in E, Hnone. cbn [fs w1] in E.
        rewrite os_makedirs_path in Hmk.
        destruct (makedirs_at _ _) as [n'|] eqn:Hat; [|done]. inversion Hmk; subst f'.
        cbn [cwd root] in E.
        destruct (walk n' _) as [[d'|]|] eqn:Hw; try done.
        eapply makedirs_at_makes_no_file in Hw; [|exact Hat].
        subst t. cbn [task_of t_target] in Hnone, Hw. by rewrite Hw in Hnone. }
      rewrite Hfalse1 in Hr. rewrite Hfalse.
      exists r, w', ([EvMakedirs (parent t)] ++ hs ++ sb).
      split; [done|]. split; [by rewrite Hlog; cbn; rewrite <- app_assoc|].
      split; [exists [EvMakedirs (parent t)], hs, sb; repeat split; auto;
                destruct r as [[]|]; intuition auto|].
      split; [right; split; [done|]; by rewrite Hfs|].
      destruct Hhs as [->| ->]; destruct r as [[]|err]; cbn; intuition (subst; auto).
    + exists (Raise err), (logged w [EvMakedirs (parent t)]), [EvMakedirs (parent t)].
      split; [done|]. split; [done|].
      split; [exists [EvMakedirs (parent t)], [], []; repeat split; auto|].
      split; [by left|]. by repeat split.
Qed.

(** ** The pool *)

Lemma pool_extends_refl (w : world) : pool_extends w w.
Proof. by split. Qed.

Lemma pool_extends_trans (w1 w2 w3 : world) :
  pool_extends w1 w2 -> pool_extends w2 w3 -> pool_extends w1 w3.
Proof. intros [H1 H2] [H3 H4]. split; [congruence|]. intros j t r H. eauto. Qed.

Lemma pool_extends_length (w w' : world) :
  pool_extends w w' -> length (pool w') = length (pool w).
Proof.
  intros [H _]. apply (f_equal length) in H. by rewrite !length_fmap in H.
Qed.

Lemma pool_extends_logged (w : world) (evs : list event) : pool_extends w (logged w evs).
Proof. by split. Qed.

Section Pool.
Context {C : Type} (dbx : Dropbox C).

Lemma complete_log (w : world) (i : nat) : log (complete dbx w i) = log w.
Proof.
  unfold complete. destruct (pool w !! i) as [[t [r|]]|]; try done.
  by destruct (run_task dbx t (fs w)).
Qed.

Lemma run_task_cwd (t : task) (f : filesystem) :
  cwd (snd (run_task dbx t f)) = cwd f.
Proof.
  unfold run_task. destruct (sharing_get_shared_link_file _ _ _); [|done].
  destruct (write_file _ _ _) eqn:E; [|done]. cbn. by eapply write_file_cwd.
Qed.

Lemma complete_cwd (w : world) (i : nat) : cwd (fs (complete dbx w i)) = cwd (fs w).
Proof.
  unfold complete. destruct (pool w !! i) as [[t [r|]]|]; try done.
  pose proof (run_task_cwd t (fs w)). by destruct (run_task dbx t (fs w)).
Qed.

Lemma complete_extends (w : world) (i : nat) : pool_extends w (complete dbx w i).
Proof.
  unfold complete. destruct (pool w !! i) as [[t [r|]]|] eqn:E;
    try apply pool_extends_refl.
  destruct (run_task dbx t (fs w)) as [r f]. split; cbn [pool].
  - rewrite list_fmap_insert. apply list_insert_id. by rewrite list_lookup_fmap, E.
  - intros j t' r' Hj. destruct (decide (i = j)) as [->|Hne]; [congruence|].
    by rewrite list_lookup_insert_ne.
Qed.

Lemma complete_done (w : world) (i : nat) :
  i < length (pool w) -> exists t r, pool (complete dbx w i) !! i = Some (t, Some r).
Proof.
  intros Hlt. unfold complete.
  destruct (pool w !! i) as [[t [r|]]|] eqn:E.
  - rewrite E. by exists t, r.
  - destruct (run_task dbx t (fs w)) as [r f]. cbn [pool]. exists t, r.
    by rewrite list_lookup_insert_eq.
  - apply lookup_ge_None in E. lia.
Qed.

Lemma workers_run (l : list nat) (w : world) :
  workers dbx l w = Some (Ok tt, fold_left (complete dbx) l w).
Proof. reflexivity. Qed.

Lemma fold_complete_log (l : list nat) (w : world) :
  log (fold_left (complete dbx) l w) = log w.
Proof.
  revert w. induction l as [|i l IH]; intros w; [done|].
  cbn. by rewrite IH, complete_log.
Qed.

Lemma fold_complete_cwd (l : list nat) (w : world) :
  cwd (fs (fold_left (complete dbx) l w)) = cwd (fs w).
Proof.
  revert w. induction l as [|i l IH]; intros w; [done|].
  cbn. by rewrite IH, complete_cwd.
Qed.

Lemma fold_complete_extends (l : list nat) (w : world) :
  pool_extends w (fold_left (complete dbx) l w).
Proof.
  revert w. induction l as [|i l IH]; intros w; [apply pool_extends_refl|].
  cbn. eapply pool_extends_trans; [apply complete_extends|apply IH].
Qed.

Lemma fold_complete_done (l : list nat) (w : world) (j : nat) :
  In j l -> j < length (pool w) ->
  exists t r, pool (fold_left (complete dbx) l w) !! j = Some (t, Some r).
Proof.
  revert w. induction l as [|i l IH]; intros w Hin Hlt; [done|].
  cbn [fold_left]. destruct (decide (i = j)) as [->|Hne].
  - destruct (complete_done w j Hlt) as (t & r & Hd). exists t, r.
    by apply (fold_complete_extends l (complete dbx w j)).
  - destruct Hin as [?|Hin]; [done|]. apply IH; [done|].
    by rewrite (pool_extends_length _ _ (complete_extends w i)).
Qed.

(** Leaving the [with] block: every task has run. *)
Lemma shutdown_all_done (l : list nat) (w : world) :
  Forall done (pool (shutdown dbx l w)).
Proof.
  apply Forall_lookup_2. intros j [t st] Hj. unfold shutdown in Hj.
  assert (j < length (pool w)) as Hlt.
  { rewrite <- (pool_extends_length _ _ (fold_complete_extends
                (l ++ seq 0 (length (pool w))) w)).
    by eapply lookup_lt_Some. }
  destruct (fold_complete_done (l ++ seq 0 (length (pool w))) w j)
    as (t' & r & Hd); [|done|].
  - apply in_or_app. right. apply in_seq. lia.
  - rewrite Hd in Hj. inversion Hj; subst. by eexists.
Qed.

Lemma future_result_run (i : nat) (w : world) :
  i < length (pool w) ->
  exists t r,
    pool (complete dbx w i) !! i = Some (t, Some r)
    /\ future_result dbx i w = Some (r, logged (complete dbx w i) [EvResult i]).
Proof.
  intros Hlt. destruct (complete_done w i Hlt) as (t & r & Hd).
  exists t, r. split; [done|].
  unfold future_result. unfold bind at 1. rewrite workers_run. cbn [fold_left].
  unfold bind, emit. cbn [pool fs log]. by rewrite Hd.
Qed.

(** The second loop, on the futures from [i] on: it returns what the first
    failed future among them raised, having joined the futures up to it. *)
Lemma join_loop_spec (sched : schedule) (m : nat) :
  forall (i k : nat) (w : world),
    i + m = length (pool w) ->
    exists r w',
      join_loop sched dbx k (seq i m) w = Some (r, w')
      /\ pool_extends w w'
      /\ forall w2, pool_extends w' w2 ->
           r = first_error (drop i (pool w2))
           /\ log w' = log w ++ map EvResult (seq i (joined (drop i (pool w2)))).
Proof.
  induction m as [|m IH]; intros i k w Hlen.
  - exists (Ok tt), w. split; [done|]. split; [apply pool_extends_refl|].
    intros w2 Hext. rewrite drop_ge
      by (rewrite (pool_extends_length _ _ Hext); lia).
    cbn. by rewrite app_nil_r.
  - cbn [seq join_loop]. unfold bind at 1. rewrite workers_run.
    set (wa := fold_left (complete dbx) (sched k) w).
    assert (pool_extends w wa) as Hwa by apply fold_complete_extends.
    assert (log wa = log w) as Hlog by apply fold_complete_log.
    destruct (future_result_run i wa) as (t & r & Hd & Hrun);
      [rewrite (pool_extends_length _ _ Hwa); lia|].
    set (wb := logged (complete dbx wa i) [EvResult i]) in *.
    assert (pool_extends w wb) as Hwb.
    { eapply pool_extends_trans; [exact Hwa|].
      eapply pool_extends_trans; [apply complete_extends|apply pool_extends_logged]. }
    unfold bind at 1. rewrite Hrun.
    destruct r as [[]|e].
    + destruct (IH (S i) (S k) wb) as (r & w' & Hjoin & Hext & Hall).
      { rewrite (pool_extends_length _ _ Hwb). lia. }
      exists r, w'. split; [done|].
      split; [by eapply pool_extends_trans|].
      intros w2 Hext2. destruct (Hall w2 Hext2) as [Hr Hlog'].
      assert (pool w2 !! i = Some (t, Some (Ok tt))) as Hi.
      { apply Hext2, Hext. exact Hd. }
      rewrite (drop_S _ _ _ Hi). cbn [first_error joined seq map].
      split; [done|]. rewrite Hlog'. unfold wb. cbn [log logged].
      rewrite complete_log, Hlog. by rewrite <- app_assoc.
    + exists (Raise e), wb. split; [done|]. split; [done|].
      intros w2 Hext2.
      assert (pool w2 !! i = Some (t, Some (Raise e))) as Hi.
      { apply Hext2. exact Hd. }
      rewrite (drop_S _ _ _ Hi). cbn [first_error joined seq map].
      split; [done|]. unfold wb. cbn [log logged]. by rewrite complete_log, Hlog.
Qed.
End Pool.

(** ** The two loops of the scheduler *)

Lemma results_are_results (l : list nat) : forallb is_result (map EvResult l) = true.
Proof. induction l as [|i l IH]; [done|exact IH]. Qed.

Section Scheduler.
Context {C : Type} (sched : schedule) (dbx : Dropbox C).
Variables target_dir link_root : string.

(** The first loop: one block of events per entry, up to an entry whose
    planning raised. *)
Lemma plan_loop_spec (files : list entry) :
  forall (k : nat) (w : world),
    exists r w' blks,
      plan_loop sched dbx target_dir link_root k files w = Some (r, w')
      /\ log w' = log w ++ concat blks
      /\ Forall2 (entry_block target_dir link_root) (take (length blks) files) blks
      /\ (r = Ok tt -> length blks = length files).
Proof.
  induction files as [|e files IH]; intros k w.
  - exists (Ok tt), w, []. cbn. rewrite app_nil_r. by repeat split.
  - cbn [plan_loop]. unfold bind at 1. rewrite workers_run.
    set (wa := fold_left (complete dbx) (sched k) w).
    assert (log wa = log w) as Hlog by apply fold_complete_log.
    destruct (plan_entry_spec target_dir link_root e wa)
      as (r1 & w1 & blk & Hrun & Hlog1 & Hblk & _ & _).
    unfold bind at 1. rewrite Hrun. destruct r1 as [[]|err].
    + destruct (IH (S k) w1) as (r & w' & blks & Hloop & Hlog' & Hall & Hlen).
      exists r, w', (blk :: blks). split; [done|].
      split; [by rewrite Hlog', Hlog1, Hlog; cbn; rewrite <- app_assoc|].
      split; [by constructor|]. intros Hr. cbn. by rewrite Hlen.
    + exists (Raise err), w1, [blk]. split; [done|].
      split; [by rewrite Hlog1, Hlog; cbn; rewrite app_nil_r|].
      split; [by repeat constructor|]. done.
Qed.

(** C5, as the code has it: the events of [download_file_list] are the
    planning of the entries, one after the other, followed by the waiting
    for results.  The planning of one entry is its [os.makedirs], then its
    hash comparison, then its [pool.submit], each at most once: a task is
    submitted during the planning pass, before the later entries are
    planned.  Results are waited for only after the planning of the whole
    manifest. *)
Theorem submit_follows_own_planning (files : list entry) (n_parallel : Z) (w : world) :
  exists r w2 blks joins,
    download_file_list sched dbx files target_dir link_root n_parallel w = Some (r, w2)
    /\ log w2 = log w ++ concat blks ++ joins
    /\ Forall2 (entry_block target_dir link_root) (take (length blks) files) blks
    /\ forallb is_result joins = true
    /\ (joins <> [] -> length blks = length files).
Proof.
  unfold download_file_list. destruct (n_parallel <=? 0)%Z.
  { exists (Raise ValueError), w, [], []. cbn. rewrite app_nil_r. by repeat split. }
  set (w0 := {| fs := fs w; log := log w; pool := [] |}).
  destruct (plan_loop_spec files 0 w0) as (r1 & w1 & blks & Hplan & Hlog1 & Hall & Hlen).
  unfold bind at 1. rewrite Hplan. destruct r1 as [[]|err].
  - destruct (join_loop_spec dbx sched (length (pool w1)) 0 (length files) w1)
      as (r & w' & Hjoin & Hext & Hfinal); [done|].
    rewrite Hjoin.
    set (w2 := shutdown dbx (sched (length files + length (pool w'))) w').
    assert (pool_extends w' w2) as Hext2 by apply fold_complete_extends.
    destruct (Hfinal w2 Hext2) as [_ Hlog'].
    exists r, w2, blks, (map EvResult (seq 0 (joined (drop 0 (pool w2))))).
    split; [done|].
    split; [unfold w2, shutdown; rewrite fold_complete_log, Hlog', Hlog1;
            by rewrite <- app_assoc|].
    split; [done|].
    split; [apply results_are_results|]. auto.
  - exists (Raise err), (shutdown dbx (sched (length files + length (pool w1))) w1),
      blks, [].
    split; [done|].
    split; [unfold shutdown; by rewrite fold_complete_log, Hlog1, app_nil_r|].
    by repeat split.
Qed.

(** After the planning pass: the waiting, and the end of the [with] block. *)
Lemma after_planning (files : list entry) (n_parallel : Z) (w w1 : world) :
  (0 < n_parallel)%Z ->
  plan_loop sched dbx target_dir link_root 0 files
    {| fs := fs w; log := log w; pool := [] |} = Some (Ok tt, w1) ->
  exists r wj,
    join_loop sched dbx (length files) (seq 0 (length (pool w1))) w1 = Some (r, wj)
    /\ download_file_list sched dbx files target_dir link_root n_parallel w
       = Some (r, shutdown dbx (sched (length files + length (pool wj))) wj)
    /\ fst <$> pool (shutdown dbx (sched (length files + length (pool wj))) wj)
       = fst <$> pool w1
    /\ Forall done (pool (shutdown dbx (sched (length files + length (pool wj))) wj))
    /\ r = first_error (pool (shutdown dbx (sched (length files + length (pool wj))) wj))
    /\ log (shutdown dbx (sched (length files + length (pool wj))) wj)
       = log w1 ++ map EvResult
           (seq 0 (joined (pool (shutdown dbx
                                   (sched (length files + length (pool wj))) wj)))).
Proof.
  intros Hn Hplan. unfold download_file_list.
  destruct (Z.leb_spec n_parallel 0) as [?|_]; [lia|].
  unfold bind at 1. rewrite Hplan.
  destruct (join_loop_spec dbx sched (length (pool w1)) 0 (length files) w1)
    as (r & w' & Hjoin & Hext & Hfinal); [done|].
  rewrite Hjoin.
  set (w2 := shutdown dbx (sched (length files + length (pool w'))) w').
  assert (pool_extends w' w2) as Hext2 by apply fold_complete_extends.
  destruct (Hfinal w2 Hext2) as [Hr Hlog'].
  exists r, w'. fold w2. split; [done|]. split; [done|].
  split; [destruct Hext as [H1 _], Hext2 as [H2 _]; by rewrite H2, H1|].
  split; [apply shutdown_all_done|]. split; [exact Hr|].
  unfold w2, shutdown. rewrite fold_complete_log. exact Hlog'.
Qed.
End Scheduler.

(** C2, as the code has it: the planning of an entry always comes to an
    end.  When it returns, no task was enqueued if the target is a file whose
    content hash is the entry's hash, and exactly one task, the entry's, was
    enqueued otherwise.  When it raises (the target is a directory, or
    [os.makedirs] failed), the entry was not up to date and no task was
    enqueued for it. *)
Theorem plan_entry_enqueues (target_dir link_root : string) (e : entry) (w : world) :
  exists r w',
    plan_entry target_dir link_root e w = Some (r, w')
    /\ match r with
       | Ok _ =>
           pool w' = pool w ++ (if up_to_date (fs w) target_dir e then []
                                else [(task_of target_dir link_root e, None)])
       | Raise _ => pool w' = pool w /\ up_to_date (fs w) target_dir e = false
       end.
Proof.
  destruct (plan_entry_spec target_dir link_root e w)
    as (r & w' & blk & Hrun & _ & _ & _ & Hr).
  exists r, w'. split; [done|]. destruct r as [[]|err].
  - destruct (up_to_date _ _ _); destruct Hr as [_ ->]; by rewrite ?app_nil_r.
  - by destruct Hr as (_ & -> & ->).
Qed.

(** ** The scheduler on the sample worlds *)

(** With a directory where the file should go, [db_content_hash] raises
    [IsADirectoryError] and no task is enqueued, although the entry is not up
    to date. *)
Lemma directory_at_target_not_enqueued :
  ~ enqueues_unless_up_to_date "out" "LINK" (EmptyString, "a.txt", Sample.H1, 10%Z) Sample.w_dir.
Proof. intros (w' & Hrun & _). vm_compute in Hrun. discriminate. Qed.

Example directory_at_target_run :
  up_to_date (fs Sample.w_dir) "out" (EmptyString, "a.txt", Sample.H1, 10%Z) = false
  /\ exists w',
       download_file_list Sample.lazy Sample.good_server [(EmptyString, "a.txt", Sample.H1, 10%Z)]
         "out" "LINK" 1 Sample.w_dir = Some (Raise IsADirectoryError, w')
       /\ pool w' = [].
Proof. split; [by vm_compute|]. eexists. split; by vm_compute. Qed.

(** The scenario of the manifest [a.txt], [sub/b.txt] with [out/a.txt] in
    place: one task, for [b.txt]. *)
Example one_task_when_first_file_is_there :
  exists w',
    download_file_list Sample.lazy Sample.good_server Sample.two_files "out" "LINK" 1
      Sample.w_have = Some (Ok tt, w')
    /\ pool w'
       = [({| t_target := {| anchored := false; parts := ["out"; "sub"; "b.txt"] |};
              t_link := "LINK"; t_remote := "/sub/b.txt" |}, Some (Ok tt))]
    /\ filter is_submit (log w')
       = [EvSubmit {| t_target := {| anchored := false; parts := ["out"; "sub"; "b.txt"] |};
                      t_link := "LINK"; t_remote := "/sub/b.txt" |}].
Proof. eexists. split; [by vm_compute|]. split; by vm_compute. Qed.

(** In an empty target directory [out/sub] is made after the download of
    [a.txt] was submitted. *)
Lemma directory_made_after_a_submit :
  ~ plans_before_any_dispatch Sample.lazy Sample.good_server Sample.two_files
      "out" "LINK" 1 Sample.w0.
Proof.
  intros H.
  specialize (H (Ok tt)
    (Sample.world_after (download_file_list Sample.lazy Sample.good_server
                           Sample.two_files "out" "LINK" 1 Sample.w0))).
  vm_compute in H. by specialize (H eq_refl).
Qed.

Example events_of_two_downloads :
  log (Sample.world_after (download_file_list Sample.lazy Sample.good_server
                             Sample.two_files "out" "LINK" 1 Sample.w0))
  = [ EvMakedirs {| anchored := false; parts := ["out"] |};
      EvSubmit {| t_target := {| anchored := false; parts := ["out"; "a.txt"] |};
                  t_link := "LINK"; t_remote := "/a.txt" |};
      EvMakedirs {| anchored := false; parts := ["out"; "sub"] |};
      EvSubmit {| t_target := {| anchored := false; parts := ["out"; "sub"; "b.txt"] |};
                  t_link := "LINK"; t_remote := "/sub/b.txt" |};
      EvResult 0; EvResult 1 ].
Proof. by vm_compute. Qed.

(** One download fails ([/sub/b.txt], the third task): the run raises its
    error, and the fourth task has run all the same and written its file. *)
Example later_task_still_writes :
  exists w',
    download_file_list Sample.lazy Sample.server Sample.manifest "out" "LINK" 1 Sample.w0
    = Some (Raise (ApiError "not_found"), w')
    /\ map snd (pool w')
       = [Some (Ok tt); Some (Ok tt); Some (Raise (ApiError "not_found")); Some (Ok tt)]
    /\ filter is_result (log w') = [EvResult 0; EvResult 1; EvResult 2]
    /\ file_at (fs w') {| anchored := false; parts := ["out"; "sub"; "deep"; "c"] |}
       = Some (SHA256.bytes_of_string "/sub/deep/c").
Proof. eexists. split; [by vm_compute|]. repeat split; by vm_compute. Qed.

(** ** Running the scheduler a second time *)

Lemma up_to_date_true (f : filesystem) (target_dir link_root : string) (e : entry) :
  up_to_date f target_dir e = true <->
  exists d,
    walk (root f) (absolute (cwd f) (t_target (task_of target_dir link_root e)))
    = Some (File d)
    /\ content_hash d = Some (snd (fst e)).
Proof.
  destruct e as [[[path name] h] size]. unfold up_to_date, file_at.
  cbn [task_of t_target fst snd].
  destruct (walk _ _) as [[d|m]|]; [|split; [done|by intros (? & ? & ?)]..].
  split.
  - intros H. exists d. split; [done|]. destruct (content_hash d) as [h'|]; [|done].
    by apply String.eqb_eq in H as ->.
  - intros (d' & Hd & Hh). inversion Hd; subst d'. rewrite Hh. apply String.eqb_refl.
Qed.

Lemma first_error_ok (futures : list future) :
  Forall done futures -> first_error futures = Ok tt ->
  forall i t st, futures !! i = Some (t, st) -> st = Some (Ok tt).
Proof.
  induction futures as [|[t0 [[[]|e]|]] l IH]; intros Hdone Hok i t st Hi;
    try done; inversion Hdone as [|? ? Hd Hdl]; subst.
  - destruct i as [|i]; cbn in Hi; [by inversion Hi|]. by eapply IH.
  - by destruct Hd.
Qed.

Section Again.
Context {C : Type} (dbx : Dropbox C).
Variables (target_dir link_root : string) (files : list entry) (here : list string).

(** Every transfer delivers bytes whose content hash is the entry's hash. *)
Hypothesis transfers_match :
  forall path name h size body,
    In (path, name, h, size) files ->
    sharing_get_shared_link_file dbx link_root (slash_join path name) = Ok body ->
    content_hash body = Some h.

(** Entries with the same target have the same hash. *)
Hypothesis same_target_same_hash :
  forall e e', In e files -> In e' files ->
    absolute here (t_target (task_of target_dir link_root e))
    = absolute here (t_target (task_of target_dir link_root e')) ->
    snd (fst e) = snd (fst e').

Local Abbreviation keeps := (stays_up_to_date target_dir files).
Local Abbreviation tracked := (pool_tracks target_dir link_root files here).

Lemma keeps_refl (w : world) : keeps w w.
Proof. by intros e. Qed.

Lemma keeps_trans (w1 w2 w3 : world) : keeps w1 w2 -> keeps w2 w3 -> keeps w1 w3.
Proof. intros H1 H2 e He Hu. by apply H2, H1. Qed.

(** A transfer that went through. *)
Lemma written_up_to_date (f f' : filesystem) (e : entry) (body : list byte) :
  cwd f = here -> In e files ->
  content_hash body = Some (snd (fst e)) ->
  write_file f (PPath (t_target (task_of target_dir link_root e))) body = Ok f' ->
  up_to_date f' target_dir e = true
  /\ forall e', In e' files -> up_to_date f target_dir e' = true ->
                up_to_date f' target_dir e' = true.
Proof.
  intros Hcwd He Hhash Hw. pose proof (write_file_cwd _ _ _ _ Hw) as Hcwd'.
  unfold write_file, update_root in Hw. cbn [locate] in Hw. rewrite Hcwd in Hw.
  destruct (write_at (root f) _ body) as [n'|] eqn:Hat; [|done].
  inversion Hw; subst f'. cbn [cwd] in Hcwd'.
  assert (up_to_date {| cwd := here; root := n' |} target_dir e = true) as Hnew.
  { apply (up_to_date_true _ _ link_root). exists body. split; [|done].
    cbn [cwd root]. by eapply walk_write_at. }
  split; [done|]. intros e' He' Hup.
  destruct (decide (absolute here (t_target (task_of target_dir link_root e))
                    = absolute here (t_target (task_of target_dir link_root e'))))
    as [Heq|Hne].
  - apply (up_to_date_true _ _ link_root) in Hnew as (d & Hd & Hh).
    apply (up_to_date_true _ _ link_root). exists d. cbn [cwd root] in Hd |- *.
    split; [by rewrite <- Heq|].
    by rewrite <- (same_target_same_hash e e' He He' Heq).
  - apply (up_to_date_true _ _ link_root) in Hup as (d & Hd & Hh).
    apply (up_to_date_true _ _ link_root). exists d. split; [|done].
    cbn [cwd root]. rewrite Hcwd in Hd.
    eapply walk_write_at_other; [exact Hat|exact Hne|exact Hd].
Qed.

Lemma complete_tracked (w : world) (enq : list entry) (i : nat) :
  tracked w enq ->
  tracked (complete dbx w i) enq /\ keeps w (complete dbx w i).
Proof.
  intros (Hcwd & Hpool & Hin & Hok). unfold complete.
  destruct (pool w !! i) as [[t [r|]]|] eqn:E;
    try (split; [by repeat split|apply keeps_refl]).
  assert (exists e, enq !! i = Some e /\ t = task_of target_dir link_root e)
    as (e & He & ->).
  { assert ((fst <$> pool w) !! i = Some t) as Ht by by rewrite list_lookup_fmap, E.
    rewrite Hpool, list_lookup_fmap in Ht.
    destruct (enq !! i) as [e|]; [|done]. exists e. split; [done|]. by inversion Ht. }
  assert (In e files) as Hfile
    by (apply Hin; apply list_elem_of_In; by eapply list_elem_of_lookup_2).
  assert (fst <$> <[i:=(task_of target_dir link_root e, Some (Ok tt))]> (pool w)
          = fst <$> pool w) as Hsame_ok.
  { rewrite list_fmap_insert. apply list_insert_id. by rewrite list_lookup_fmap, E. }
  unfold run_task.
  destruct e as [[[path name] h] size] eqn:Ee. cbn [task_of t_link t_remote t_target].
  destruct (sharing_get_shared_link_file dbx link_root (slash_join path name))
    as [body|err] eqn:Hget.
  - pose proof (transfers_match _ _ _ _ _ Hfile Hget) as Hhash.
    destruct (write_file (fs w) _ body) as [f'|err] eqn:Hw.
    + destruct (written_up_to_date (fs w) f' (path, name, h, size) body Hcwd Hfile
                  Hhash Hw) as [Hnew Hkeep].
      split; [|exact Hkeep].
      split; [cbn [fs]; by rewrite (write_file_cwd _ _ _ _ Hw)|].
      cbn [fs pool]. split; [by rewrite <- Hpool|]. split; [done|].
      intros j e' t' He' Hj. destruct (decide (i = j)) as [<-|Hne].
      * rewrite He in He'. inversion He'; subst e'. exact Hnew.
      * rewrite list_lookup_insert_ne in Hj by done.
        apply Hkeep; [apply Hin; apply list_elem_of_In;
                      by eapply list_elem_of_lookup_2|by eapply Hok].
    + split; [|by intros e0 He0 Hu]. split; [done|]. cbn [fs pool].
      split; [rewrite <- Hpool, list_fmap_insert; apply list_insert_id;
              by rewrite list_lookup_fmap, E|].
      split; [done|]. intros j e' t' He' Hj. destruct (decide (i = j)) as [<-|Hne].
      * rewrite list_lookup_insert_eq in Hj by (by eapply lookup_lt_Some).
        by inversion Hj.
      * rewrite list_lookup_insert_ne in Hj by done. by eapply Hok.
  - split; [|by intros e0 He0 Hu]. split; [done|]. cbn [fs pool].
    split; [rewrite <- Hpool, list_fmap_insert; apply list_insert_id;
            by rewrite list_lookup_fmap, E|].
    split; [done|]. intros j e' t' He' Hj. destruct (decide (i = j)) as [<-|Hne].
    + rewrite list_lookup_insert_eq in Hj by (by eapply lookup_lt_Some).
      by inversion Hj.
    + rewrite list_lookup_insert_ne in Hj by done. by eapply Hok.
Qed.

Lemma fold_complete_tracked (l : list nat) (w : world) (enq : list entry) :
  tracked w enq ->
  tracked (fold_left (complete dbx) l w) enq
  /\ keeps w (fold_left (complete dbx) l w).
Proof.
  revert w. induction l as [|i l IH]; intros w Ht; [split; [done|apply keeps_refl]|].
  cbn [fold_left]. destruct (complete_tracked w enq i Ht) as [Ht1 Hk1].
  destruct (IH _ Ht1) as [Ht2 Hk2]. split; [done|]. by eapply keeps_trans.
Qed.

Lemma makedirs_keeps_up_to_date (f f' : filesystem) (p : Path) (e : entry) :
  os_makedirs f (PPath p) = Ok f' ->
  cwd f' = cwd f
  /\ (up_to_date f target_dir e = true -> up_to_date f' target_dir e = true).
Proof.
  rewrite os_makedirs_path. destruct (makedirs_at _ _) as [n'|] eqn:Hat; [|done].
  intros Hf. inversion Hf; subst f'. split; [done|].
  intros (d & Hd & Hh)%(up_to_date_true _ _ link_root).
  apply (up_to_date_true _ _ link_root). exists d. split; [|done].
  cbn [cwd root]. by eapply makedirs_at_keeps_files.
Qed.

Lemma tracked_length (w : world) (enq : list entry) :
  tracked w enq -> length (pool w) = length enq.
Proof.
  intros (_ & Hpool & _). apply (f_equal length) in Hpool.
  by rewrite !length_fmap in Hpool.
Qed.

(** The planning of one entry that went through. *)
Lemma plan_entry_tracked (w w' : world) (enq : list entry) (e : entry) :
  tracked w enq -> In e files ->
  plan_entry target_dir link_root e w = Some (Ok tt, w') ->
  keeps w w'
  /\ (up_to_date (fs w') target_dir e = true /\ tracked w' enq
      \/ tracked w' (enq ++ [e])).
Proof.
  intros Ht He Hrun. pose proof (tracked_length _ _ Ht) as Hlen.
  destruct Ht as (Hcwd & Hpool & Hin & Hok).
  destruct (plan_entry_spec target_dir link_root e w)
    as (r & w0 & blk & Hrun' & _ & _ & Hfs & Hr).
  rewrite Hrun in Hrun'. inversion Hrun'; subst r w0. clear Hrun'.
  assert (cwd (fs w') = cwd (fs w)
          /\ forall e', up_to_date (fs w) target_dir e' = true ->
                        up_to_date (fs w') target_dir e' = true) as [Hcwd' Hkeep].
  { destruct Hfs as [->|[_ Hmk]]; [done|].
    split; [by apply (makedirs_keeps_up_to_date _ _ _ e Hmk)|].
    intros e'. by apply (makedirs_keeps_up_to_date _ _ _ e' Hmk). }
  split; [intros e' _; apply Hkeep|].
  destruct (up_to_date (fs w) target_dir e) eqn:Hup; destruct Hr as [_ Hp].
  - left. split; [by apply Hkeep|].
    split; [congruence|]. split; [by rewrite Hp|]. split; [done|].
    intros i e' t He' Hi. rewrite Hp in Hi. apply Hkeep. by eapply Hok.
  - right. split; [congruence|].
    split; [by rewrite Hp, !fmap_app, Hpool|].
    split; [intros e' [?|[<-|[]]]%in_app_or; auto|].
    intros i e' t He' Hi. rewrite Hp in Hi.
    destruct (decide (i < length enq)) as [Hlt|Hge].
    + rewrite lookup_app_l in He' by done.
      rewrite lookup_app_l in Hi by lia. apply Hkeep. by eapply Hok.
    + rewrite lookup_app_r in Hi by lia.
      destruct (i - length (pool w)) as [|?]; by inversion Hi.
Qed.

Lemma plan_loop_tracked (sched : schedule) (todo : list entry) :
  forall (k : nat) (w w' : world) (enq : list entry),
    tracked w enq -> (forall e, In e todo -> In e files) ->
    plan_loop sched dbx target_dir link_root k todo w = Some (Ok tt, w') ->
    exists enq',
      tracked w' enq' /\ keeps w w'
      /\ (forall e, In e enq -> In e enq')
      /\ forall e, In e todo -> up_to_date (fs w') target_dir e = true \/ In e enq'.
Proof.
  induction todo as [|e todo IH]; intros k w w' enq Ht Hsub Hrun.
  - inversion Hrun; subst. exists enq.
    split; [done|]. split; [apply keeps_refl|]. split; [done|]. by intros e [].
  - cbn [plan_loop] in Hrun.
    apply bind_inv in Hrun as [(err & H & ?)|([] & wa & Hwa & Hrun)]; [done|].
    rewrite workers_run in Hwa. inversion Hwa; subst wa. clear Hwa.
    destruct (fold_complete_tracked (sched k) w enq Ht) as [Hta Hka].
    set (wa := fold_left (complete dbx) (sched k) w) in *.
    apply bind_inv in Hrun as [(err & H & ?)|([] & wb & Hwb & Hrun)]; [done|].
    destruct (plan_entry_tracked wa wb enq e Hta (Hsub e (or_introl eq_refl)) Hwb)
      as [Hkb Hcase].
    assert (exists enq1, tracked wb enq1 /\ (forall x, In x enq -> In x enq1)
              /\ (up_to_date (fs wb) target_dir e = true \/ In e enq1))
      as (enq1 & Htb & Hmono & He).
    { destruct Hcase as [[Hup Htb]|Htb].
      - exists enq. split; [done|]. split; [done|]. by left.
      - exists (enq ++ [e]). split; [done|]. split.
        + intros x Hx. apply in_or_app. by left.
        + right. apply in_or_app. right. by left. }
    destruct (IH (S k) wb w' enq1 Htb (fun x Hx => Hsub x (or_intror Hx)) Hrun)
      as (enq' & Ht' & Hk' & Hmono' & Hall).
    exists enq'. split; [done|].
    split; [eapply keeps_trans; [exact Hka|]; by eapply keeps_trans|].
    split; [auto|]. intros x [<-|Hx]; [|by apply Hall].
    destruct He as [Hup|Hin]; [left|right; by apply Hmono'].
    apply Hk'; [by apply Hsub; left|done].
Qed.

Lemma join_loop_tracked (sched : schedule) (l : list nat) :
  forall (k : nat) (w w' : world) (enq : list entry) (r : result unit),
    tracked w enq ->
    join_loop sched dbx k l w = Some (r, w') ->
    tracked w' enq /\ keeps w w'.
Proof.
  induction l as [|i l IH]; intros k w w' enq r Ht Hrun.
  - inversion Hrun; subst. split; [done|apply keeps_refl].
  - cbn [join_loop] in Hrun.
    apply bind_inv in Hrun as [(err & H & ?)|([] & wa & Hwa & Hrun)]; [done|].
    rewrite workers_run in Hwa. inversion Hwa; subst wa. clear Hwa.
    destruct (fold_complete_tracked (sched k) w enq Ht) as [Hta Hka].
    set (wa := fold_left (complete dbx) (sched k) w) in *.
    destruct (complete_tracked wa enq i Hta) as [Htb Hkb].
    assert (forall r' w1, future_result dbx i wa = Some (r', w1) ->
              w1 = logged (complete dbx wa i) [EvResult i]) as Hfut.
    { intros r' w1. unfold future_result. unfold bind at 1. rewrite workers_run.
      cbn [fold_left]. unfold bind, emit. cbn [pool fs log].
      destruct (pool (complete dbx wa i) !! i) as [[? [?|]]|]; by inversion 1. }
    apply bind_inv in Hrun as [(err & H & ?)|([] & wb & Hwb & Hrun)].
    + apply Hfut in H. subst w'. split; [exact Htb|].
      eapply keeps_trans; [exact Hka|exact Hkb].
    + apply Hfut in Hwb. subst wb.
      assert (tracked (logged (complete dbx wa i) [EvResult i]) enq) as Htc
        by exact Htb.
      assert (keeps wa (logged (complete dbx wa i) [EvResult i])) as Hkc
        by exact Hkb.
      destruct (IH (S k) _ w' enq r Htc Hrun) as [Ht' Hk'].
      split; [done|]. eapply keeps_trans; [exact Hka|]. by eapply keeps_trans.
Qed.

(** After a run that returned, every entry is up to date. *)
Lemma all_up_to_date_after (sched : schedule) (n_parallel : Z) (w w1 : world) :
  cwd (fs w) = here ->
  download_file_list sched dbx files target_dir link_root n_parallel w
  = Some (Ok tt, w1) ->
  (0 < n_parallel)%Z
  /\ forall e, In e files -> up_to_date (fs w1) target_dir e = true.
Proof.
  intros Hcwd Hrun.
  assert (0 < n_parallel)%Z as Hn.
  { unfold download_file_list in Hrun.
    destruct (Z.leb_spec n_parallel 0); [by inversion Hrun|lia]. }
  split; [done|].
  set (w0 := {| fs := fs w; log := log w; pool := [] |}).
  destruct (plan_loop sched dbx target_dir link_root 0 files w0)
    as [[[[]|err] wp]|] eqn:Hplan.
  - destruct (after_planning sched dbx target_dir link_root files n_parallel w wp
                Hn Hplan) as (r & wj & Hjoin & Hrun' & _ & Hdone & Hr & _).
    assert (Ok tt = r
            /\ w1 = shutdown dbx (sched (length files + length (pool wj))) wj)
      as [<- Hw1] by (rewrite Hrun in Hrun'; by inversion Hrun').
    rewrite <- Hw1 in Hdone, Hr. clear Hrun'.
    assert (tracked w0 []) as Ht0 by (by repeat split).
    destruct (plan_loop_tracked sched files 0 w0 wp [] Ht0 (fun e He => He) Hplan)
      as (enq & Htp & _ & _ & Hall).
    destruct (join_loop_tracked sched _ _ wp wj enq _ Htp Hjoin) as [Htj Hkj].
    destruct (fold_complete_tracked
                (sched (length files + length (pool wj))
                   ++ seq 0 (length (pool wj))) wj enq Htj) as [Ht1 Hk1].
    fold (shutdown dbx (sched (length files + length (pool wj))) wj) in Ht1, Hk1.
    rewrite <- Hw1 in Ht1, Hk1.
    intros e He. destruct (Hall e He) as [Hup|Hin].
    + by apply Hk1, Hkj.
    + apply list_elem_of_In, list_elem_of_lookup_1 in Hin as [i Hi].
      pose proof (tracked_length _ _ Ht1) as Hlen.
      destruct (lookup_lt_is_Some_2 (pool w1) i) as [[t st] Hti].
      { rewrite Hlen. by eapply lookup_lt_Some. }
      pose proof (first_error_ok (pool w1) Hdone (eq_sym Hr) i t st Hti) as ->.
      destruct Ht1 as (_ & _ & _ & Hok). by eapply Hok.
  - unfold download_file_list in Hrun.
    destruct (Z.leb_spec n_parallel 0); [lia|].
    unfold bind at 1 in Hrun. fold w0 in Hrun. rewrite Hplan in Hrun. by inversion Hrun.
  - unfold download_file_list in Hrun.
    destruct (Z.leb_spec n_parallel 0); [lia|].
    unfold bind at 1 in Hrun. fold w0 in Hrun. rewrite Hplan in Hrun. by inversion Hrun.
Qed.
End Again.

Lemma complete_empty_pool {C} (dbx : Dropbox C) (w : world) (i : nat) :
  pool w = [] -> complete dbx w i = w.
Proof. intros H. unfold complete. by rewrite H. Qed.

Lemma fold_complete_empty_pool {C} (dbx : Dropbox C) (l : list nat) (w : world) :
  pool w = [] -> fold_left (complete dbx) l w = w.
Proof.
  intros H. induction l as [|i l IH]; [done|].
  cbn [fold_left]. by rewrite complete_empty_pool.
Qed.

Lemma entry_block_no_result (target_dir link_root : string) (e : entry)
    (blk : list event) :
  entry_block target_dir link_root e blk -> filter is_result blk = [].
Proof.
  intros (mk & hs & sb & -> & [->| ->] & [->| ->] & [->| ->]); reflexivity.
Qed.

(** An entry that is up to date is passed over. *)
Lemma plan_entry_up_to_date (target_dir link_root : string) (e : entry) (w : world) :
  up_to_date (fs w) target_dir e = true ->
  exists blk,
    plan_entry target_dir link_root e w = Some (Ok tt, logged w blk)
    /\ filter is_submit blk = [] /\ filter is_result blk = [].
Proof.
  intros Hup.
  destruct (plan_entry_spec target_dir link_root e w)
    as (r & w' & blk & Hrun & Hlog & Hblk & Hfs & Hr).
  destruct r as [[]|err]; [|destruct Hr as (_ & _ & Hno); congruence].
  rewrite Hup in Hr. destruct Hr as [Hsub Hpool].
  assert (fs w' = fs w) as Hfs'.
  { destruct Hfs as [?|[Hno _]]; [done|]. exfalso.
    rewrite (task_target target_dir link_root e) in Hno.
    apply not_up_to_date_without_parent in Hno as [_ Hno]. congruence. }
  exists blk. split; [|split; [done|by eapply entry_block_no_result]].
  rewrite Hrun. f_equal. f_equal. destruct w'. unfold logged. cbn in *. congruence.
Qed.

(** The first loop on a manifest that is up to date throughout. *)
Lemma plan_loop_up_to_date {C} (sched : schedule) (dbx : Dropbox C)
    (target_dir link_root : string) (files : list entry) :
  forall (k : nat) (w : world),
    pool w = [] ->
    (forall e, In e files -> up_to_date (fs w) target_dir e = true) ->
    exists evs,
      plan_loop sched dbx target_dir link_root k files w = Some (Ok tt, logged w evs)
      /\ filter is_submit evs = [] /\ filter is_result evs = [].
Proof.
  induction files as [|e files IH]; intros k w Hpool Hall.
  - exists []. by rewrite logged_nil.
  - cbn [plan_loop]. unfold bind at 1. rewrite workers_run.
    rewrite (fold_complete_empty_pool dbx (sched k) w Hpool).
    destruct (plan_entry_up_to_date target_dir link_root e w (Hall e (or_introl eq_refl)))
      as (blk & Hrun & Hsub & Hres).
    unfold bind at 1. rewrite Hrun.
    destruct (IH (S k) (logged w blk) Hpool (fun x Hx => Hall x (or_intror Hx)))
      as (evs & Hloop & Hsub' & Hres').
    exists (blk ++ evs). rewrite Hloop, logged_app.
    split; [done|]. by rewrite !filter_app, Hsub, Hsub', Hres, Hres'.
Qed.

(** C4: when a run of [download_file_list] has returned, and every transfer
    delivered bytes whose content hash is the entry's hash (so that two
    entries with one target have one hash), a second run on the same manifest
    and target directory, in the world the first run left, returns as well:
    it submits no task (its pool stays empty), waits for no result, and
    leaves the file system as it is.  This holds for every schedule of the
    workers in both runs. *)
Theorem second_run_transfers_nothing {C C'} (sched sched' : schedule)
    (dbx : Dropbox C) (dbx' : Dropbox C') (target_dir link_root : string)
    (files : list entry) (n_parallel : Z) (w w1 : world) :
  (forall path name h size body,
      In (path, name, h, size) files ->
      sharing_get_shared_link_file dbx link_root (slash_join path name) = Ok body ->
      content_hash body = Some h) ->
  (forall e e', In e files -> In e' files ->
      absolute (cwd (fs w)) (t_target (task_of target_dir link_root e))
      = absolute (cwd (fs w)) (t_target (task_of target_dir link_root e')) ->
      snd (fst e) = snd (fst e')) ->
  download_file_list sched dbx files target_dir link_root n_parallel w = Some (Ok tt, w1) ->
  exists w2 evs,
    download_file_list sched' dbx' files target_dir link_root n_parallel w1
    = Some (Ok tt, w2)
    /\ pool w2 = []
    /\ fs w2 = fs w1
    /\ log w2 = log w1 ++ evs
    /\ filter is_submit evs = []
    /\ filter is_result evs = [].
Proof.
  intros Hmatch Hdistinct Hrun.
  destruct (all_up_to_date_after dbx target_dir link_root files (cwd (fs w))
              Hmatch Hdistinct sched n_parallel w w1 eq_refl Hrun) as [Hn Hall].
  set (w0 := {| fs := fs w1; log := log w1; pool := [] |}).
  destruct (plan_loop_up_to_date sched' dbx' target_dir link_root files 0 w0 eq_refl Hall)
    as (evs & Hplan & Hsub & Hres).
  exists (logged w0 evs), evs.
  split; [|by repeat split].
  unfold download_file_list. destruct (Z.leb_spec n_parallel 0) as [?|_]; [lia|].
  unfold bind at 1. fold w0. rewrite Hplan.
  change (pool (logged w0 evs)) with (@nil future). cbn [length seq join_loop ret].
  unfold shutdown. by rewrite fold_complete_empty_pool.
Qed.


(** ** The second run on the sample *)

Lemma sample_transfers_match (path name h : string) (size : Z) (body : list byte) :
  In (path, name, h, size) Sample.two_files ->
  sharing_get_shared_link_file Sample.good_server "LINK" (slash_join path name) = Ok body ->
  content_hash body = Some h.
Proof.
  intros Hin Hget. unfold Sample.two_files in Hin.
  remember Sample.H1 as h1 eqn:Hh1. remember Sample.H2 as h2 eqn:Hh2.
  destruct Hin as [E|[E|[]]]; injection E as <- <- <- <-;
    vm_compute in Hget; injection Hget as <-.
  - rewrite Hh1. unfold Sample.H1.
    change [x68; x65; x6c; x6c; x6f] with Sample.a_bytes.
    rewrite content_hash_total. reflexivity.
  - rewrite Hh2. unfold Sample.H2.
    change [x2f; x73; x75; x62; x2f; x62; x2e; x74; x78; x74]
      with (SHA256.bytes_of_string "/sub/b.txt").
    rewrite content_hash_total. reflexivity.
Qed.

Lemma sample_same_target_same_hash (e e' : entry) :
  In e Sample.two_files -> In e' Sample.two_files ->
  absolute (cwd (fs Sample.w0)) (t_target (task_of "out" "LINK" e))
  = absolute (cwd (fs Sample.w0)) (t_target (task_of "out" "LINK" e')) ->
  snd (fst e) = snd (fst e').
Proof.
  unfold Sample.two_files.
  remember Sample.H1 as h1 eqn:Hh1. remember Sample.H2 as h2 eqn:Hh2.
  intros [<-|[<-|[]]] [<-|[<-|[]]] Heq; try reflexivity; vm_compute in Heq; discriminate.
Qed.

Lemma second_run_transfers_nothing_witness :
  exists w2 evs,
    download_file_list Sample.eager Sample.broken_transfers Sample.two_files "out" "LINK" 1
      (Sample.world_after
         (download_file_list Sample.lazy Sample.good_server Sample.two_files
            "out" "LINK" 1 Sample.w0))
    = Some (Ok tt, w2)
    /\ pool w2 = []
    /\ fs w2 = fs (Sample.world_after
                     (download_file_list Sample.lazy Sample.good_server Sample.two_files
                        "out" "LINK" 1 Sample.w0))
    /\ log w2 = log (Sample.world_after
                       (download_file_list Sample.lazy Sample.good_server
                          Sample.two_files "out" "LINK" 1 Sample.w0)) ++ evs
    /\ filter is_submit evs = []
    /\ filter is_result evs = [].
Proof.
  apply (second_run_transfers_nothing Sample.lazy Sample.eager Sample.good_server
           Sample.broken_transfers "out" "LINK" Sample.two_files 1 Sample.w0
           (Sample.world_after
              (download_file_list Sample.lazy Sample.good_server Sample.two_files
                 "out" "LINK" 1 Sample.w0))).
  - exact sample_transfers_match.
  - exact sample_same_target_same_hash.
  - vm_compute. reflexivity.
Defined.

Lemma db_content_hash_chunks_witness :
  db_content_hash (PStr "empty")
    {| fs := {| cwd := []; root := Dir {[ "empty" := File [] ]} |}; log := []; pool := [] |}
  = Some (Ok (chunked_sha256_hex (N.to_nat CHUNK_SIZE) (@nil byte)),
          {| fs := {| cwd := []; root := Dir {[ "empty" := File [] ]} |};
             log := []; pool := [] |})
  /\ CHUNK_SIZE = (4 * 1024 * 1024)%N
  /\ (@nil byte = [] ->
      fixed_chunks (N.to_nat CHUNK_SIZE) (@nil byte) = []
      /\ db_content_hash (PStr "empty")
           {| fs := {| cwd := []; root := Dir {[ "empty" := File [] ]} |};
              log := []; pool := [] |}
         = Some (Ok "e3b0c44298fc1c149afbf4c8996fb92427ae41e4649b934ca495991b7852b855"%string,
                 {| fs := {| cwd := []; root := Dir {[ "empty" := File [] ]} |};
                    log := []; pool := [] |})).
Proof.
  apply (db_content_hash_chunks
           {| fs := {| cwd := []; root := Dir {[ "empty" := File [] ]} |};
              log := []; pool := [] |} (PStr "empty") []).
  vm_compute. reflexivity.
Defined.

(** ** Further properties of the content hash *)

Lemma round_length (s : list N) (kw : N * N) :
  length (SHA256.round s kw) = length s.
Proof.
  unfold SHA256.round.
  destruct s as [|a [|b [|c [|d [|e [|f [|g [|h [|x s]]]]]]]]]; reflexivity.
Qed.

Lemma fold_round_length (l : list (N * N)) (s : list N) :
  length (fold_left SHA256.round l s) = length s.
Proof.
  revert s. induction l as [|kw l IH]; intros s; [reflexivity|].
  cbn [fold_left]. rewrite IH. apply round_length.
Qed.

Lemma compress_length (h block : list N) :
  length (SHA256.compress h block) = length h.
Proof.
  unfold SHA256.compress. rewrite length_map, length_combine, fold_round_length. lia.
Qed.

Lemma blocks_length (n : nat) (h bs : list N) :
  length (SHA256.blocks n h bs) = length h.
Proof.
  revert h bs. induction n as [|n IH]; intros h bs; [reflexivity|].
  cbn [SHA256.blocks]. rewrite IH. apply compress_length.
Qed.

Lemma be_bytes_length (n : nat) (x : N) : length (SHA256.be_bytes n x) = n.
Proof. induction n as [|n IH]; [reflexivity|]. cbn [SHA256.be_bytes length]. by rewrite IH. Qed.

Lemma flat_map_be_bytes_length (l : list N) :
  length (flat_map (SHA256.be_bytes 4) l) = 4 * length l.
Proof.
  induction l as [|x l IH]; [reflexivity|].
  cbn [flat_map]. rewrite length_app, be_bytes_length, IH. cbn [length]. lia.
Qed.

(** A digest has 32 bytes, whatever the message. *)
Lemma sha256_length (msg : list byte) : length (SHA256.sha256 msg) = 32.
Proof.
  unfold SHA256.sha256. rewrite length_map, flat_map_be_bytes_length, blocks_length.
  reflexivity.
Qed.

Lemma hex_length (bs : list byte) : String.length (SHA256.hex bs) = 2 * length bs.
Proof.
  induction bs as [|b bs IH]; [reflexivity|].
  cbn [SHA256.hex String.length length]. rewrite IH. lia.
Qed.

Lemma hex_digits_lower (b : byte) :
  is_lower_hex (SHA256.hex_digit (Byte.to_N b / 16)) = true
  /\ is_lower_hex (SHA256.hex_digit (Byte.to_N b mod 16)) = true.
Proof. destruct b; split; vm_compute; reflexivity. Qed.

Lemma hex_lower (bs : list byte) :
  forallb is_lower_hex (list_ascii_of_string (SHA256.hex bs)) = true.
Proof.
  induction bs as [|b bs IH]; [reflexivity|].
  destruct (hex_digits_lower b) as [Hh Hl].
  cbn [SHA256.hex list_ascii_of_string forallb]. by rewrite Hh, Hl, IH.
Qed.

(** The blocks of a non-empty list of at most [n] bytes: the list itself. *)
Lemma fixed_chunks_one (n : nat) (data : list byte) :
  data <> [] -> length data <= n -> fixed_chunks n data = [data].
Proof.
  intros Hne Hle.
  assert (0 < n) by (destruct data; [done|cbn in Hle; lia]).
  rewrite fixed_chunks_cons by done.
  rewrite take_ge by lia. rewrite drop_ge by lia.
  by rewrite fixed_chunks_nil.
Qed.

(** The blocks are a cut of the data: together they are the data, none is
    empty or longer than [n], and all but the last have [n] bytes. *)
Lemma fixed_chunks_partition (n : nat) (data : list byte) :
  0 < n ->
  concat (fixed_chunks n data) = data
  /\ Forall (fun c => 0 < length c <= n) (fixed_chunks n data)
  /\ (forall i c, fixed_chunks n data !! i = Some c ->
        S i < length (fixed_chunks n data) -> length c = n)
  /\ length (fixed_chunks n data) = (length data + n - 1) / n.
Proof.
  intros Hn.
  assert (Hlen : length (fixed_chunks n data) = (length data + n - 1) / n).
  { unfold fixed_chunks. by rewrite length_map, length_seq. }
  split; [|split; [|split; [|exact Hlen]]]; clear Hlen.
  - remember (length data) as k eqn:Hk. revert data Hk.
    induction k as [k IH] using lt_wf_ind. intros data Hk.
    destruct data as [|b data].
    + by rewrite fixed_chunks_nil.
    + rewrite fixed_chunks_cons by done.
      cbn [concat]. rewrite (IH (length (drop n (b :: data)))).
      * apply take_drop.
      * rewrite length_drop. subst k. cbn [length]. lia.
      * reflexivity.
  - remember (length data) as k eqn:Hk. revert data Hk.
    induction k as [k IH] using lt_wf_ind. intros data Hk.
    destruct data as [|b data].
    + rewrite fixed_chunks_nil by done. constructor.
    + rewrite fixed_chunks_cons by done. constructor.
      * rewrite length_take. cbn [length]. lia.
      * apply (IH (length (drop n (b :: data)))); [|reflexivity].
        rewrite length_drop. subst k. cbn [length]. lia.
  - remember (length data) as k eqn:Hk. revert data Hk.
    induction k as [k IH] using lt_wf_ind. intros data Hk i c.
    destruct data as [|b data].
    + rewrite fixed_chunks_nil by done. intros H. by rewrite lookup_nil in H.
    + rewrite fixed_chunks_cons by done.
      destruct i as [|i]; cbn [lookup length].
      * intros H Hi. cbn in H. injection H as <-.
        destruct (decide (n <= length data)) as [Hle|Hgt].
        -- rewrite length_take. cbn [length]. lia.
        -- exfalso. rewrite drop_ge in Hi by (cbn [length]; lia).
           rewrite fixed_chunks_nil in Hi by done. cbn in Hi. lia.
      * intros H Hi. cbn in H.
        apply (IH (length (drop n (b :: data)))) with (data := drop n (b :: data)) (i := i);
          [rewrite length_drop; subst k; cbn [length]; lia|reflexivity|exact H|lia].
Qed.

Lemma content_hash_hexdigest (data : list byte) (h : string) :
  content_hash data = Some h ->
  String.length h = 64
  /\ forallb is_lower_hex (list_ascii_of_string h) = true.
Proof.
  rewrite content_hash_total. generalize (N.to_nat CHUNK_SIZE). intros n [= <-].
  unfold chunked_sha256_hex. split.
  - rewrite hex_length, sha256_length. reflexivity.
  - apply hex_lower.
Qed.

(** X1: a content hash that [db_content_hash] returns is a SHA-256
    hexdigest: 64 characters, each a digit or a lowercase letter [a-f]. *)
Theorem content_hash_is_hexdigest (file : pathlike) (w w' : world) (h : string) :
  db_content_hash file w = Some (Ok h, w') ->
  String.length h = 64
  /\ forallb is_lower_hex (list_ascii_of_string h) = true.
Proof.
  intros Hrun. unfold db_content_hash in Hrun.
  apply bind_inv in Hrun as [(e & _ & He)|(data & w1 & _ & Hk)]; [discriminate|].
  destruct (content_hash data) as [h'|] eqn:E; [|discriminate].
  injection Hk as <- _. by apply (content_hash_hexdigest data).
Qed.

(** X2: a file that is not empty and has at most [CHUNK_SIZE] bytes is
    hashed as one block: its content hash is the hexdigest of the SHA-256
    of the SHA-256 digest of its content. *)
Theorem one_block_content_hash (w : world) (file : pathlike) (data : list byte) :
  read_file (fs w) file = Ok data ->
  data <> [] ->
  length data <= N.to_nat CHUNK_SIZE ->
  db_content_hash file w
  = Some (Ok (SHA256.hex (SHA256.sha256 (SHA256.sha256 data))), w).
Proof.
  intros Hread Hne Hle. unfold db_content_hash.
  rewrite (bind_ok _ _ w w data) by (by rewrite ask_run, Hread).
  rewrite content_hash_total. unfold chunked_sha256_hex.
  rewrite fixed_chunks_one by done.
  cbn [map concat]. by rewrite app_nil_r.
Qed.

(** X3: the blocks that [db_content_hash] hashes are a cut of the file:
    put together in order they are its content, no block is empty, every
    block but the last has exactly [CHUNK_SIZE] bytes and the last at most
    that, so there are [ceil(size / CHUNK_SIZE)] of them. *)
Theorem content_hash_blocks_cut_the_file (w : world) (file : pathlike) (data : list byte) :
  read_file (fs w) file = Ok data ->
  exists chunks,
    db_content_hash file w
    = Some (Ok (SHA256.hex (SHA256.sha256 (concat (map SHA256.sha256 chunks)))), w)
    /\ concat chunks = data
    /\ Forall (fun c => 0 < length c <= N.to_nat CHUNK_SIZE) chunks
    /\ (forall i c, chunks !! i = Some c -> S i < length chunks ->
          length c = N.to_nat CHUNK_SIZE)
    /\ length chunks
       = (length data + N.to_nat CHUNK_SIZE - 1) / N.to_nat CHUNK_SIZE.
Proof.
  intros Hread. exists (fixed_chunks (N.to_nat CHUNK_SIZE) data). split.
  - unfold db_content_hash.
    rewrite (bind_ok _ _ w w data) by (by rewrite ask_run, Hread).
    by rewrite content_hash_total.
  - apply fixed_chunks_partition, chunk_size_pos.
Qed.

(** A path names nothing because a regular file is on the way exactly
    when [walk_error] says so. *)
Lemma walk_error_file_on_the_way (p : list string) :
  forall n : node,
    walk n p = None ->
    (walk_error n p = NotADirectoryError
     /\ exists pre suf d, p = pre ++ suf /\ suf <> [] /\ walk n pre = Some (File d))
    \/ (walk_error n p = FileNotFoundError
        /\ forall pre suf d, p = pre ++ suf -> walk n pre <> Some (File d)).
Proof.
  induction p as [|c p IH]; intros n Hw; [done|].
  destruct n as [d0|m].
  - left. split; [reflexivity|]. by exists [], (c :: p), d0.
  - cbn [walk walk_error] in Hw |- *.
    destruct (m !! c) as [n'|] eqn:Ec.
    + destruct (IH n' Hw) as [[He (pre & suf & d & -> & Hsuf & Hpre)]|[He Hno]].
      * left. split; [exact He|]. exists (c :: pre), suf, d.
        split; [reflexivity|]. split; [exact Hsuf|]. cbn [walk]. by rewrite Ec.
      * right. split; [exact He|]. intros pre suf d Hp Hf.
        destruct pre as [|c' pre]; [discriminate|].
        cbn [app] in Hp. injection Hp as <- ->. cbn [walk] in Hf. rewrite Ec in Hf.
        by eapply Hno.
    + right. split; [reflexivity|]. intros pre suf d Hp Hf.
      destruct pre as [|c' pre]; [discriminate|].
      cbn [app] in Hp. injection Hp as <- ->. cbn [walk] in Hf. by rewrite Ec in Hf.
Qed.

(** X4: [db_content_hash] leaves the world as it is and always ends: on a
    file it returns its hash, on a directory it raises
    [IsADirectoryError]; on a path that names nothing it raises
    [NotADirectoryError] when a regular file is on the way to it, and
    [FileNotFoundError] when no file is. *)
Theorem content_hash_of_a_path (w : world) (p : Path) :
  exists r,
    db_content_hash (PPath p) w = Some (r, w)
    /\ match walk (root (fs w)) (absolute (cwd (fs w)) p) with
       | Some (File data) => exists h, r = Ok h /\ content_hash data = Some h
       | Some (Dir _) => r = Raise IsADirectoryError
       | None =>
           (r = Raise NotADirectoryError
            /\ exists pre suf d,
                 absolute (cwd (fs w)) p = pre ++ suf /\ suf <> []
                 /\ walk (root (fs w)) pre = Some (File d))
           \/ (r = Raise FileNotFoundError
               /\ forall pre suf d,
                    absolute (cwd (fs w)) p = pre ++ suf ->
                    walk (root (fs w)) pre <> Some (File d))
       end.
Proof.
  unfold db_content_hash.
  destruct (walk (root (fs w)) (absolute (cwd (fs w)) p)) as [[data|m]|] eqn:E.
  - eexists. split.
    + rewrite (bind_ok _ _ w w data) by (by rewrite ask_run, read_file_path, E).
      rewrite content_hash_total. reflexivity.
    + eexists. split; [reflexivity|apply content_hash_total].
  - exists (Raise IsADirectoryError). split; [|reflexivity].
    apply bind_raise. by rewrite ask_run, read_file_path, E.
  - exists (Raise (walk_error (root (fs w)) (absolute (cwd (fs w)) p))). split.
    + apply bind_raise. by rewrite ask_run, read_file_path, E.
    + destruct (walk_error_file_on_the_way _ _ E) as [[-> H]|[-> H]]; [by left|by right].
Qed.

Lemma content_hash_is_hexdigest_witness :
  String.length "e3b0c44298fc1c149afbf4c8996fb92427ae41e4649b934ca495991b7852b855" = 64
  /\ forallb is_lower_hex
       (list_ascii_of_string
          "e3b0c44298fc1c149afbf4c8996fb92427ae41e4649b934ca495991b7852b855") = true.
Proof.
  apply (content_hash_is_hexdigest (PStr "empty")
           {| fs := {| cwd := []; root := Dir {[ "empty" := File [] ]} |};
              log := []; pool := [] |}
           {| fs := {| cwd := []; root := Dir {[ "empty" := File [] ]} |};
              log := []; pool := [] |}).
  vm_compute. reflexivity.
Defined.

Lemma one_block_content_hash_witness :
  db_content_hash (PStr "a.txt")
    {| fs := {| cwd := []; root := Dir {[ "a.txt" := File Sample.a_bytes ]} |};
       log := []; pool := [] |}
  = Some (Ok (SHA256.hex (SHA256.sha256 (SHA256.sha256 Sample.a_bytes))),
          {| fs := {| cwd := []; root := Dir {[ "a.txt" := File Sample.a_bytes ]} |};
             log := []; pool := [] |}).
Proof.
  apply one_block_content_hash.
  - vm_compute. reflexivity.
  - discriminate.
  - unfold CHUNK_SIZE. cbn [Sample.a_bytes SHA256.bytes_of_string list_ascii_of_string
                             map length]. lia.
Defined.

Lemma content_hash_blocks_cut_the_file_witness :
  exists chunks,
    db_content_hash (PStr "a.txt")
      {| fs := {| cwd := []; root := Dir {[ "a.txt" := File Sample.a_bytes ]} |};
         log := []; pool := [] |}
    = Some (Ok (SHA256.hex (SHA256.sha256 (concat (map SHA256.sha256 chunks)))),
            {| fs := {| cwd := []; root := Dir {[ "a.txt" := File Sample.a_bytes ]} |};
               log := []; pool := [] |})
    /\ concat chunks = Sample.a_bytes
    /\ Forall (fun c => 0 < length c <= N.to_nat CHUNK_SIZE) chunks
    /\ (forall i c, chunks !! i = Some c -> S i < length chunks ->
          length c = N.to_nat CHUNK_SIZE)
    /\ length chunks
       = (length Sample.a_bytes + N.to_nat CHUNK_SIZE - 1) / N.to_nat CHUNK_SIZE.
Proof.
  apply content_hash_blocks_cut_the_file. vm_compute. reflexivity.
Defined.

(** A path through a regular file: [open] raises [NotADirectoryError]. *)
Example content_hash_through_a_file :
  db_content_hash (PStr "a.txt/x")
    {| fs := {| cwd := []; root := Dir {[ "a.txt" := File Sample.a_bytes ]} |};
       log := []; pool := [] |}
  = Some (Raise NotADirectoryError,
          {| fs := {| cwd := []; root := Dir {[ "a.txt" := File Sample.a_bytes ]} |};
             log := []; pool := [] |})
  /\ db_content_hash (PStr "b.txt")
       {| fs := {| cwd := []; root := Dir {[ "a.txt" := File Sample.a_bytes ]} |};
          log := []; pool := [] |}
     = Some (Raise FileNotFoundError,
             {| fs := {| cwd := []; root := Dir {[ "a.txt" := File Sample.a_bytes ]} |};
                log := []; pool := [] |}).
Proof. split; vm_compute; reflexivity. Qed.

(** ** Further properties of the lister *)


(** What the lister does when the cache path exists: it reads the file
    and nothing else. *)
Lemma lister_saved {C} (fuel : nat) (codec : json_codec) (dbx : Dropbox C)
    (link_root p : string) (w : world) :
  os_path_exists (fs w) (PStr p) = Ok true ->
  get_file_list_recursive fuel codec dbx link_root (Some p) w
  = Some (match read_file (fs w) (PStr p) with
          | Raise e => Raise e
          | Ok text =>
              match json_load codec text with
              | None => Raise JSONDecodeError
              | Some doc =>
                  match subscript doc "file_list" with
                  | Raise e => Raise e
                  | Ok file_list => loaded_file_list file_list
                  end
              end
          end, w).
Proof.
  intros Hex. destruct (read_file (fs w) (PStr p)) as [text|e] eqn:Hrd.
  - rewrite (lister_loads _ _ _ _ _ _ _ Hex Hrd).
    destruct (json_load codec text) as [doc|]; [|reflexivity].
    by destruct (subscript doc "file_list").
  - unfold get_file_list_recursive.
    rewrite (bind_ok _ _ w w true) by (rewrite ask_run; cbn [location]; by rewrite Hex).
    apply bind_raise. rewrite ask_run. cbn [location]. by rewrite Hrd.
Qed.


Lemma pop_none {A} (l : list A) : pop l = None -> l = [].
Proof.
  unfold pop. destruct (rev l) as [|x r] eqn:E; [|done]. intros _.
  apply (f_equal (@rev A)) in E. by rewrite rev_involutive in E.
Qed.

Lemma pop_some {A} (l l' : list A) (x : A) : pop l = Some (l', x) -> l = l' ++ [x].
Proof.
  destruct (exists_last_or_nil l) as [->|(l0 & x0 & ->)]; [done|].
  rewrite pop_snoc. by intros [= -> ->].
Qed.

(** One listing adds entries of the listed folder only. *)
Lemma classify_fold (path : string) (entries_ : list metadata) :
  forall (wl : list string) (acc : list entry),
    exists wl' more,
      fold_left (classify path) entries_ (wl, acc) = (wl', acc ++ more)
      /\ Forall (fun e => fst (fst (fst e)) = path) more
      /\ length more <= length entries_.
Proof.
  induction entries_ as [|m l IH]; intros wl acc.
  - exists wl, []. rewrite app_nil_r. by repeat split.
  - cbn [fold_left]. destruct m as [name h size|name|name]; cbn [classify fst snd].
    + destruct (IH wl (acc ++ [(path, name, h, size)])) as (wl' & more & E & Hf & Hl).
      exists wl', ((path, name, h, size) :: more). rewrite E, <- app_assoc.
      split; [done|]. split; [by constructor|cbn [length]; lia].
    + destruct (IH (wl ++ [slash_join path name]) acc) as (wl' & more & E & Hf & Hl).
      exists wl', more. split; [done|]. split; [done|cbn [length]; lia].
    + destruct (IH wl acc) as (wl' & more & E & Hf & Hl).
      exists wl', more. split; [done|]. split; [done|cbn [length]; lia].
Qed.

Lemma listed_app (e1 e2 : list event) : listed (e1 ++ e2) = listed e1 ++ listed e2.
Proof. unfold listed. apply flat_map_app. Qed.

Lemma traverse_sound {C} (dbx : Dropbox C) (link : string) (fuel : nat) :
  forall (wl : list string) (acc : list entry) (w : world)
         (wl' : list string) (files : list entry) (w' : world),
    traverse fuel dbx link wl acc w = Some (Ok (wl', files), w') ->
    wl' = []
    /\ exists more new,
         files = acc ++ more
         /\ log w' = log w ++ new
         /\ Forall (fun e => In (fst (fst (fst e))) (listed new)) more.
Proof.
  induction fuel as [|fuel IH]; intros wl acc w wl' files w' H.
  - cbn [traverse] in H. destruct (pop wl) as [[wl1 path]|] eqn:Ep; [discriminate|].
    injection H as <- <- <-. split; [by apply pop_none|].
    exists [], []. by rewrite !app_nil_r.
  - cbn [traverse] in H. destruct (pop wl) as [[wl1 path]|] eqn:Ep.
    + apply bind_inv in H as [(e & _ & ?)|(res & w1 & Hreq & H)]; [done|].
      rewrite request_run in Hreq. injection Hreq as Hres <-.
      apply bind_inv in H as [(e & _ & ?)|(entries_ & w2 & Hmore & H)]; [done|].
      destruct (only_lists_list_more _ _ _ _ _ _ _ Hmore) as (_ & _ & new1 & Hlog1 & _).
      cbn [log] in Hlog1.
      destruct (classify_fold path entries_ wl1 acc) as (wl2 & more1 & E & Hf & _).
      rewrite E in H. cbn [fst snd] in H.
      destruct (IH _ _ _ _ _ _ H) as (Hwl & more2 & new2 & -> & Hlog2 & Hin).
      split; [exact Hwl|].
      exists (more1 ++ more2), ([EvListFolder path (error_of (files_list_folder dbx path link))]
                                 ++ new1 ++ new2).
      split; [by rewrite app_assoc|]. split.
      * rewrite Hlog2, Hlog1. by rewrite <- !app_assoc.
      * apply Forall_app. split.
        -- eapply Forall_impl; [exact Hf|]. intros e ->.
           rewrite listed_app. apply in_or_app. left. cbn. by left.
        -- eapply Forall_impl; [exact Hin|]. intros e He.
           rewrite !listed_app. apply in_or_app. right. apply in_or_app. by right.
    + injection H as <- <- <-. split; [by apply pop_none|].
      exists [], []. by rewrite !app_nil_r.
Qed.

(** A file on the way, or a directory that is missing, fails a write below it. *)
Lemma write_at_below_nothing (q : list string) (x : string) (data : list byte) :
  forall n : node,
    walk n q = None ->
    write_at n (q ++ [x]) data = Raise FileNotFoundError
    \/ write_at n (q ++ [x]) data = Raise NotADirectoryError.
Proof.
  induction q as [|c q IH]; intros n Hw; [done|].
  cbn [app]. destruct n as [d|m]; [by right|].
  rewrite write_at_dir. cbn [walk] in Hw.
  destruct (q ++ [x]) as [|c' p'] eqn:Eq; [by destruct q|].
  destruct (m !! c) as [n'|]; [|by left].
  destruct (IH n' Hw) as [-> | ->]; [by left|by right].
Qed.

(** Whether a write succeeds does not depend on what is written. *)
Lemma write_at_any_data (p : list string) (d d' : list byte) :
  forall n n' : node,
    write_at n p d = Ok n' -> exists n'', write_at n p d' = Ok n''.
Proof.
  induction p as [|c p IH]; intros n n' H.
  - destruct n; discriminate.
  - destruct n as [d0|m]; [discriminate|].
    rewrite write_at_dir in H |- *. destruct p as [|c' p].
    + destruct (m !! c) as [[?|?]|]; try discriminate; by eexists.
    + destruct (m !! c) as [n1|]; [|discriminate].
      destruct (write_at n1 (c' :: p) d) as [n2|] eqn:E; [|discriminate].
      destruct (IH _ _ E) as (n3 & ->). by eexists.
Qed.

Lemma write_file_any_data (f f' : filesystem) (p : pathlike) (d d' : list byte) :
  write_file f p d = Ok f' -> exists f'', write_file f p d' = Ok f''.
Proof.
  unfold write_file, update_root.
  destruct (locate f p) as [[q|]|]; try discriminate.
  destruct (write_at (root f) q d) as [n|] eqn:E; [|discriminate]. intros _.
  destruct (write_at_any_data _ _ d' _ _ E) as (n'' & ->). by eexists.
Qed.

(** A write leaves every other place as it was: no file elsewhere appears,
    changes or goes. *)
Lemma walk_write_at_back (p q : list string) (n n' : node) (data d : list byte) :
  write_at n p data = Ok n' -> p <> q ->
  walk n' q = Some (File d) -> walk n q = Some (File d).
Proof.
  revert q n n'. induction p as [|c p IH]; intros q n n' H Hne Hq.
  - destruct n; discriminate.
  - destruct n as [d0|m]; [discriminate|].
    rewrite write_at_dir in H.
    destruct q as [|c2 q].
    { destruct p; [destruct (m !! c) as [[?|?]|]|destruct (m !! c) as [n1|];
                   [destruct (write_at n1 _ data)|]]; by inversion H; subst. }
    destruct p as [|c' p].
    + assert (m !! c = None \/ exists d1, m !! c = Some (File d1)) as Hc.
      { destruct (m !! c) as [[d1|?]|]; [right; by eexists|discriminate|by left]. }
      assert (n' = Dir (<[c := File data]> m)) as ->
        by (destruct (m !! c) as [[?|?]|]; congruence).
      cbn [walk] in Hq |- *.
      destruct (decide (c = c2)) as [->|Hcc].
      * rewrite lookup_insert_eq in Hq. destruct q; [congruence|discriminate].
      * by rewrite lookup_insert_ne in Hq.
    + destruct (m !! c) as [n1|] eqn:E; [|discriminate].
      destruct (write_at n1 (c' :: p) data) as [n2|] eqn:E2; [|discriminate].
      inversion H; subst. cbn [walk] in Hq |- *.
      destruct (decide (c = c2)) as [->|Hcc].
      * rewrite lookup_insert_eq in Hq. rewrite E.
        eapply IH; [exact E2| |exact Hq]. congruence.
      * by rewrite lookup_insert_ne in Hq.
Qed.

Lemma write_file_elsewhere (f f' : filesystem) (p : Path) (data : list byte)
    (q : list string) :
  write_file f (PPath p) data = Ok f' -> absolute (cwd f) p <> q ->
  same_file_at f f' q.
Proof.
  unfold write_file, update_root. cbn [locate].
  destruct (write_at (root f) (absolute (cwd f) p) data) as [n|] eqn:E; [|discriminate].
  intros [= <-] Hne d. cbn [root]. split.
  - by apply (walk_write_at_other _ _ _ _ _ _ E).
  - by apply (walk_write_at_back _ _ _ _ _ _ E).
Qed.

Lemma write_file_str (f : filesystem) (c : ascii) (s : string) (data : list byte) :
  write_file f (PStr (String c s)) data = write_file f (PPath (mkPath (String c s))) data.
Proof. reflexivity. Qed.

(** X5: when the cache path exists the lister does not go to the server:
    its result is what the file holds, whatever the client, the shared link
    and the fuel are, and the world is the one it started in, so no request
    is logged and nothing is written. *)
Theorem saved_list_is_used {C C'} (fuel fuel' : nat) (codec : json_codec)
    (dbx : Dropbox C) (dbx' : Dropbox C') (link_root link_root' p : string) (w : world) :
  os_path_exists (fs w) (PStr p) = Ok true ->
  exists r,
    get_file_list_recursive fuel codec dbx link_root (Some p) w = Some (r, w)
    /\ get_file_list_recursive fuel' codec dbx' link_root' (Some p) w = Some (r, w).
Proof.
  intros Hex. eexists. split; by rewrite lister_saved.
Qed.


(** X7: when the directory of the cache path does not exist, the lister
    finds that out only at the end: the whole traversal is done, then
    writing the list raises [FileNotFoundError] (or [NotADirectoryError]
    when a file is on the way), and the list is not returned. *)
Theorem cache_directory_missing {C} (fuel : nat) (codec : json_codec) (dbx : Dropbox C)
    (link_root p : string) (w w1 : world) (st : list string * list entry) :
  parts (mkPath p) <> [] ->
  os_path_exists (fs w) (PPath (parent (mkPath p))) = Ok false ->
  traverse fuel dbx link_root [EmptyString] [] w = Some (Ok st, w1) ->
  exists e,
    (e = FileNotFoundError \/ e = NotADirectoryError)
    /\ get_file_list_recursive fuel codec dbx link_root (Some p) w = Some (Raise e, w1).
Proof.
  intros Hparts Hdir Htr.
  destruct p as [|c s]; [by destruct Hparts|].
  destruct (absolute_parent (cwd (fs w)) (mkPath (String c s)) Hparts) as (x & Hx).
  rewrite os_path_exists_path in Hdir. injection Hdir as Hdir.
  apply bool_decide_eq_false_1 in Hdir.
  assert (Hnone : walk (root (fs w)) (absolute (cwd (fs w)) (parent (mkPath (String c s))))
                  = None).
  { destruct (walk _ _) eqn:E; [|done]. destruct Hdir. by eexists. }
  destruct (only_lists_traverse _ _ _ _ _ _ _ _ Htr) as (Hfs & _).
  assert (Hex : os_path_exists (fs w) (PStr (String c s)) = Ok false).
  { change (os_path_exists (fs w) (PStr (String c s)))
      with (os_path_exists (fs w) (PPath (mkPath (String c s)))).
    rewrite os_path_exists_path, Hx, walk_app, Hnone. reflexivity. }
  assert (Hw : forall data, exists e,
             (e = FileNotFoundError \/ e = NotADirectoryError)
             /\ write_file (fs w1) (PStr (String c s)) data = Raise e).
  { intros data. rewrite write_file_str. unfold write_file, update_root. cbn [locate].
    rewrite Hfs, Hx.
    destruct (write_at_below_nothing _ x data _ Hnone) as [-> | ->];
      eexists; (split; [|reflexivity]); [by left|by right]. }
  destruct (Hw (json_dump codec (filelist_json link_root (snd st)))) as (e & He & Hwr).
  exists e. split; [exact He|].
  unfold get_file_list_recursive.
  rewrite (bind_ok _ _ w w false) by (rewrite ask_run; cbn [location]; by rewrite Hex).
  rewrite (bind_ok _ _ _ _ _ Htr).
  apply bind_raise. unfold change. by rewrite Hwr.
Qed.

(** X8: a call with a cache path that did not exist and that returns has
    saved what it returns: the file at that path holds the JSON text of
    [{'shared_link': link_root, 'file_list': all_files}] for the list
    returned, the path exists afterwards, and no other file appeared,
    changed or went. *)
Theorem listing_is_saved {C} (fuel : nat) (codec : json_codec) (dbx : Dropbox C)
    (link_root p : string) (w w1 : world) (m : list entry) :
  os_path_exists (fs w) (PStr p) = Ok false ->
  get_file_list_recursive fuel codec dbx link_root (Some p) w = Some (Ok m, w1) ->
  read_file (fs w1) (PStr p) = Ok (json_dump codec (filelist_json link_root m))
  /\ os_path_exists (fs w1) (PStr p) = Ok true
  /\ cwd (fs w1) = cwd (fs w)
  /\ pool w1 = pool w
  /\ forall q, q <> absolute (cwd (fs w)) (mkPath p) -> same_file_at (fs w) (fs w1) q.
Proof.
  intros Hex H. unfold get_file_list_recursive in H.
  rewrite (bind_ok _ _ w w false) in H by (rewrite ask_run; cbn [location]; by rewrite Hex).
  apply bind_inv in H as [(e & _ & ?)|(st & w2 & Htr & H)]; [done|].
  destruct (only_lists_traverse _ _ _ _ _ _ _ _ Htr) as (Hfs & Hpool & _).
  apply bind_inv in H as [(e & _ & ?)|([] & w3 & Hch & H)]; [done|].
  injection H as <- <-. unfold change in Hch.
  destruct (write_file (fs w2) (PStr p) _) as [f'|] eqn:Hw; [|discriminate].
  injection Hch as <-. cbn [fs pool].
  destruct (read_after_write _ _ _ _ Hw) as [Hex' Hrd'].
  split; [exact Hrd'|]. split; [exact Hex'|].
  split; [by rewrite (write_file_cwd _ _ _ _ Hw), Hfs|].
  split; [exact Hpool|]. intros q Hq.
  destruct p as [|c s]; [discriminate|]. rewrite write_file_str, Hfs in Hw.
  apply (write_file_elsewhere _ _ _ _ q Hw). congruence.
Qed.

(** X10: for any server, when the traversal loop returns the worklist is
    empty, the entries it started with are all there, in front and in
    order, and every entry it added has as its parent path a folder for
    which a listing request was made. *)
Theorem traverse_returns_listed_entries {C} (fuel : nat) (dbx : Dropbox C)
    (link : string) (wl wl' : list string) (acc files : list entry) (w w' : world) :
  traverse fuel dbx link wl acc w = Some (Ok (wl', files), w') ->
  wl' = []
  /\ exists more new,
       files = acc ++ more
       /\ log w' = log w ++ new
       /\ Forall (fun e => In (fst (fst (fst e))) (listed new)) more.
Proof. apply traverse_sound. Qed.

(** X9: on a server for a remote tree, with a cache path that does not
    exist yet and can be written, the lister returns: the list holds every
    file of the tree once, and the cache file holds that list. *)
Theorem lister_saves_the_tree (paginate : string -> list metadata -> list (list metadata))
    (body : string -> string -> result (list byte)) (top : list rnode)
    (fuel : nat) (codec : json_codec) (link_root p : string) (w : world)
    (f0 : filesystem) :
  (forall path l, concat (paginate path l) = l) ->
  NoDup (map fst (folder_table top)) ->
  length (folder_table top) + most_pages paginate top <= fuel ->
  os_path_exists (fs w) (PStr p) = Ok false ->
  write_file (fs w) (PStr p) [] = Ok f0 ->
  exists files w1,
    get_file_list_recursive fuel codec (tree_server paginate body top) link_root (Some p) w
    = Some (Ok files, w1)
    /\ files ≡ₚ remote_files top
    /\ read_file (fs w1) (PStr p) = Ok (json_dump codec (filelist_json link_root files)).
Proof.
  intros Hcat Hdistinct Hfuel Hex Hwritable.
  destruct (traverse_pending paginate body top Hcat Hdistinct
              (length (folder_table top)) [(EmptyString, top)]
              fuel link_root [] w) as (files & evs & Hrun & Hfiles & _).
  { cbn. by rewrite app_nil_r. }
  { intros it [<-|[]]. intros x Hx. exact Hx. }
  { done. }
  cbn [flat_map map fst] in Hrun, Hfiles. rewrite app_nil_r in Hfiles.
  cbn [app] in Hrun.
  destruct (write_file_any_data _ _ _ _
              (json_dump codec (filelist_json link_root files)) Hwritable) as (f1 & Hw).
  exists files, {| fs := f1; log := log w ++ evs; pool := pool w |}.
  split; [|split; [exact Hfiles|]].
  - unfold get_file_list_recursive.
    rewrite (bind_ok _ _ w w false) by (rewrite ask_run; cbn [location]; by rewrite Hex).
    rewrite (bind_ok _ _ _ _ _ Hrun). cbn [snd].
    erewrite bind_ok; [reflexivity|].
    unfold change, logged. cbn [fs log pool]. by rewrite Hw.
  - cbn [fs]. by destruct (read_after_write _ _ _ _ Hw).
Qed.

Lemma saved_list_is_used_witness :
  exists r,
    get_file_list_recursive 0 JsonText.codec broken_continuation "other link"
      (Some "list.json") Sample.w_listed = Some (r, Sample.w_listed)
    /\ get_file_list_recursive 10 JsonText.codec Sample.server "LINK"
         (Some "list.json") Sample.w_listed = Some (r, Sample.w_listed).
Proof. apply saved_list_is_used. vm_compute. reflexivity. Defined.


Lemma cache_directory_missing_witness :
  exists e,
    (e = FileNotFoundError \/ e = NotADirectoryError)
    /\ get_file_list_recursive 10 JsonText.codec Sample.server "LINK"
         (Some "cache/list.json") Sample.w0
       = Some (Raise e,
               Sample.world_after
                 (traverse 10 Sample.server "LINK" [EmptyString] [] Sample.w0)).
Proof.
  eapply cache_directory_missing.
  - vm_compute. discriminate.
  - vm_compute. reflexivity.
  - vm_compute. reflexivity.
Defined.

Lemma listing_is_saved_witness :
  read_file (fs Sample.w_listed) (PStr "list.json")
  = Ok (json_dump JsonText.codec (filelist_json "LINK" Sample.manifest))
  /\ os_path_exists (fs Sample.w_listed) (PStr "list.json") = Ok true
  /\ cwd (fs Sample.w_listed) = cwd (fs Sample.w0)
  /\ pool Sample.w_listed = pool Sample.w0
  /\ forall q, q <> absolute (cwd (fs Sample.w0)) (mkPath "list.json") ->
               same_file_at (fs Sample.w0) (fs Sample.w_listed) q.
Proof.
  apply (listing_is_saved 10 JsonText.codec Sample.server "LINK" "list.json"
           Sample.w0 Sample.w_listed Sample.manifest).
  - vm_compute. reflexivity.
  - vm_compute. reflexivity.
Defined.

Lemma sample_distinct_paths : NoDup (map fst (folder_table Sample.top)).
Proof. apply NoDup_ListNoDup. vm_compute. repeat constructor; cbn; intuition discriminate. Qed.

Lemma lister_saves_the_tree_witness :
  exists files w1,
    get_file_list_recursive 10 JsonText.codec
      (tree_server Sample.two_pages Sample.body Sample.top) "LINK" (Some "list.json")
      Sample.w0
    = Some (Ok files, w1)
    /\ files ≡ₚ remote_files Sample.top
    /\ read_file (fs w1) (PStr "list.json")
       = Ok (json_dump JsonText.codec (filelist_json "LINK" files)).
Proof.
  eapply lister_saves_the_tree.
  - exact two_pages_concat.
  - exact sample_distinct_paths.
  - vm_compute. lia.
  - vm_compute. reflexivity.
  - vm_compute. reflexivity.
Defined.

Lemma traverse_returns_listed_entries_witness :
  @nil string = []
  /\ exists more new,
       Sample.manifest = [] ++ more
       /\ log (Sample.world_after
                 (traverse 10 Sample.server "LINK" [EmptyString] [] Sample.w0))
          = log Sample.w0 ++ new
       /\ Forall (fun e => In (fst (fst (fst e))) (listed new)) more.
Proof.
  apply (traverse_returns_listed_entries 10 Sample.server "LINK" [EmptyString] []
           [] Sample.manifest Sample.w0
           (Sample.world_after
              (traverse 10 Sample.server "LINK" [EmptyString] [] Sample.w0))).
  vm_compute. reflexivity.
Defined.

(** ** Further properties of the download scheduler: the target path *)

Lemma str_app_cons (a : ascii) (s t : string) : String a s +:+ t = String a (s +:+ t).
Proof. reflexivity. Qed.

Lemma str_app_nil_r (s : string) : s +:+ EmptyString = s.
Proof. induction s as [|a s IH]; [reflexivity|]. by rewrite str_app_cons, IH. Qed.

Lemma str_app_assoc (s t u : string) : (s +:+ t) +:+ u = s +:+ (t +:+ u).
Proof. induction s as [|a s IH]; [reflexivity|]. by rewrite !str_app_cons, IH. Qed.

Lemma split_no_slash (s cur : string) :
  forallb (fun c => negb (Ascii.eqb c "/")) (list_ascii_of_string s) = true ->
  split_slash s cur = [cur +:+ s].
Proof.
  revert cur. induction s as [|a s IH]; intros cur H.
  - cbn. by rewrite str_app_nil_r.
  - cbn [list_ascii_of_string forallb] in H. apply andb_prop in H as [Ha Hs].
    cbn [split_slash]. apply negb_true_iff in Ha. rewrite Ha.
    rewrite (IH _ Hs), str_app_assoc. reflexivity.
Qed.

Lemma anchored_mkPath (s : string) :
  anchored (mkPath s)
  = match s with String a _ => Ascii.eqb a "/" | EmptyString => false end.
Proof.
  destruct s as [|a s]; [reflexivity|].
  destruct a as [[] [] [] [] [] [] [] []]; reflexivity.
Qed.

(** The path of a plain name is that one component. *)
Lemma mkPath_plain (name : string) :
  plain_name name = true -> mkPath name = {| anchored := false; parts := [name] |}.
Proof.
  intros H. apply andb_prop in H as [Hs Hc].
  assert (Ha : anchored (mkPath name) = false).
  { rewrite anchored_mkPath. destruct name as [|a s]; [reflexivity|].
    cbn [list_ascii_of_string forallb] in Hs. apply andb_prop in Hs as [Ha _].
    by apply negb_true_iff in Ha. }
  assert (Hp : parts (mkPath name) = [name]).
  { unfold mkPath. cbn [parts]. rewrite (split_no_slash _ _ Hs).
    change (EmptyString +:+ name) with name. cbn [List.filter]. by rewrite Hc. }
  destruct (mkPath name) as [a ps]. cbn in Ha, Hp. by subst.
Qed.

Lemma lstrip_parts (s : string) :
  List.filter is_component (split_slash (lstrip "/" s) EmptyString)
  = List.filter is_component (split_slash s EmptyString).
Proof.
  induction s as [|a s IH]; [reflexivity|].
  cbn [lstrip split_slash]. destruct (Ascii.eqb a "/") eqn:Ea; [|by cbn [split_slash]; rewrite Ea].
  rewrite IH. reflexivity.
Qed.

Lemma rstrip_all (s : string) :
  rstrip "/" s = EmptyString ->
  forall cur, List.filter is_component (split_slash s cur) = List.filter is_component [cur].
Proof.
  induction s as [|a s IH]; intros H cur; [reflexivity|].
  cbn [rstrip] in H. destruct (rstrip "/" s) as [|b r] eqn:Er; [|discriminate].
  destruct (Ascii.eqb a "/") eqn:Ea; [|discriminate].
  cbn [split_slash]. rewrite Ea. cbn [List.filter]. rewrite (IH eq_refl EmptyString).
  cbn. by destruct (is_component cur).
Qed.

Lemma rstrip_parts (s : string) :
  forall cur,
    List.filter is_component (split_slash (rstrip "/" s) cur)
    = List.filter is_component (split_slash s cur).
Proof.
  induction s as [|a s IH]; intros cur; [reflexivity|].
  cbn [rstrip]. destruct (rstrip "/" s) as [|b r] eqn:Er.
  - destruct (Ascii.eqb a "/") eqn:Ea.
    + cbn [split_slash]. rewrite Ea. cbn [List.filter].
      rewrite (rstrip_all s Er EmptyString). cbn. by destruct (is_component cur).
    + cbn [split_slash]. rewrite Ea. by rewrite (rstrip_all s Er).
  - cbn [split_slash]. destruct (Ascii.eqb a "/").
    + cbn [List.filter]. by rewrite <- IH.
    + by rewrite <- IH.
Qed.

Lemma rstrip_head (s : string) :
  match rstrip "/" s with
  | String a _ => exists s', s = String a s'
  | EmptyString => True
  end.
Proof.
  destruct s as [|a s]; [done|]. cbn [rstrip].
  destruct (rstrip "/" s); [destruct (Ascii.eqb a "/")|]; by eexists.
Qed.

Lemma lstrip_head (s : string) :
  match lstrip "/" s with
  | String a _ => Ascii.eqb a "/" = false
  | EmptyString => True
  end.
Proof.
  induction s as [|a s IH]; [done|]. cbn [lstrip].
  destruct (Ascii.eqb a "/") eqn:Ea; [exact IH|exact Ea].
Qed.

(** [Path(path.strip('/'))]: the components of [path], never rooted. *)
Lemma mkPath_strip (path : string) :
  mkPath (strip_slash path) = {| anchored := false; parts := parts (mkPath path) |}.
Proof.
  assert (Ha : anchored (mkPath (strip_slash path)) = false).
  { rewrite anchored_mkPath. unfold strip_slash.
    pose proof (rstrip_head (lstrip "/" path)) as Hr.
    pose proof (lstrip_head path) as Hl.
    destruct (rstrip "/" (lstrip "/" path)) as [|a r]; [reflexivity|].
    destruct Hr as (s' & Hs). rewrite Hs in Hl. exact Hl. }
  assert (Hp : parts (mkPath (strip_slash path)) = parts (mkPath path)).
  { unfold mkPath, strip_slash. cbn [parts]. by rewrite rstrip_parts, lstrip_parts. }
  destruct (mkPath (strip_slash path)) as [a ps]. cbn in Ha, Hp. by subst.
Qed.

Lemma target_path_plain (target_dir path name : string) :
  plain_name name = true ->
  target_path target_dir path name
  = {| anchored := anchored (mkPath target_dir);
       parts := parts (mkPath target_dir) ++ parts (mkPath path) ++ [name] |}.
Proof.
  intros Hname. unfold target_path.
  rewrite mkPath_strip, (mkPath_plain _ Hname).
  unfold joinpath. cbn [anchored parts]. by rewrite <- app_assoc.
Qed.

(** X11: for a plain file name (no slash, not empty, not ['.']) the target
    is the target directory, then the components of the remote parent
    path, then the name; slashes at either end of the parent path, and a
    rooted parent path, do not matter; the directory made for the entry is
    the target without its last component. *)
Theorem target_is_below_target_dir (target_dir path name : string) :
  plain_name name = true ->
  target_path target_dir path name
  = {| anchored := anchored (mkPath target_dir);
       parts := parts (mkPath target_dir) ++ parts (mkPath path) ++ [name] |}
  /\ parent (target_path target_dir path name)
     = {| anchored := anchored (mkPath target_dir);
          parts := parts (mkPath target_dir) ++ parts (mkPath path) |}.
Proof.
  intros Hname. rewrite (target_path_plain _ _ _ Hname). split; [reflexivity|].
  unfold parent. cbn [anchored parts]. by rewrite app_assoc, removelast_last.
Qed.

(** X12: a name that starts with a slash replaces everything before it,
    as [pathlib]'s [/] has it: the task of such an entry has the rooted
    path of the name as its target, and when it has run without error the
    body is in the file at that place from the root, whatever the target
    directory and the working directory are. *)
Theorem rooted_name_leaves_target_dir {C} (dbx : Dropbox C)
    (target_dir link_root path rest h : string) (size : Z) (f f' : filesystem) :
  run_task dbx (task_of target_dir link_root (path, String "/" rest, h, size)) f
  = (Ok tt, f') ->
  t_target (task_of target_dir link_root (path, String "/" rest, h, size))
  = mkPath (String "/" rest)
  /\ exists body,
       sharing_get_shared_link_file dbx link_root (slash_join path (String "/" rest))
       = Ok body
       /\ walk (root f') (parts (mkPath (String "/" rest))) = Some (File body).
Proof.
  intros H. split; [reflexivity|].
  unfold run_task in H. cbn [task_of t_link t_remote t_target] in H.
  destruct (sharing_get_shared_link_file dbx link_root _) as [body|err]; [|discriminate].
  exists body. split; [reflexivity|].
  change (target_path target_dir path (String "/" rest))
    with (mkPath (String "/" rest)) in H.
  destruct (write_file f _ body) as [f1|err] eqn:Hw; [|discriminate].
  injection H as <-. unfold write_file, update_root in Hw. cbn [locate] in Hw.
  change (absolute (cwd f) (mkPath (String "/" rest)))
    with (parts (mkPath (String "/" rest))) in Hw.
  destruct (write_at (root f) _ body) as [n|err] eqn:E; [|discriminate].
  injection Hw as <-. cbn [root]. by eapply walk_write_at.
Qed.

Lemma target_is_below_target_dir_witness :
  target_path "out/" "/sub/deep/" "c.txt"
  = {| anchored := anchored (mkPath "out/");
       parts := parts (mkPath "out/") ++ parts (mkPath "/sub/deep/") ++ ["c.txt"] |}
  /\ parent (target_path "out/" "/sub/deep/" "c.txt")
     = {| anchored := anchored (mkPath "out/");
          parts := parts (mkPath "out/") ++ parts (mkPath "/sub/deep/") |}.
Proof. apply target_is_below_target_dir. vm_compute. reflexivity. Defined.

Lemma rooted_name_leaves_target_dir_witness :
  t_target (task_of "out" "LINK" (EmptyString, "/tmp/x", "h", 1%Z)) = mkPath "/tmp/x"
  /\ exists body,
       sharing_get_shared_link_file Sample.good_server "LINK"
         (slash_join EmptyString "/tmp/x") = Ok body
       /\ walk (root (snd (run_task Sample.good_server
                             (task_of "out" "LINK" (EmptyString, "/tmp/x", "h", 1%Z))
                             {| cwd := ["home"; "u"];
                                root := Dir {[ "tmp" := Dir ∅ ]} |})))
            (parts (mkPath "/tmp/x"))
          = Some (File body).
Proof.
  apply (rooted_name_leaves_target_dir Sample.good_server "out" "LINK" EmptyString
           "tmp/x" "h" 1%Z {| cwd := ["home"; "u"]; root := Dir {[ "tmp" := Dir ∅ ]} |}).
  vm_compute. reflexivity.
Defined.

(** ** Further properties of the download scheduler: what a run touches *)

Lemma same_file_at_refl (f : filesystem) (q : list string) : same_file_at f f q.
Proof. by intros d. Qed.

Lemma same_file_at_trans (f1 f2 f3 : filesystem) (q : list string) :
  same_file_at f1 f2 q -> same_file_at f2 f3 q -> same_file_at f1 f3 q.
Proof. intros H1 H2 d. rewrite (H1 d). apply H2. Qed.

Lemma makedirs_same_files (f f' : filesystem) (p : Path) (q : list string) :
  os_makedirs f (PPath p) = Ok f' -> cwd f' = cwd f /\ same_file_at f f' q.
Proof.
  rewrite os_makedirs_path. destruct (makedirs_at _ _) as [n'|] eqn:Hat; [|done].
  intros [= <-]. split; [reflexivity|]. intros d. cbn [root]. split.
  - by eapply makedirs_at_keeps_files.
  - by eapply makedirs_at_makes_no_file.
Qed.

Lemma target_of_task (here : list string) (target_dir link_root : string) (e : entry) :
  absolute here (t_target (task_of target_dir link_root e)) = target_of here target_dir e.
Proof. by destruct e as [[[path name] h] size]. Qed.

(** Whether an entry is up to date depends on the file at its target only. *)
Lemma up_to_date_same_file (f f' : filesystem) (target_dir : string) (e : entry) :
  cwd f' = cwd f ->
  same_file_at f f' (target_of (cwd f) target_dir e) ->
  up_to_date f' target_dir e = up_to_date f target_dir e.
Proof.
  destruct e as [[[path name] h] size]. unfold up_to_date, file_at, target_of, same_file_at.
  cbn [fst snd]. intros -> H.
  destruct (walk (root f) _) as [[d|m]|].
  - by rewrite (proj1 (H d) eq_refl).
  - destruct (walk (root f') _) as [[d'|m']|]; try reflexivity.
    by pose proof (proj2 (H d') eq_refl).
  - destruct (walk (root f') _) as [[d'|m']|]; try reflexivity.
    by pose proof (proj2 (H d') eq_refl).
Qed.

(** The planning of one entry: the working directory and every file stay,
    and the pool grows by the entry's task or not at all. *)
Lemma plan_entry_world (target_dir link_root : string) (e : entry) (w w' : world)
    (r : result unit) :
  plan_entry target_dir link_root e w = Some (r, w') ->
  cwd (fs w') = cwd (fs w)
  /\ (forall q, same_file_at (fs w) (fs w') q)
  /\ pool w' = pool w ++ match r with
                         | Ok _ => if up_to_date (fs w) target_dir e then []
                                   else [(task_of target_dir link_root e, None)]
                         | Raise _ => []
                         end.
Proof.
  destruct (plan_entry_spec target_dir link_root e w)
    as (r0 & w0 & blk & Hrun & _ & _ & Hfs & Hr).
  intros H. rewrite Hrun in H. injection H as <- <-.
  assert (Hf : cwd (fs w0) = cwd (fs w) /\ forall q, same_file_at (fs w) (fs w0) q).
  { destruct Hfs as [->|[_ Hmk]]; [split; [done|intros q; apply same_file_at_refl]|].
    split; [by destruct (makedirs_same_files _ _ _ [] Hmk)|].
    intros q. by destruct (makedirs_same_files _ _ _ q Hmk). }
  destruct Hf as [Hcwd Hsame]. split; [exact Hcwd|]. split; [exact Hsame|].
  destruct r0 as [[]|err].
  - destruct (up_to_date (fs w) target_dir e).
    + destruct Hr as [_ ->]. by rewrite app_nil_r.
    + by destruct Hr as [_ ->].
  - destruct Hr as (_ & -> & _). by rewrite app_nil_r.
Qed.

Lemma future_result_world {C} (dbx : Dropbox C) (i : nat) (w w' : world) (r : result unit) :
  future_result dbx i w = Some (r, w') -> w' = logged (complete dbx w i) [EvResult i].
Proof.
  unfold future_result. unfold bind at 1. rewrite workers_run.
  cbn [fold_left]. unfold bind, emit. cbn [pool fs log].
  destruct (pool (complete dbx w i) !! i) as [[? [?|]]|]; by inversion 1.
Qed.

Section Frame.
Context {C : Type} (dbx : Dropbox C) (here q : list string).

Lemma run_task_elsewhere (t : task) (f : filesystem) :
  quiet_at dbx (cwd f) q t -> same_file_at f (snd (run_task dbx t f)) q.
Proof.
  intros Hq. unfold run_task.
  destruct (sharing_get_shared_link_file dbx _ _) as [body|err] eqn:Hget;
    [|apply same_file_at_refl].
  destruct (write_file f _ body) as [f'|err] eqn:Hw; [|apply same_file_at_refl].
  cbn [snd]. destruct Hq as [Hne|Herr]; [|by rewrite Hget in Herr].
  by eapply write_file_elsewhere.
Qed.

Lemma complete_avoids (w : world) (i : nat) :
  pool_avoids dbx here q w ->
  pool_avoids dbx here q (complete dbx w i)
  /\ same_file_at (fs w) (fs (complete dbx w i)) q.
Proof.
  intros [Hcwd Hav]. split.
  - split; [by rewrite complete_cwd|].
    destruct (complete_extends dbx w i) as [-> _]. exact Hav.
  - unfold complete. destruct (pool w !! i) as [[t [r|]]|] eqn:E;
      try apply same_file_at_refl.
    assert (Ht : quiet_at dbx here q t).
    { eapply (Forall_lookup_1 _ _ i t Hav). by rewrite list_lookup_fmap, E. }
    pose proof (run_task_elsewhere t (fs w)) as Hrun. rewrite Hcwd in Hrun.
    destruct (run_task dbx t (fs w)) as [r f]. cbn [fs]. by apply Hrun.
Qed.

Lemma fold_complete_avoids (l : list nat) (w : world) :
  pool_avoids dbx here q w ->
  pool_avoids dbx here q (fold_left (complete dbx) l w)
  /\ same_file_at (fs w) (fs (fold_left (complete dbx) l w)) q.
Proof.
  revert w. induction l as [|i l IH]; intros w Hav.
  - split; [done|apply same_file_at_refl].
  - cbn [fold_left]. destruct (complete_avoids w i Hav) as [Hav1 Hs1].
    destruct (IH _ Hav1) as [Hav2 Hs2]. split; [done|].
    by eapply same_file_at_trans.
Qed.

Lemma logged_avoids (w : world) (evs : list event) :
  pool_avoids dbx here q w -> pool_avoids dbx here q (logged w evs).
Proof. by intros [? ?]. Qed.

Lemma plan_entry_avoids (target_dir link_root : string) (e : entry) (w w' : world)
    (r : result unit) :
  pool_avoids dbx here q w ->
  quiet_at dbx here q (task_of target_dir link_root e) ->
  plan_entry target_dir link_root e w = Some (r, w') ->
  pool_avoids dbx here q w' /\ same_file_at (fs w) (fs w') q.
Proof.
  intros [Hcwd Hav] Hne Hrun.
  destruct (plan_entry_world _ _ _ _ _ _ Hrun) as (Hc & Hs & Hp).
  split; [|apply Hs]. split; [congruence|].
  rewrite Hp, fmap_app. apply Forall_app. split; [exact Hav|].
  destruct r as [[]|err]; [|constructor].
  destruct (up_to_date (fs w) target_dir e); [constructor|].
  constructor; [|constructor]. exact Hne.
Qed.

Lemma plan_loop_avoids (sched : schedule) (target_dir link_root : string)
    (todo : list entry) :
  forall (k : nat) (w w' : world) (r : result unit),
    pool_avoids dbx here q w ->
    (forall e, In e todo -> quiet_at dbx here q (task_of target_dir link_root e)) ->
    plan_loop sched dbx target_dir link_root k todo w = Some (r, w') ->
    pool_avoids dbx here q w' /\ same_file_at (fs w) (fs w') q.
Proof.
  induction todo as [|e todo IH]; intros k w w' r Hav Hoff Hrun.
  - injection Hrun as <- <-. split; [done|apply same_file_at_refl].
  - cbn [plan_loop] in Hrun.
    apply bind_inv in Hrun as [(err & H & ?)|([] & wa & Hwa & Hrun)]; [done|].
    rewrite workers_run in Hwa. injection Hwa as <-.
    destruct (fold_complete_avoids (sched k) w Hav) as [Hava Hsa].
    apply bind_inv in Hrun as [(err & Hwb & _)|([] & wb & Hwb & Hrun)].
    + destruct (plan_entry_avoids _ _ _ _ _ _ Hava (Hoff e (or_introl eq_refl)) Hwb)
        as [Havb Hsb].
      split; [done|]. by eapply same_file_at_trans.
    + destruct (plan_entry_avoids _ _ _ _ _ _ Hava (Hoff e (or_introl eq_refl)) Hwb)
        as [Havb Hsb].
      destruct (IH _ _ _ _ Havb (fun x Hx => Hoff x (or_intror Hx)) Hrun)
        as [Hav' Hs'].
      split; [done|].
      eapply same_file_at_trans; [exact Hsa|]. by eapply same_file_at_trans.
Qed.

Lemma join_loop_avoids (sched : schedule) (l : list nat) :
  forall (k : nat) (w w' : world) (r : result unit),
    pool_avoids dbx here q w ->
    join_loop sched dbx k l w = Some (r, w') ->
    pool_avoids dbx here q w' /\ same_file_at (fs w) (fs w') q.
Proof.
  induction l as [|i l IH]; intros k w w' r Hav Hrun.
  - injection Hrun as <- <-. split; [done|apply same_file_at_refl].
  - cbn [join_loop] in Hrun.
    apply bind_inv in Hrun as [(err & H & ?)|([] & wa & Hwa & Hrun)]; [done|].
    rewrite workers_run in Hwa. injection Hwa as <-.
    destruct (fold_complete_avoids (sched k) w Hav) as [Hava Hsa].
    destruct (complete_avoids _ i Hava) as [Havb Hsb].
    apply bind_inv in Hrun as [(err & Hwb & _)|([] & wb & Hwb & Hrun)].
    + apply future_result_world in Hwb as ->.
      split; [by apply logged_avoids|]. by eapply same_file_at_trans.
    + apply future_result_world in Hwb as ->.
      destruct (IH _ _ _ _ (logged_avoids _ [EvResult i] Havb) Hrun) as [Hav' Hs'].
      split; [done|].
      eapply same_file_at_trans; [exact Hsa|]. by eapply same_file_at_trans.
Qed.
End Frame.

Section Stale.
Context {C : Type} (dbx : Dropbox C) (here : list string).
Context (sched : schedule) (target_dir link_root : string).

Lemma plan_loop_stale (todo : list entry) :
  forall (k : nat) (w w' : world),
    cwd (fs w) = here ->
    NoDup (map (target_of here target_dir) todo) ->
    Forall (fun t => ~ In (absolute here (t_target t))
                          (map (target_of here target_dir) todo))
           (fst <$> pool w) ->
    plan_loop sched dbx target_dir link_root k todo w = Some (Ok tt, w') ->
    fst <$> pool w'
    = (fst <$> pool w) ++ (task_of target_dir link_root <$> stale (fs w) target_dir todo).
Proof.
  induction todo as [|e todo IH]; intros k w w' Hcwd Hnd Hold Hrun.
  - injection Hrun as <-. cbn. by rewrite app_nil_r.
  - cbn [plan_loop] in Hrun.
    apply bind_inv in Hrun as [(err & H & ?)|([] & wa & Hwa & Hrun)]; [done|].
    rewrite workers_run in Hwa. injection Hwa as <-.
    set (wa := fold_left (complete dbx) (sched k) w) in *.
    apply bind_inv in Hrun as [(err & H & ?)|([] & wb & Hwb & Hrun)]; [done|].
    cbn [map] in Hnd, Hold. apply NoDup_cons in Hnd as [Hfresh Hnd].
    (* the workers leave the targets of the entries still to plan alone *)
    assert (Hwa : forall x, In x (e :: todo) ->
              pool_avoids dbx here (target_of here target_dir x) wa
              /\ same_file_at (fs w) (fs wa) (target_of here target_dir x)).
    { intros x Hx. apply fold_complete_avoids. split; [exact Hcwd|].
      eapply Forall_impl; [exact Hold|]. intros t Ht. left. intros Heq. apply Ht.
      rewrite Heq. by apply (in_map (target_of here target_dir)) in Hx. }
    assert (Hcwda : cwd (fs wa) = here) by (by destruct (Hwa e (or_introl eq_refl)) as [[? _] _]).
    assert (Hpa : fst <$> pool wa = fst <$> pool w)
      by (by destruct (fold_complete_extends dbx (sched k) w)).
    destruct (plan_entry_world _ _ _ _ _ _ Hwb) as (Hcwdb & Hsb & Hpb).
    assert (Hup : forall x, In x (e :: todo) ->
              up_to_date (fs wa) target_dir x = up_to_date (fs w) target_dir x).
    { intros x Hx. apply up_to_date_same_file; [congruence|].
      rewrite Hcwd. by destruct (Hwa x Hx). }
    assert (Hupb : forall x, In x todo ->
              up_to_date (fs wb) target_dir x = up_to_date (fs w) target_dir x).
    { intros x Hx. rewrite <- (Hup x (or_intror Hx)).
      apply up_to_date_same_file; [exact Hcwdb|apply Hsb]. }
    rewrite (Hup e (or_introl eq_refl)) in Hpb.
    rewrite (IH (S k) wb w'); [| congruence | exact Hnd | | exact Hrun].
    + rewrite Hpb, fmap_app, Hpa, <- app_assoc. f_equal.
      unfold stale. cbn [List.filter].
      rewrite (filter_ext_in _ (fun x => negb (up_to_date (fs w) target_dir x)) todo)
        by (intros x Hx; by rewrite (Hupb x Hx)).
      by destruct (up_to_date (fs w) target_dir e).
    + rewrite Hpb, fmap_app, Hpa. apply Forall_app. split.
      * eapply Forall_impl; [exact Hold|]. intros t Ht Hin. apply Ht. by right.
      * destruct (up_to_date (fs w) target_dir e); [constructor|].
        constructor; [|constructor]. cbn [fst]. rewrite target_of_task.
        intros Hin. apply Hfresh. by apply list_elem_of_In.
Qed.
End Stale.



(** X14: a run of [download_file_list] writes a file only where a
    transfer succeeded: at a place that is the target of no entry, or only
    of entries whose request fails, no file appears, changes or goes,
    whatever the schedule of the workers and the outcome of the run. *)
Theorem only_transfers_write_files {C} (sched : schedule) (dbx : Dropbox C)
    (files : list entry) (target_dir link_root : string) (n_parallel : Z)
    (w w' : world) (r : result unit) (q : list string) :
  download_file_list sched dbx files target_dir link_root n_parallel w = Some (r, w') ->
  (forall path name h size,
      In (path, name, h, size) files ->
      absolute (cwd (fs w)) (target_path target_dir path name) <> q
      \/ exists err,
           sharing_get_shared_link_file dbx link_root (slash_join path name) = Raise err) ->
  cwd (fs w') = cwd (fs w) /\ same_file_at (fs w) (fs w') q.
Proof.
  intros Hrun Hoff0.
  assert (Hoff : forall e, In e files ->
                   quiet_at dbx (cwd (fs w)) q (task_of target_dir link_root e)).
  { intros [[[path name] h] size] He. unfold quiet_at. cbn [task_of t_target t_link t_remote].
    destruct (Hoff0 _ _ _ _ He) as [Hne|[err Herr]]; [by left|right].
    by rewrite Herr. }
  clear Hoff0. unfold download_file_list in Hrun.
  destruct (n_parallel <=? 0)%Z.
  { injection Hrun as <- <-. split; [done|apply same_file_at_refl]. }
  set (w0 := {| fs := fs w; log := log w; pool := [] |}) in *.
  assert (Hav0 : pool_avoids dbx (cwd (fs w)) q w0) by (split; [done|constructor]).
  assert (Hend : forall l wj,
             pool_avoids dbx (cwd (fs w)) q wj -> same_file_at (fs w) (fs wj) q ->
             cwd (fs (shutdown dbx l wj)) = cwd (fs w)
             /\ same_file_at (fs w) (fs (shutdown dbx l wj)) q).
  { intros l wj Hav Hs. unfold shutdown.
    destruct (fold_complete_avoids dbx _ q (l ++ seq 0 (length (pool wj))) wj Hav)
      as [[Hc _] Hs'].
    split; [exact Hc|]. by eapply same_file_at_trans. }
  destruct (plan_loop sched dbx target_dir link_root 0 files w0)
    as [[[[]|err] wp]|] eqn:Hplan;
    unfold bind at 1 in Hrun; rewrite Hplan in Hrun; [| |discriminate].
  - destruct (plan_loop_avoids dbx _ q sched _ _ files _ _ _ _ Hav0 Hoff Hplan)
      as [Havp Hsp].
    destruct (join_loop sched dbx _ _ wp) as [[rj wj]|] eqn:Hjoin; [|discriminate].
    injection Hrun as <- <-.
    destruct (join_loop_avoids dbx _ q sched _ _ _ _ _ Havp Hjoin) as [Havj Hsj].
    apply Hend; [exact Havj|]. by eapply same_file_at_trans.
  - injection Hrun as <- <-.
    destruct (plan_loop_avoids dbx _ q sched _ _ files _ _ _ _ Hav0 Hoff Hplan)
      as [Havp Hsp].
    by apply Hend.
Qed.

(** X15: a run that returns has every file of the manifest in place:
    when every transfer delivers bytes with the hash of its entry, and
    entries with one target carry one hash, then after a run that returned
    the target of every entry is a file whose content hash is the entry's. *)
Theorem returned_run_has_every_file {C} (sched : schedule) (dbx : Dropbox C)
    (files : list entry) (target_dir link_root : string) (n_parallel : Z)
    (w w1 : world) :
  (forall path name h size body,
      In (path, name, h, size) files ->
      sharing_get_shared_link_file dbx link_root (slash_join path name) = Ok body ->
      content_hash body = Some h) ->
  (forall e e', In e files -> In e' files ->
      absolute (cwd (fs w)) (t_target (task_of target_dir link_root e))
      = absolute (cwd (fs w)) (t_target (task_of target_dir link_root e')) ->
      snd (fst e) = snd (fst e')) ->
  download_file_list sched dbx files target_dir link_root n_parallel w = Some (Ok tt, w1) ->
  forall path name h size,
    In (path, name, h, size) files ->
    exists data,
      file_at (fs w1) (target_path target_dir path name) = Some data
      /\ content_hash data = Some h.
Proof.
  intros Hmatch Hsame Hrun path name h size Hin.
  destruct (all_up_to_date_after dbx target_dir link_root files (cwd (fs w))
              Hmatch Hsame sched n_parallel w w1 eq_refl Hrun) as [_ Hall].
  destruct (proj1 (up_to_date_true _ _ link_root _) (Hall _ Hin)) as (d & Hd & Hh).
  exists d. unfold file_at. cbn [task_of t_target fst snd] in Hd, Hh.
  by rewrite Hd.
Qed.

(** X16: an error in the planning pass ends the run with that error, no
    future is waited for, and still every task submitted before the error
    has run when the call is left. *)
Theorem planning_error_still_runs_tasks {C} (sched : schedule) (dbx : Dropbox C)
    (files : list entry) (target_dir link_root : string) (n_parallel : Z)
    (w w1 : world) (e : exn) :
  (0 < n_parallel)%Z ->
  plan_loop sched dbx target_dir link_root 0 files
    {| fs := fs w; log := log w; pool := [] |} = Some (Raise e, w1) ->
  exists w2,
    download_file_list sched dbx files target_dir link_root n_parallel w
    = Some (Raise e, w2)
    /\ fst <$> pool w2 = fst <$> pool w1
    /\ Forall done (pool w2)
    /\ log w2 = log w1.
Proof.
  intros Hn Hplan.
  exists (shutdown dbx (sched (length files + length (pool w1))) w1).
  split; [|split; [|split]].
  - unfold download_file_list. destruct (Z.leb_spec n_parallel 0); [lia|].
    unfold bind at 1. by rewrite Hplan.
  - unfold shutdown. by destruct (fold_complete_extends dbx
                                    (sched (length files + length (pool w1))
                                       ++ seq 0 (length (pool w1))) w1).
  - apply shutdown_all_done.
  - unfold shutdown. apply fold_complete_log.
Qed.

(** X17: which downloads a run makes is fixed when it starts.  For a
    manifest whose entries have distinct targets, when the planning pass
    returns, the tasks submitted are those of the entries that were not up
    to date in the file system the call started in, in the order of the
    manifest, whatever the workers did in between; they are the futures of
    the run, and all have run when the call is left. *)
Theorem stale_entries_are_submitted {C} (sched : schedule) (dbx : Dropbox C)
    (files : list entry) (target_dir link_root : string) (n_parallel : Z)
    (w w1 : world) :
  (0 < n_parallel)%Z ->
  NoDup (map (target_of (cwd (fs w)) target_dir) files) ->
  plan_loop sched dbx target_dir link_root 0 files
    {| fs := fs w; log := log w; pool := [] |} = Some (Ok tt, w1) ->
  fst <$> pool w1 = task_of target_dir link_root <$> stale (fs w) target_dir files
  /\ exists r w2,
       download_file_list sched dbx files target_dir link_root n_parallel w = Some (r, w2)
       /\ fst <$> pool w2 = task_of target_dir link_root <$> stale (fs w) target_dir files
       /\ Forall done (pool w2).
Proof.
  intros Hn Hnd Hplan.
  assert (Hp : fst <$> pool w1
               = task_of target_dir link_root <$> stale (fs w) target_dir files).
  { by rewrite (plan_loop_stale dbx (cwd (fs w)) sched target_dir link_root files 0
                  {| fs := fs w; log := log w; pool := [] |} w1 eq_refl Hnd
                  (Forall_nil_2 _) Hplan). }
  split; [exact Hp|].
  destruct (after_planning sched dbx target_dir link_root files n_parallel w w1 Hn Hplan)
    as (r & wj & _ & Hrun & Hpool & Hdone & _).
  eexists _, _. split; [exact Hrun|]. split; [by rewrite Hpool|exact Hdone].
Qed.

Lemma sample_failed_transfer_is_quiet (path name h : string) (size : Z) :
  In (path, name, h, size) Sample.manifest ->
  absolute (cwd (fs Sample.w0)) (target_path "out" path name)
  <> ["home"; "u"; "out"; "sub"; "b.txt"]
  \/ exists err,
       sharing_get_shared_link_file Sample.server "LINK" (slash_join path name) = Raise err.
Proof.
  intros [H|[H|[H|[H|[]]]]]; injection H as <- <- <- <-;
    first [left; vm_compute; discriminate | right; eexists; vm_compute; reflexivity].
Qed.

Lemma only_transfers_write_files_witness :
  cwd (fs (Sample.world_after
             (download_file_list Sample.lazy Sample.server Sample.manifest
                "out" "LINK" 1 Sample.w0)))
  = cwd (fs Sample.w0)
  /\ same_file_at (fs Sample.w0)
       (fs (Sample.world_after
              (download_file_list Sample.lazy Sample.server Sample.manifest
                 "out" "LINK" 1 Sample.w0)))
       ["home"; "u"; "out"; "sub"; "b.txt"].
Proof.
  apply (only_transfers_write_files Sample.lazy Sample.server Sample.manifest
           "out" "LINK" 1 Sample.w0 _ (Raise (ApiError "not_found"))).
  - vm_compute. reflexivity.
  - exact sample_failed_transfer_is_quiet.
Defined.

Lemma returned_run_has_every_file_witness :
  exists data,
    file_at (fs (Sample.world_after
                   (download_file_list Sample.lazy Sample.good_server Sample.two_files
                      "out" "LINK" 1 Sample.w0)))
      (target_path "out" "/sub" "b.txt") = Some data
    /\ content_hash data = Some Sample.H2.
Proof.
  apply (returned_run_has_every_file Sample.lazy Sample.good_server Sample.two_files
           "out" "LINK" 1 Sample.w0
           (Sample.world_after
              (download_file_list Sample.lazy Sample.good_server Sample.two_files
                 "out" "LINK" 1 Sample.w0))
           sample_transfers_match sample_same_target_same_hash)
    with (size := 20%Z).
  - vm_compute. reflexivity.
  - right. left. reflexivity.
Defined.

Lemma planning_error_still_runs_tasks_witness :
  exists w2,
    download_file_list Sample.lazy Sample.good_server
      [(EmptyString, "b.txt", "H2", 1%Z); (EmptyString, "a.txt", "H1", 10%Z)]
      "out" "LINK" 1 Sample.w_dir
    = Some (Raise IsADirectoryError, w2)
    /\ fst <$> pool w2
       = fst <$> pool (Sample.world_after
                         (plan_loop Sample.lazy Sample.good_server "out" "LINK" 0
                            [(EmptyString, "b.txt", "H2", 1%Z);
                             (EmptyString, "a.txt", "H1", 10%Z)]
                            {| fs := fs Sample.w_dir; log := log Sample.w_dir; pool := [] |}))
    /\ Forall done (pool w2)
    /\ log w2
       = log (Sample.world_after
                (plan_loop Sample.lazy Sample.good_server "out" "LINK" 0
                   [(EmptyString, "b.txt", "H2", 1%Z);
                    (EmptyString, "a.txt", "H1", 10%Z)]
                   {| fs := fs Sample.w_dir; log := log Sample.w_dir; pool := [] |})).
Proof.
  apply planning_error_still_runs_tasks.
  - lia.
  - vm_compute. reflexivity.
Defined.

Lemma sample_distinct_targets :
  NoDup (map (target_of (cwd (fs Sample.w_have)) "out") Sample.two_files).
Proof. apply NoDup_ListNoDup. vm_compute. repeat constructor; cbn; intuition discriminate. Qed.

Lemma stale_entries_are_submitted_witness :
  fst <$> pool (Sample.world_after
                  (plan_loop Sample.eager Sample.good_server "out" "LINK" 0 Sample.two_files
                     {| fs := fs Sample.w_have; log := log Sample.w_have; pool := [] |}))
  = task_of "out" "LINK" <$> stale (fs Sample.w_have) "out" Sample.two_files
  /\ exists r w2,
       download_file_list Sample.eager Sample.good_server Sample.two_files "out" "LINK" 1
         Sample.w_have = Some (r, w2)
       /\ fst <$> pool w2
          = task_of "out" "LINK" <$> stale (fs Sample.w_have) "out" Sample.two_files
       /\ Forall done (pool w2).
Proof.
  apply stale_entries_are_submitted.
  - lia.
  - exact sample_distinct_targets.
  - vm_compute. reflexivity.
Defined.

(** ** Further properties of [__main__] *)


(** X19: [all_files[:max_num_files]] keeps a front part of the list: the
    first [n] entries for [n >= 0], all of them when there are fewer, and
    all but the last [-n] for a negative [n], none when there are fewer. *)
Theorem cut_is_a_front_part {A} (n : Z) (l : list A) :
  exists rest,
    l = slice_to n l ++ rest
    /\ Z.of_nat (length (slice_to n l))
       = if (0 <=? n)%Z then Z.min n (Z.of_nat (length l))
         else Z.max 0 (Z.of_nat (length l) + n).
Proof.
  unfold slice_to. destruct (Z.leb_spec 0 n) as [Hn|Hn].
  - exists (skipn (Z.to_nat n) l). split; [by rewrite firstn_skipn|].
    rewrite length_take. lia.
  - exists (skipn (length l - Z.to_nat (- n)) l). split; [by rewrite firstn_skipn|].
    rewrite length_take. lia.
Qed.

(** X20: with credentials, a listing that returned and a cut that is not
    empty, [__main__] is the download scheduler run on the cut, in the
    world the lister left; so a [--n_parallel] that is not positive raises
    [ValueError] only after the whole listing, and before any directory is
    made. *)
Theorem main_runs_scheduler_on_the_cut {C} (fuel : nat) (sched : schedule)
    (codec : json_codec) (connect : json -> Dropbox C) (args : arguments)
    (w w1 : world) (text : list byte) (doc api_token : json) (all_files : list entry) :
  os_path_exists (fs w) (PStr (api_token_file args)) = Ok true ->
  read_file (fs w) (PStr (api_token_file args)) = Ok text ->
  json_load codec text = Some doc ->
  subscript doc "api_token" = Ok api_token ->
  get_file_list_recursive fuel codec (connect api_token) (shared_link args)
    (file_list_location args) w = Some (Ok all_files, w1) ->
  match max_num_files args with
  | Some n => slice_to n all_files
  | None => all_files
  end <> [] ->
  main fuel sched codec connect args w
  = download_file_list sched (connect api_token)
      match max_num_files args with
      | Some n => slice_to n all_files
      | None => all_files
      end (target_dir args) (shared_link args) (n_parallel args) w1
  /\ ((n_parallel args <= 0)%Z ->
      main fuel sched codec connect args w = Some (Raise ValueError, w1)).
Proof.
  intros Hex Hrd Hdoc Htok Hlist Hcut.
  assert (Hmain : main fuel sched codec connect args w
                  = download_file_list sched (connect api_token)
                      match max_num_files args with
                      | Some n => slice_to n all_files
                      | None => all_files
                      end (target_dir args) (shared_link args) (n_parallel args) w1).
  { unfold main.
    rewrite (bind_ok _ _ w w true) by (by rewrite ask_run, Hex). cbn [negb].
    rewrite (bind_ok _ _ w w text) by (by rewrite ask_run, Hrd).
    rewrite Hdoc.
    rewrite (bind_ok _ _ w w api_token) by (unfold lift; by rewrite Htok).
    rewrite (bind_ok _ _ _ _ _ Hlist).
    destruct (match max_num_files args with
              | Some n => slice_to n all_files
              | None => all_files
              end) as [|e cut] eqn:Ecut; [done|].
    erewrite bind_ok; [reflexivity|]. reflexivity. }
  split; [exact Hmain|]. intros Hn. rewrite Hmain. unfold download_file_list.
  destruct (Z.leb_spec (n_parallel args) 0); [reflexivity|lia].
Qed.

Lemma main_runs_scheduler_on_the_cut_witness :
  main 10 Sample.lazy JsonText.codec (fun _ => Sample.server) Sample.args Sample.w0
  = download_file_list Sample.lazy Sample.server
      match max_num_files Sample.args with
      | Some n => slice_to n Sample.manifest
      | None => Sample.manifest
      end (target_dir Sample.args) (shared_link Sample.args) (n_parallel Sample.args)
      Sample.w_listed
  /\ ((n_parallel Sample.args <= 0)%Z ->
      main 10 Sample.lazy JsonText.codec (fun _ => Sample.server) Sample.args Sample.w0
      = Some (Raise ValueError, Sample.w_listed)).
Proof.
  eapply (main_runs_scheduler_on_the_cut 10 Sample.lazy JsonText.codec
            (fun _ => Sample.server) Sample.args Sample.w0 Sample.w_listed).
  - vm_compute. reflexivity.
  - vm_compute. reflexivity.
  - vm_compute. reflexivity.
  - vm_compute. reflexivity.
  - vm_compute. reflexivity.
  - vm_compute. discriminate.
Defined.

(** ** The downloads mirror the remote tree *)

Lemma split_slash_app (p s : string) :
  forall cur,
    split_slash (p +:+ String "/" s) cur = split_slash p cur ++ split_slash s EmptyString.
Proof.
  induction p as [|a p IH]; intros cur.
  - reflexivity.
  - rewrite str_app_cons. cbn [split_slash].
    destruct (Ascii.eqb a "/"); by rewrite IH.
Qed.

Lemma parts_slash_join (p name : string) :
  plain_name name = true ->
  parts (mkPath (slash_join p name)) = parts (mkPath p) ++ [name].
Proof.
  intros Hname. pose proof Hname as Hn. apply andb_prop in Hn as [Hs Hc].
  unfold mkPath, slash_join. cbn [parts].
  change (String "/" EmptyString +:+ name) with (String "/" name).
  rewrite split_slash_app, List.filter_app, (split_no_slash _ _ Hs).
  change (EmptyString +:+ name) with name. cbn [List.filter]. by rewrite Hc.
Qed.

Lemma rnode_nested_ind (P : rnode -> Prop) :
  (forall name h size, P (RFile name h size)) ->
  (forall name, P (RDeleted name)) ->
  (forall name children, Forall P children -> P (RFolder name children)) ->
  forall n, P n.
Proof.
  intros HF HD HR. fix IH 1. intros [name h size|name children|name].
  - apply HF.
  - apply HR. induction children as [|c cs IHcs]; constructor; [apply IH|apply IHcs].
  - apply HD.
Qed.

Lemma tasks_under (target_dir link_root : string) (n : rnode) :
  forall (p : string) (above : list string),
    plain_tree n = true ->
    p = fold_left slash_join above EmptyString ->
    parts (mkPath p) = above ->
    map (task_of target_dir link_root) (files_under p n)
    = map (mirrored_task target_dir link_root) (paths_under above n).
Proof.
  induction n as [name h size|name|name children IH] using rnode_nested_ind;
    intros p above Hplain Hp Hparts.
  - cbn [plain_tree] in Hplain. cbn [files_under paths_under map task_of].
    unfold mirrored_task. rewrite (target_path_plain _ _ _ Hplain), Hparts.
    rewrite fold_left_app. cbn [fold_left]. by rewrite <- Hp.
  - reflexivity.
  - cbn [plain_tree] in Hplain. apply andb_prop in Hplain as [Hname Hcs].
    cbn [files_under paths_under].
    induction IH as [|c cs Hc _ IHcs]; [reflexivity|].
    cbn [forallb] in Hcs. apply andb_prop in Hcs as [Hpc Hpcs].
    cbn [flat_map]. rewrite !map_app, (IHcs Hpcs). f_equal.
    apply Hc; [exact Hpc| |].
    + rewrite fold_left_app. cbn [fold_left]. by rewrite <- Hp.
    + by rewrite (parts_slash_join _ _ Hname), Hparts.
Qed.

(** X21: the downloads mirror the remote tree.  For a tree whose file and
    folder names are plain names, the task of the entry of each file is the
    one for its names [n1, ..., nk] from the top of the shared link: the
    request is for [/n1/.../nk] and the target is [target_dir/n1/.../nk],
    in the order of the files of the tree. *)
Theorem tasks_mirror_the_remote_tree (target_dir link_root : string) (top : list rnode) :
  forallb plain_tree top = true ->
  map (task_of target_dir link_root) (remote_files top)
  = map (mirrored_task target_dir link_root) (flat_map (paths_under []) top).
Proof.
  unfold remote_files. induction top as [|n top IH]; intros Hplain; [reflexivity|].
  cbn [forallb] in Hplain. apply andb_prop in Hplain as [Hn Htop].
  cbn [flat_map]. rewrite !map_app, (IH Htop). f_equal.
  by apply tasks_under.
Qed.

Lemma tasks_mirror_the_remote_tree_witness :
  map (task_of "out" "LINK") (remote_files Sample.top)
  = map (mirrored_task "out" "LINK") (flat_map (paths_under []) Sample.top).
Proof. apply tasks_mirror_the_remote_tree. vm_compute. reflexivity. Defined.

(** ** The planning of an entry whose directory is there *)

(** X22: when the directory of the target exists, the planning of an entry
    leaves the file system as it is, and it raises exactly when the target
    is a directory: the error is the [IsADirectoryError] of the hash, and
    no task is submitted for the entry. *)
Theorem planning_in_an_existing_directory (target_dir link_root : string) (e : entry)
    (w : world) :
  os_path_exists (fs w) (PPath (parent (t_target (task_of target_dir link_root e))))
  = Ok true ->
  exists r w',
    plan_entry target_dir link_root e w = Some (r, w')
    /\ fs w' = fs w
    /\ match walk (root (fs w))
               (absolute (cwd (fs w)) (t_target (task_of target_dir link_root e))) with
       | Some (Dir _) => r = Raise IsADirectoryError /\ pool w' = pool w
       | _ => r = Ok tt
       end.
Proof.
  set (t := t_target (task_of target_dir link_root e)).
  assert (forall w0,
    plan_entry target_dir link_root e w0
    = (there <- ask (fun f => os_path_exists f (PPath (parent t))) ;;
       (if there : bool then ret tt
        else emit (EvMakedirs (parent t)) ;;;
             change (fun f => os_makedirs f (PPath (parent t)))) ;;;
       present <- ask (fun f => os_path_exists f (PPath t)) ;;
       have <- (if present : bool
                then emit (EvHash t) ;;;
                     h <- db_content_hash (PPath t) ;;
                     ret (String.eqb h (snd (fst e)))
                else ret false) ;;
       if have : bool then ret tt else submit (task_of target_dir link_root e)) w0)
    as Hbody by (intros w0; subst t; by destruct e as [[[path name] h] size]).
  rewrite Hbody. clear Hbody. intros Hthere.
  rewrite (bind_ok _ _ w w true) by (by rewrite ask_run, Hthere).
  unfold bind at 1. cbn [ret].
  destruct (plan_entry_check target_dir link_root e w)
    as (r & w1 & hs & sb & Hrun & Hfs & _ & _ & Hr).
  fold t in Hrun, Hr. exists r, w1. split; [exact Hrun|]. split; [exact Hfs|].
  destruct (walk (root (fs w)) (absolute (cwd (fs w)) t)) as [[d|m]|] eqn:E.
  - destruct r as [[]|err]; [reflexivity|].
    destruct Hr as (_ & _ & _ & _ & m & Hm). congruence.
  - assert (Hraise :
      (present <- ask (fun f => os_path_exists f (PPath t)) ;;
       have <- (if present : bool
                then emit (EvHash t) ;;;
                     h <- db_content_hash (PPath t) ;;
                     ret (String.eqb h (snd (fst e)))
                else ret false) ;;
       if have : bool then ret tt else submit (task_of target_dir link_root e)) w
      = Some (Raise IsADirectoryError, logged w [EvHash t])).
    { rewrite (bind_ok _ _ w w true).
      2:{ rewrite ask_run, os_path_exists_path, E.
          rewrite bool_decide_eq_true_2 by (by eexists). reflexivity. }
      apply bind_raise.
      rewrite (bind_ok _ _ w (logged w [EvHash t]) tt) by reflexivity.
      apply bind_raise. unfold db_content_hash. apply bind_raise.
      rewrite ask_run, read_file_path. cbn [fs logged]. by rewrite E. }
    rewrite Hraise in Hrun. injection Hrun as <- <-. by split.
  - destruct r as [[]|err]; [reflexivity|].
    destruct Hr as (_ & _ & _ & _ & m & Hm). congruence.
Qed.

Lemma planning_in_an_existing_directory_witness :
  exists r w',
    plan_entry "out" "LINK" (EmptyString, "a.txt", Sample.H1, 10%Z) Sample.w_dir
    = Some (r, w')
    /\ fs w' = fs Sample.w_dir
    /\ match walk (root (fs Sample.w_dir))
               (absolute (cwd (fs Sample.w_dir))
                  (t_target (task_of "out" "LINK"
                               (EmptyString, "a.txt", Sample.H1, 10%Z)))) with
       | Some (Dir _) => r = Raise IsADirectoryError /\ pool w' = pool Sample.w_dir
       | _ => r = Ok tt
       end.
Proof.
  apply planning_in_an_existing_directory. vm_compute. reflexivity.
Defined.

(** ** The results of the futures are those of the transfers *)






Section Results.
Context {C : Type} (dbx : Dropbox C).







End Results.


